(** * Galamsay analysis: validation, aggregation and batch storage

    A shallow embedding of [analysis.py] and [database.py].

    Conventions of the embedding.
    - A Python [int] is a [Z].  A Python [str] is a [string]; the character
      of code [n] stands for the code point [n], so the strings of the model
      are the Python strings over code points below 256.
    - A Python [dict] is an association list in insertion order with one
      entry per key ([dict_get], [dict_set]).
    - A raised exception is the [Raise] branch of [result]; the exception
      classes are the constructors of [exn], with the message they carry.
    - A Python [float] is a binary64 number, a [spec_float] of the Standard
      Library in canonical form (section "Floats"). *)

From Stdlib Require Import ZArith List String Ascii Bool Lia DecimalString.
From Stdlib Require Import Permutation Sorted SpecFloat.
From Stdlib Require DecimalFacts DecimalPos.
Import ListNotations.

Local Open Scope string_scope.
Local Open Scope Z_scope.

(** ** Exceptions and results *)

Inductive exn : Type :=
| FileNotFoundError (msg : string)
| ValueError (msg : string)
| AttributeError (msg : string)
| OverflowError (msg : string)
| ZeroDivisionError (msg : string)
| KeyError (msg : string)
| TypeError (msg : string)
| IntegrityError (msg : string)
| OperationalError (msg : string).

Inductive result (A : Type) : Type :=
| Ok (a : A)
| Raise (e : exn).

Arguments Ok {A} a.
Arguments Raise {A} e.

Definition bind {A B : Type} (m : result A) (k : A -> result B) : result B :=
  match m with
  | Ok a => k a
  | Raise e => Raise e
  end.

Notation "x <- m ;; k" := (bind m (fun x => k))
  (at level 61, m at next level, right associativity).

(** ** Python strings *)

(** [str.isspace] on one code point below 256: the ASCII controls 9 to 13 and
    28 to 31, the space, NEL (133) and the no-break space (160). *)
Definition isspace (c : ascii) : bool :=
  let n := Z.of_N (N_of_ascii c) in
  ((9 <=? n) && (n <=? 13)) || ((28 <=? n) && (n <=? 32))
  || (n =? 133) || (n =? 160).

Fixpoint lstrip (s : string) : string :=
  match s with
  | EmptyString => EmptyString
  | String c s' => if isspace c then lstrip s' else s
  end.

Fixpoint rstrip (s : string) : string :=
  match s with
  | EmptyString => EmptyString
  | String c s' =>
      match rstrip s' with
      | EmptyString => if isspace c then EmptyString else String c EmptyString
      | t => String c t
      end
  end.

(** [s.strip()] *)
Definition strip (s : string) : string := rstrip (lstrip s).

Definition isdigit (c : ascii) : bool :=
  let n := Z.of_N (N_of_ascii c) in (48 <=? n) && (n <=? 57).

Definition digit_value (c : ascii) : Z := Z.of_N (N_of_ascii c) - 48.

(** The digits of a decimal literal after its first digit: digits, and single
    underscores each followed by a digit. *)
Fixpoint int_digits (acc : Z) (s : string) : option Z :=
  match s with
  | EmptyString => Some acc
  | String c s' =>
      if isdigit c then int_digits (10 * acc + digit_value c) s'
      else if Ascii.eqb c "_"%char then
        match s' with
        | String d s'' =>
            if isdigit d then int_digits (10 * acc + digit_value d) s''
            else None
        | EmptyString => None
        end
      else None
  end.

Definition int_unsigned (s : string) : option Z :=
  match s with
  | String c s' => if isdigit c then int_digits (digit_value c) s' else None
  | EmptyString => None
  end.

(** [int(s)] in base 10: surrounding whitespace is dropped, one sign is
    allowed, then comes a digit string; [None] stands for [ValueError].
    (The interpreter's configurable cap on the number of digits is not
    modelled.) *)
Definition py_int (s : string) : option Z :=
  match strip s with
  | String "-"%char r => option_map Z.opp (int_unsigned r)
  | String "+"%char r => int_unsigned r
  | t => int_unsigned t
  end.

(** [str(n)] for an [int], as an f-string formats it. *)
Definition py_str (n : Z) : string := NilZero.string_of_int (Z.to_int n).

(** ** Dictionaries *)

Definition dict (V : Type) : Type := list (string * V).

Fixpoint dict_get {V : Type} (d : dict V) (k : string) : option V :=
  match d with
  | [] => None
  | (k', v) :: d' => if String.eqb k' k then Some v else dict_get d' k
  end.

(** [d[k] = v]: an existing key keeps its place, a new key goes last. *)
Fixpoint dict_set {V : Type} (d : dict V) (k : string) (v : V) : dict V :=
  match d with
  | [] => [(k, v)]
  | (k', v') :: d' =>
      if String.eqb k' k then (k, v) :: d' else (k', v') :: dict_set d' k v
  end.

Definition keys {V : Type} (d : dict V) : list string := map fst d.

Definition mem (k : string) (l : list string) : bool :=
  existsb (String.eqb k) l.

(** ** Data model of [analysis.py] *)

(** A cell of a row of [csv.DictReader]: a string, or [None] where the line
    had fewer fields than the header ([restval]). *)
Definition cell : Type := option string.

Definition RawRow : Type := dict cell.

(** A valid record, the dict with keys ['city'], ['region'], ['num_sites']. *)
Record ValidRecord : Type := {
  city : string;
  region : string;
  num_sites : Z
}.

(** An invalid record, the dict with keys ['row'], ['data'], ['reason']. *)
Record InvalidRecord : Type := {
  inv_row : Z;
  inv_data : RawRow;
  inv_reason : string
}.

(** What [csv.DictReader] yields for a file: its [fieldnames] ([None] for a
    file without a header line) and its rows. *)
Record csv_file : Type := {
  fieldnames : option (list string);
  rows : list RawRow
}.

(** The files that exist, by path. *)
Definition filesystem : Type := string -> option csv_file.

Definition valid_regions : list string :=
  [ "Ashanti"; "Western"; "Upper East"; "Greater Accra"; "Northern";
    "Central"; "Bono"; "Upper West"; "Volta"; "Eastern"; "Bono East";
    "Savannah"; "Oti"; "North East"; "Ahafo"; "Western North" ].

Definition required_headers : list string :=
  [ "City"; "Region"; "Number_of_Galamsay_Sites" ].

(** [required_headers.issubset(set(reader.fieldnames or []))] *)
Definition headers_ok (f : csv_file) : bool :=
  let names := match fieldnames f with Some l => l | None => [] end in
  forallb (fun h => mem h names) required_headers.

(** ** [load_data] *)

(** [row.get(key, '').strip()]: the default is for an absent key; a cell that
    is [None] has no [strip]. *)
Definition get_stripped (r : RawRow) (key : string) : result string :=
  match dict_get r key with
  | Some (Some s) => Ok (strip s)
  | Some None =>
      Raise (AttributeError "'NoneType' object has no attribute 'strip'")
  | None => Ok (strip "")
  end.

Inductive row_outcome : Type :=
| Accepted (v : ValidRecord)
| Rejected (i : InvalidRecord).

(** The checks of the loop body on the three stripped cells, in the order of
    the source; [continue] after an [append] is the [Rejected] outcome. *)
Definition check_row (row_num : Z) (r : RawRow) (city region sites_str : string)
  : row_outcome :=
  let invalid reason :=
    Rejected {| inv_row := row_num; inv_data := r; inv_reason := reason |} in
  if String.eqb city "" then invalid "Missing city name"
  else if String.eqb region "" then invalid "Missing region"
  else if negb (mem region valid_regions) then
    invalid ("Invalid region: " ++ region)
  else
    match py_int sites_str with
    | Some n =>
        if n <? 0 then invalid ("Negative site count: " ++ py_str n)
        else if n >? 500 then
          invalid ("Unrealistic site count (outlier): " ++ py_str n)
        else
          Accepted {| city := city; region := region; num_sites := n |}
    | None => invalid ("Non-numeric site count: " ++ sites_str)
    end.

Definition validate_row (row_num : Z) (r : RawRow) : result row_outcome :=
  city <- get_stripped r "City" ;;
  region <- get_stripped r "Region" ;;
  sites_str <- get_stripped r "Number_of_Galamsay_Sites" ;;
  Ok (check_row row_num r city region sites_str).

(** The [for] loop over [enumerate(reader, start=2)], appending to the two
    lists. *)
Fixpoint load_rows (row_num : Z) (rs : list RawRow)
    (valid_records : list ValidRecord) (invalid_records : list InvalidRecord)
  : result (list ValidRecord * list InvalidRecord) :=
  match rs with
  | [] => Ok (valid_records, invalid_records)
  | r :: rs' =>
      o <- validate_row row_num r ;;
      match o with
      | Accepted v =>
          load_rows (row_num + 1) rs' (valid_records ++ [v]) invalid_records
      | Rejected i =>
          load_rows (row_num + 1) rs' valid_records (invalid_records ++ [i])
      end
  end.

(** The message of the header check formats a set, whose elements print in
    an order the language does not fix; the order of the literal is used. *)
Definition missing_headers_message : string :=
  "CSV file missing required headers: "
  ++ "{'City', 'Region', 'Number_of_Galamsay_Sites'}".

Definition load_data (fs : filesystem) (filepath : string)
  : result (list ValidRecord * list InvalidRecord) :=
  match fs filepath with
  | None => Raise (FileNotFoundError ("Data file not found: " ++ filepath))
  | Some file =>
      if negb (headers_ok file) then Raise (ValueError missing_headers_message)
      else
        loaded <- load_rows 2 (rows file) [] [] ;;
        let '(valid_records, invalid_records) := loaded in
        match valid_records with
        | [] => Raise (ValueError "No valid data records found in the file")
        | _ => Ok (valid_records, invalid_records)
        end
  end.

(** ** Floats

    A [float] is a binary64 number: [S754_zero], or [S754_finite s m e] for
    the number [m * 2^e] with its sign, where [m] has 53 bits, or fewer at
    the least exponent [-1074]. *)

Definition float : Type := spec_float.

(** The integer nearest to [p / q], for [0 < q]; of the two nearest at a tie,
    the even one. *)
Definition round_half_even (p q : Z) : Z :=
  let f := p / q in
  match 2 * (p mod q) ?= q with
  | Lt => f
  | Gt => f + 1
  | Eq => if Z.even f then f else f + 1
  end.

(** [floor (log2 (p / q))] for [0 < p] and [0 < q]. *)
Definition log2_ratio (p q : Z) : Z :=
  let d := Z.log2 p - Z.log2 q in
  if q * 2 ^ Z.max 0 d <=? p * 2 ^ Z.max 0 (- d) then d else d - 1.

(** [(p / q) / 2^e] as a fraction. *)
Definition scale (p q e : Z) : Z * Z :=
  if 0 <=? e then (p, q * 2 ^ e) else (p * 2 ^ (- e), q).

(** The binary64 number nearest to [p / q], for [0 <= p] and [0 < q], with
    the given sign; ties go to the even mantissa, and a quotient beyond the
    range is an infinity. *)
Definition nearest_binary64 (neg : bool) (p q : Z) : float :=
  if p =? 0 then S754_zero neg
  else
    let e := Z.max (log2_ratio p q - 52) (-1074) in
    let '(a, b) := scale p q e in
    let m := round_half_even a b in
    let '(m, e) := if m =? 2 ^ 53 then (2 ^ 52, e + 1) else (m, e) in
    if m =? 0 then S754_zero neg
    else if 971 <? e then S754_infinity neg
    else S754_finite neg (Z.to_pos m) e.

(** [a / b] on two [int]s: the float nearest to the exact quotient. *)
Definition py_truediv (a b : Z) : result float :=
  if b =? 0 then Raise (ZeroDivisionError "division by zero")
  else
    match nearest_binary64 (xorb (a <? 0) (b <? 0)) (Z.abs a) (Z.abs b) with
    | S754_infinity _ =>
        Raise (OverflowError "integer division result too large for a float")
    | x => Ok x
    end.

(** [round(x, 2)]: the decimal with two places nearest to the exact value of
    [x] (the even one at a tie), then the float nearest to that decimal. *)
Definition py_round2 (x : float) : float :=
  match x with
  | S754_finite s m e =>
      let '(a, b) := scale (100 * Zpos m) 1 (- e) in
      nearest_binary64 s (round_half_even a b) 100
  | _ => x
  end.

(** The float of an [int] below [2^53] in absolute value. *)
Definition float_of_Z (n : Z) : float :=
  nearest_binary64 (n <? 0) (Z.abs n) 1.

(** ** The aggregations of [analysis.py] *)

(** [sum(l)] *)
Definition py_sum (l : list Z) : Z := fold_left Z.add l 0.

(** [len(l)] *)
Definition len {A : Type} (l : list A) : Z := Z.of_nat (List.length l).

Definition get_total_sites (data : list ValidRecord) : Z :=
  match data with
  | [] => 0
  | _ => py_sum (map num_sites data)
  end.

Definition dict_get_default {V : Type} (d : dict V) (k : string) (default : V)
  : V :=
  match dict_get d k with
  | Some v => v
  | None => default
  end.

(** The loop that fills [region_totals]. *)
Definition add_to_totals (region_totals : dict Z) (record : ValidRecord)
  : dict Z :=
  dict_set region_totals (region record)
    (dict_get_default region_totals (region record) 0 + num_sites record).

Definition region_totals (data : list ValidRecord) : dict Z :=
  fold_left add_to_totals data [].

(** [max(l, key=key)] on [best :: l]: a later element replaces the best one
    only when its key is strictly greater. *)
Fixpoint max_from {A : Type} (key : A -> Z) (best : A) (l : list A) : A :=
  match l with
  | [] => best
  | x :: l' =>
      if key best <? key x then max_from key x l' else max_from key best l'
  end.

Definition py_max {A : Type} (key : A -> Z) (l : list A) : result A :=
  match l with
  | [] => Raise (ValueError "max() iterable argument is empty")
  | x :: l' => Ok (max_from key x l')
  end.

Definition get_region_with_highest_sites (data : list ValidRecord)
  : result (string * Z) :=
  match data with
  | [] => Raise (ValueError "Cannot determine highest region from empty data")
  | _ => py_max snd (region_totals data)
  end.

(** [sorted(l, key=key, reverse=True)].  The sort of Python is stable, also
    when reversed; a stable sort is determined by its key, and is written
    here as an insertion sort: an element goes before the first one whose
    key is not greater than its own. *)
Fixpoint insert_desc {A : Type} (key : A -> Z) (x : A) (l : list A) : list A :=
  match l with
  | [] => [x]
  | y :: l' =>
      if key y <=? key x then x :: y :: l' else y :: insert_desc key x l'
  end.

Definition sorted_reverse {A : Type} (key : A -> Z) (l : list A) : list A :=
  fold_right (insert_desc key) [] l.

Definition get_cities_above_threshold (data : list ValidRecord) (threshold : Z)
  : result (list ValidRecord) :=
  if threshold <? 0 then Raise (ValueError "Threshold cannot be negative")
  else
    let cities_above :=
      filter (fun record => threshold <? num_sites record) data in
    Ok (sorted_reverse num_sites cities_above).

(** The loop that fills [region_data]: a new region gets an empty list, then
    the count is appended to the list of the region. *)
Definition add_to_region_data (region_data : dict (list Z))
    (record : ValidRecord) : dict (list Z) :=
  let region_data :=
    if negb (mem (region record) (keys region_data))
    then dict_set region_data (region record) []
    else region_data in
  dict_set region_data (region record)
    (dict_get_default region_data (region record) [] ++ [num_sites record])%list.

Definition region_data (data : list ValidRecord) : dict (list Z) :=
  fold_left add_to_region_data data [].

(** [round(sum(sites) / len(sites), 2)] *)
Definition average_of (sites : list Z) : result float :=
  q <- py_truediv (py_sum sites) (len sites) ;;
  Ok (py_round2 q).

Fixpoint averages_loop (items : list (string * list Z)) (averages : dict float)
  : result (dict float) :=
  match items with
  | [] => Ok averages
  | (region, sites) :: items' =>
      a <- average_of sites ;;
      averages_loop items' (dict_set averages region a)
  end.

Definition get_average_sites_per_region (data : list ValidRecord)
  : result (dict float) :=
  match data with
  | [] => Ok []
  | _ => averages_loop (region_data data) []
  end.

(** An entry of the region summary, the dict with keys ['region'],
    ['total_sites'], ['city_count'], ['average_sites'], ['max_sites'] and
    ['min_sites']. *)
Record RegionSummary : Type := {
  rs_region : string;
  rs_total_sites : Z;
  rs_city_count : Z;
  rs_average_sites : float;
  rs_max_sites : Z;
  rs_min_sites : Z
}.

(** [max(l)] and [min(l)] on a list of [int]s. *)
Definition py_max_list (l : list Z) : result Z := py_max (fun x => x) l.

Definition py_min_list (l : list Z) : result Z :=
  match l with
  | [] => Raise (ValueError "min() iterable argument is empty")
  | x :: l' => Ok (fold_left Z.min l' x)
  end.

Fixpoint summary_loop (items : list (string * list Z))
    (summary : list RegionSummary) : result (list RegionSummary) :=
  match items with
  | [] => Ok summary
  | (region, sites) :: items' =>
      a <- average_of sites ;;
      hi <- py_max_list sites ;;
      lo <- py_min_list sites ;;
      summary_loop items'
        (summary ++ [ {| rs_region := region;
                         rs_total_sites := py_sum sites;
                         rs_city_count := len sites;
                         rs_average_sites := a;
                         rs_max_sites := hi;
                         rs_min_sites := lo |} ])%list
  end.

Definition get_region_summary (data : list ValidRecord)
  : result (list RegionSummary) :=
  match data with
  | [] => Ok []
  | _ =>
      summary <- summary_loop (region_data data) [] ;;
      Ok (sorted_reverse rs_total_sites summary)
  end.

(** ** [run_full_analysis] *)

(** The value of ['region_with_highest_sites']. *)
Record HighestRegion : Type := {
  hr_region : string;
  hr_total_sites : Z
}.

(** The value of ['cities_above_threshold']. *)
Record CitiesAbove : Type := {
  threshold : Z;
  count : Z;
  cities : list ValidRecord
}.

(** The dict that [run_full_analysis] returns, a field per key. *)
Record AnalysisResults : Type := {
  total_sites : Z;
  total_valid_records : Z;
  total_invalid_records : Z;
  region_with_highest_sites : HighestRegion;
  cities_above_threshold : CitiesAbove;
  average_sites_per_region : dict float;
  region_summary : list RegionSummary;
  invalid_records : list InvalidRecord;
  valid_data : list ValidRecord
}.

Definition run_full_analysis (fs : filesystem) (filepath : string)
    (threshold : Z) : result AnalysisResults :=
  loaded <- load_data fs filepath ;;
  let '(valid_data, invalid_data) := loaded in
  let total_sites := get_total_sites valid_data in
  highest <- get_region_with_highest_sites valid_data ;;
  let '(highest_region, highest_count) := highest in
  cities_above_threshold <- get_cities_above_threshold valid_data threshold ;;
  average_per_region <- get_average_sites_per_region valid_data ;;
  region_summary <- get_region_summary valid_data ;;
  Ok {| total_sites := total_sites;
        total_valid_records := len valid_data;
        total_invalid_records := len invalid_data;
        region_with_highest_sites :=
          {| hr_region := highest_region; hr_total_sites := highest_count |};
        cities_above_threshold :=
          {| threshold := threshold;
             count := len cities_above_threshold;
             cities := cities_above_threshold |};
        average_sites_per_region := average_per_region;
        region_summary := region_summary;
        invalid_records := invalid_data;
        valid_data := valid_data |}.

(** ** Python values and their JSON text

    [json.dumps] with its default settings, and [json.loads].  The values
    are those [json.loads] returns: [None], [bool], [int], [float], [str],
    [list], and [dict] with [str] keys. *)

#[local] Set Warnings "-register-all".

Inductive pyval : Type :=
| PNone
| PBool (b : bool)
| PInt (n : Z)
| PFloat (x : float)
| PStr (s : string)
| PList (l : list pyval)
| PDict (d : list (string * pyval)).

Definition dquote : ascii := "034"%char.
Definition backslash : ascii := "092"%char.

Definition code (c : ascii) : Z := Z.of_N (N_of_ascii c).

Definition char_of (n : Z) : ascii := ascii_of_N (Z.to_N n).

(** *** The text of a float: [float.__repr__]

    The digits are the shortest decimal that reads back as the same float,
    and among the decimals of that length the nearest one; the notation is
    positional for a decimal point within 16 places after the first digit
    or 4 places before it, and scientific otherwise. *)

Definition float_eqb (x y : float) : bool :=
  match x, y with
  | S754_zero s, S754_zero s' => Bool.eqb s s'
  | S754_infinity s, S754_infinity s' => Bool.eqb s s'
  | S754_nan, S754_nan => true
  | S754_finite s m e, S754_finite s' m' e' =>
      Bool.eqb s s' && Pos.eqb m m' && (e =? e')
  | _, _ => false
  end.

(** [c * 10^k] as a fraction. *)
Definition decimal (c k : Z) : Z * Z :=
  if 0 <=? k then (c * 10 ^ k, 1) else (c, 10 ^ (- k)).

(** The float nearest to [c * 10^k], as [float(s)] reads a literal. *)
Definition float_of_decimal (neg : bool) (c k : Z) : float :=
  let '(p, q) := decimal c k in nearest_binary64 neg p q.

(** [p / q < 10^d] *)
Definition below_pow10 (p q d : Z) : bool :=
  if 0 <=? d then p <? q * 10 ^ d else p * 10 ^ (- d) <? q.

(** The least [d] with [p / q < 10^d], for [0 < p] and [0 < q]: the place
    of the decimal point before the first digit of [p / q]. *)
Definition decimal_point (p q : Z) : Z :=
  let est := (log2_ratio p q * 30103) / 100000 in
  if below_pow10 p q (est - 1) then est - 1
  else if below_pow10 p q est then est
  else if below_pow10 p q (est + 1) then est + 1
  else est + 2.

(** [floor ((p / q) / 10^k)] *)
Definition floor_scaled (p q k : Z) : Z :=
  if 0 <=? k then p / (q * 10 ^ k) else (p * 10 ^ (- k)) / q.

(** The candidates with [n] digits for the positive float [x = p / q]: the
    two decimals of unit [10^k] around it; one that reads back as [x] is
    chosen, the nearer of two. *)
Definition candidate (x : float) (p q : Z) (k : Z) : option Z :=
  let lo := floor_scaled p q k in
  let hi := lo + 1 in
  let ok c := float_eqb (float_of_decimal false c k) x in
  match ok lo, ok hi with
  | true, true =>
      (* compare [x - lo * 10^k] with [hi * 10^k - x] *)
      let '(a, b) := decimal (lo + hi) k in
      match 2 * p * b ?= a * q with
      | Lt => Some lo
      | Gt => Some hi
      | Eq => Some (if Z.even lo then lo else hi)
      end
  | true, false => Some lo
  | false, true => Some hi
  | false, false => None
  end.

Fixpoint shortest_from (fuel : nat) (x : float) (p q d n : Z) : Z * Z :=
  match fuel with
  | O => (round_half_even (fst (decimal 1 (n - d)) * p)
            (snd (decimal 1 (n - d)) * q), d - n)
  | S fuel' =>
      match candidate x p q (d - n) with
      | Some c => (c, d - n)
      | None => shortest_from fuel' x p q d (n + 1)
      end
  end.

(** The digits [c] and the exponent [k] of the shortest decimal [c * 10^k]
    of the positive float [m * 2^e]; 17 digits always suffice. *)
Definition shortest_decimal (m : positive) (e : Z) : Z * Z :=
  let '(p, q) := scale (Zpos m) 1 (- e) in
  shortest_from 16 (S754_finite false m e) p q (decimal_point p q) 1.

(** Trailing zeros move from the digits to the exponent. *)
Fixpoint strip_zeros (fuel : nat) (c k : Z) : Z * Z :=
  match fuel with
  | O => (c, k)
  | S fuel' =>
      if (c mod 10 =? 0) && negb (c =? 0) then strip_zeros fuel' (c / 10) (k + 1)
      else (c, k)
  end.

Fixpoint zeros (n : nat) : string :=
  match n with
  | O => EmptyString
  | S n' => String "0"%char (zeros n')
  end.

Definition slen (s : string) : Z := Z.of_nat (String.length s).

(** The exponent of the scientific notation: a sign and two digits at
    least. *)
Definition exponent_text (e : Z) : string :=
  let a := py_str (Z.abs e) in
  (if e <? 0 then "e-" else "e+") ++ (if Z.abs e <? 10 then "0" ++ a else a).

(** The notation of digits [ds] with the decimal point [d] places after the
    start of the digits. *)
Definition float_notation (ds : string) (d : Z) : string :=
  if (-4 <? d) && (d <=? 16) then
    if d <=? 0 then "0." ++ zeros (Z.to_nat (- d)) ++ ds
    else if slen ds <=? d then ds ++ zeros (Z.to_nat (d - slen ds)) ++ ".0"
    else substring 0 (Z.to_nat d) ds ++ "."
         ++ substring (Z.to_nat d) (String.length ds - Z.to_nat d) ds
  else
    substring 0 1 ds
    ++ (if slen ds <=? 1 then ""
        else "." ++ substring 1 (String.length ds - 1) ds)
    ++ exponent_text (d - 1).

Definition float_repr (x : float) : string :=
  match x with
  | S754_zero s => if s then "-0.0" else "0.0"
  | S754_infinity s => if s then "-inf" else "inf"
  | S754_nan => "nan"
  | S754_finite s m e =>
      let '(c, k) := shortest_decimal m e in
      let '(c, k) := strip_zeros 17 c k in
      let ds := py_str c in
      (if s then "-" else "") ++ float_notation ds (slen ds + k)
  end.

(** *** [json.dumps] *)

Definition hex_digit (n : Z) : ascii :=
  if n <? 10 then char_of (48 + n) else char_of (87 + n).

(** One character of a string, as the encoder writes it with
    [ensure_ascii]: the printable ASCII characters as they are, but for the
    quote and the backslash. *)
Definition escape_char (c : ascii) : string :=
  let n := code c in
  if n =? 34 then String backslash (String dquote "")
  else if n =? 92 then String backslash (String backslash "")
  else if n =? 10 then String backslash "n"
  else if n =? 13 then String backslash "r"
  else if n =? 9 then String backslash "t"
  else if n =? 12 then String backslash "f"
  else if n =? 8 then String backslash "b"
  else if (32 <=? n) && (n <=? 126) then String c ""
  else String backslash
         ("u00" ++ String (hex_digit (n / 16)) (String (hex_digit (n mod 16)) "")).

Fixpoint escape (s : string) : string :=
  match s with
  | EmptyString => EmptyString
  | String c s' => escape_char c ++ escape s'
  end.

Definition quote (s : string) : string :=
  String dquote (escape s ++ String dquote "").

(** The text of a float in a document. *)
Definition float_text (x : float) : string :=
  match x with
  | S754_nan => "NaN"
  | S754_infinity false => "Infinity"
  | S754_infinity true => "-Infinity"
  | _ => float_repr x
  end.

Fixpoint json_dumps (v : pyval) : string :=
  match v with
  | PNone => "null"
  | PBool true => "true"
  | PBool false => "false"
  | PInt n => py_str n
  | PFloat x => float_text x
  | PStr s => quote s
  | PList l =>
      let fix items (l : list pyval) : string :=
        match l with
        | [] => ""
        | [v] => json_dumps v
        | v :: l' => json_dumps v ++ ", " ++ items l'
        end in
      "[" ++ items l ++ "]"
  | PDict d =>
      let fix members (d : list (string * pyval)) : string :=
        match d with
        | [] => ""
        | [(k, v)] => quote k ++ ": " ++ json_dumps v
        | (k, v) :: d' => quote k ++ ": " ++ json_dumps v ++ ", " ++ members d'
        end in
      "{" ++ members d ++ "}"
  end.

(** *** [json.loads] *)

Definition is_ws (c : ascii) : bool :=
  let n := code c in (n =? 32) || (n =? 9) || (n =? 10) || (n =? 13).

Fixpoint skip_ws (s : string) : string :=
  match s with
  | String c s' => if is_ws c then skip_ws s' else s
  | EmptyString => EmptyString
  end.

Definition hex_value (c : ascii) : option Z :=
  let n := code c in
  if (48 <=? n) && (n <=? 57) then Some (n - 48)
  else if (97 <=? n) && (n <=? 102) then Some (n - 87)
  else if (65 <=? n) && (n <=? 70) then Some (n - 55)
  else None.

(** The character of a simple escape. *)
Definition unescape (e : ascii) : option ascii :=
  let n := code e in
  if n =? 34 then Some dquote
  else if n =? 92 then Some backslash
  else if n =? 47 then Some "/"%char
  else if n =? 98 then Some (char_of 8)
  else if n =? 102 then Some (char_of 12)
  else if n =? 110 then Some (char_of 10)
  else if n =? 114 then Some (char_of 13)
  else if n =? 116 then Some (char_of 9)
  else None.

(** The content of a string literal after its opening quote, and the text
    after its closing quote.  A control character is refused, and so is an
    escape of a code point from 256 on, which the strings of the model do
    not have. *)
Fixpoint scan_string (s : string) : option (string * string) :=
  match s with
  | EmptyString => None
  | String c r =>
      if Ascii.eqb c dquote then Some (EmptyString, r)
      else if Ascii.eqb c backslash then
        match r with
        | String e r' =>
            if Ascii.eqb e "u"%char then
              match r' with
              | String h1 (String h2 (String h3 (String h4 r''))) =>
                  match hex_value h1, hex_value h2, hex_value h3,
                        hex_value h4 with
                  | Some a, Some b, Some c3, Some d =>
                      if (a =? 0) && (b =? 0) then
                        match scan_string r'' with
                        | Some (t, rest) =>
                            Some (String (char_of (16 * c3 + d)) t, rest)
                        | None => None
                        end
                      else None
                  | _, _, _, _ => None
                  end
              | _ => None
              end
            else
              match unescape e, scan_string r' with
              | Some c', Some (t, rest) => Some (String c' t, rest)
              | _, _ => None
              end
        | EmptyString => None
        end
      else if code c <? 32 then None
      else
        match scan_string r with
        | Some (t, rest) => Some (String c t, rest)
        | None => None
        end
  end.

(** The longest prefix of digits, and the rest. *)
Fixpoint span_digits (s : string) : string * string :=
  match s with
  | String c r =>
      if isdigit c then let '(ds, rest) := span_digits r in (String c ds, rest)
      else (EmptyString, s)
  | EmptyString => (EmptyString, EmptyString)
  end.

(** The value of a string of digits. *)
Definition digits_value (ds : string) : Z :=
  match NilZero.uint_of_string ds with
  | Some u => Z.of_uint u
  | None => 0
  end.

(** The integer part of a number: [0], or digits that start with one of 1
    to 9. *)
Definition scan_int_part (s : string) : option (string * string) :=
  match s with
  | String c r =>
      if Ascii.eqb c "0"%char then Some ("0", r)
      else if isdigit c then Some (span_digits s)
      else None
  | EmptyString => None
  end.

(** The text after a first character [c], if the text starts with it. *)
Definition starts_with (c : ascii) (s : string) : option string :=
  match s with
  | String a r => if Ascii.eqb a c then Some r else None
  | EmptyString => None
  end.

(** The fraction: a point and digits, one at least. *)
Definition scan_frac (s : string) : option string * string :=
  match starts_with "."%char s with
  | Some r =>
      match span_digits r with
      | (EmptyString, _) => (None, s)
      | (ds, rest) => (Some ds, rest)
      end
  | None => (None, s)
  end.

(** The exponent: [e] or [E], a sign or none, and digits, one at least. *)
Definition scan_exp (s : string) : option Z * string :=
  match s with
  | String c r =>
      if Ascii.eqb c "e"%char || Ascii.eqb c "E"%char then
        let '(neg, r') :=
          match starts_with "-"%char r with
          | Some t => (true, t)
          | None =>
              match starts_with "+"%char r with
              | Some t => (false, t)
              | None => (false, r)
              end
          end in
        match span_digits r' with
        | (EmptyString, _) => (None, s)
        | (ds, rest) =>
            (Some (if neg then - digits_value ds else digits_value ds), rest)
        end
      else (None, s)
  | EmptyString => (None, s)
  end.

(** A number: an [int] when it has neither fraction nor exponent, and a
    [float] otherwise. *)
Definition scan_number (s : string) : option (pyval * string) :=
  let '(neg, s1) :=
    match starts_with "-"%char s with
    | Some r => (true, r)
    | None => (false, s)
    end in
  match scan_int_part s1 with
  | None => None
  | Some (ip, s2) =>
      let '(frac, s3) := scan_frac s2 in
      let '(ex, s4) := scan_exp s3 in
      match frac, ex with
      | None, None =>
          Some (PInt (if neg then - digits_value ip else digits_value ip), s4)
      | _, _ =>
          let fd := match frac with Some ds => ds | None => "" end in
          let e := match ex with Some e => e | None => 0 end in
          Some (PFloat (float_of_decimal neg (digits_value (ip ++ fd))
                          (e - slen fd)), s4)
      end
  end.

(** [prefix p s]: the text after [p] where [s] starts with [p]. *)
Fixpoint after_prefix (p s : string) : option string :=
  match p, s with
  | EmptyString, _ => Some s
  | String a p', String b s' =>
      if Ascii.eqb a b then after_prefix p' s' else None
  | _, _ => None
  end.

Definition scan_constant (s : string) : option (pyval * string) :=
  match after_prefix "null" s with
  | Some r => Some (PNone, r)
  | None =>
  match after_prefix "true" s with
  | Some r => Some (PBool true, r)
  | None =>
  match after_prefix "false" s with
  | Some r => Some (PBool false, r)
  | None =>
  match after_prefix "NaN" s with
  | Some r => Some (PFloat S754_nan, r)
  | None =>
  match after_prefix "Infinity" s with
  | Some r => Some (PFloat (S754_infinity false), r)
  | None =>
  match after_prefix "-Infinity" s with
  | Some r => Some (PFloat (S754_infinity true), r)
  | None => scan_number s
  end end end end end end.

(** [dict(pairs)]: a later pair of a key replaces the value of the key. *)
Definition dict_of_pairs {V : Type} (pairs : list (string * V)) : dict V :=
  fold_left (fun d kv => dict_set d (fst kv) (snd kv)) pairs [].

(** The decoder.  [parse_value] reads one value at the start of the text;
    [parse_items] reads the items of an array after its bracket, and
    [parse_members] the members of an object after its brace.  The fuel
    bounds the number of nested calls. *)
Fixpoint parse_value (fuel : nat) (s : string) : option (pyval * string) :=
  match fuel with
  | O => None
  | S fuel' =>
      match s with
      | String c r =>
          if Ascii.eqb c dquote then
            match scan_string r with
            | Some (t, rest) => Some (PStr t, rest)
            | None => None
            end
          else if Ascii.eqb c "["%char then
            match starts_with "]"%char (skip_ws r) with
            | Some rest => Some (PList [], rest)
            | None =>
                match parse_items fuel' (skip_ws r) [] with
                | Some (l, rest) => Some (PList l, rest)
                | None => None
                end
            end
          else if Ascii.eqb c "{"%char then
            match starts_with "}"%char (skip_ws r) with
            | Some rest => Some (PDict [], rest)
            | None =>
                match parse_members fuel' (skip_ws r) [] with
                | Some (pairs, rest) => Some (PDict (dict_of_pairs pairs), rest)
                | None => None
                end
            end
          else scan_constant s
      | EmptyString => None
      end
  end

with parse_items (fuel : nat) (s : string) (acc : list pyval)
  : option (list pyval * string) :=
  match fuel with
  | O => None
  | S fuel' =>
      match parse_value fuel' s with
      | Some (v, rest) =>
          match starts_with "]"%char (skip_ws rest) with
          | Some rest' => Some ((acc ++ [v])%list, rest')
          | None =>
              match starts_with ","%char (skip_ws rest) with
              | Some rest' =>
                  parse_items fuel' (skip_ws rest') (acc ++ [v])%list
              | None => None
              end
          end
      | None => None
      end
  end

with parse_members (fuel : nat) (s : string) (acc : list (string * pyval))
  : option (list (string * pyval) * string) :=
  match fuel with
  | O => None
  | S fuel' =>
      match starts_with dquote s with
      | Some r =>
          match scan_string r with
          | Some (k, rest) =>
              match starts_with ":"%char (skip_ws rest) with
              | Some rest1 =>
                  match parse_value fuel' (skip_ws rest1) with
                  | Some (v, rest2) =>
                      match starts_with "}"%char (skip_ws rest2) with
                      | Some rest' => Some ((acc ++ [(k, v)])%list, rest')
                      | None =>
                          match starts_with ","%char (skip_ws rest2) with
                          | Some rest' =>
                              parse_members fuel' (skip_ws rest')
                                (acc ++ [(k, v)])%list
                          | None => None
                          end
                      end
                  | None => None
                  end
              | None => None
              end
          | None => None
          end
      | None => None
      end
  end.

(** [json.loads(s)]: one value, with whitespace around it; anything else
    is a [JSONDecodeError], a [ValueError]. *)
Definition json_loads (s : string) : result pyval :=
  match parse_value (S (String.length s)) (skip_ws s) with
  | Some (v, rest) =>
      match skip_ws rest with
      | EmptyString => Ok v
      | _ => Raise (ValueError "Extra data")
      end
  | None => Raise (ValueError "Expecting value")
  end.

(** ** The store of [database.py]: an SQLite database

    A database is its tables, each with its columns and its rows in the
    order of insertion, and its indexes.  A row is the dict that [dict(row)]
    gives for [SELECT *]: a value per column, in the order of the columns.
    Names of tables, indexes and columns compare without regard to ASCII
    case.  A value is stored as it is bound: the conversions of column
    affinity are not modelled, and do not arise where an [int] goes to an
    [INTEGER] column and a [str] to a [TEXT] column. *)

Inductive sqlval : Type :=
| SqlNull
| SqlInt (n : Z)
| SqlText (s : string).

Record column : Type := {
  col_name : string;
  col_type : string;
  col_not_null : bool;
  col_unique : bool;
  col_autoincrement : bool;     (* INTEGER PRIMARY KEY AUTOINCREMENT *)
  col_current_timestamp : bool  (* DEFAULT CURRENT_TIMESTAMP *)
}.

Record table : Type := {
  tbl_name : string;
  tbl_columns : list column;
  tbl_rows : list (dict sqlval);
  tbl_sequence : Z              (* the greatest rowid ever given *)
}.

Record index : Type := {
  idx_name : string;
  idx_table : string;
  idx_column : string
}.

Record database : Type := {
  db_tables : list table;
  db_indexes : list index
}.

(** The database of a path at which no file exists yet. *)
Definition empty_database : database :=
  {| db_tables := []; db_indexes := [] |}.

Definition lower_char (c : ascii) : ascii :=
  let n := code c in
  if (65 <=? n) && (n <=? 90) then char_of (n + 32) else c.

Fixpoint lower (s : string) : string :=
  match s with
  | EmptyString => EmptyString
  | String c s' => String (lower_char c) (lower s')
  end.

Definition same_name (a b : string) : bool := String.eqb (lower a) (lower b).

Definition find_table (db : database) (name : string) : option table :=
  find (fun t => same_name (tbl_name t) name) (db_tables db).

Definition find_index (db : database) (name : string) : option index :=
  find (fun i => same_name (idx_name i) name) (db_indexes db).

Definition has_column (t : table) (name : string) : bool :=
  existsb (fun c => same_name (col_name c) name) (tbl_columns t).

(** *** Statements *)

(** [CREATE TABLE IF NOT EXISTS name (columns)] *)
Definition create_table_if_not_exists (name : string) (columns : list column)
    (db : database) : result database :=
  match find_table db name with
  | Some _ => Ok db
  | None =>
      match find_index db name with
      | Some _ =>
          Raise (OperationalError ("there is already an index named " ++ name))
      | None =>
          Ok {| db_tables :=
                  (db_tables db
                   ++ [ {| tbl_name := name; tbl_columns := columns;
                           tbl_rows := []; tbl_sequence := 0 |} ])%list;
                db_indexes := db_indexes db |}
      end
  end.

(** [CREATE INDEX IF NOT EXISTS name ON tbl(col)] *)
Definition create_index_if_not_exists (name tbl col : string) (db : database)
  : result database :=
  match find_table db tbl with
  | None => Raise (OperationalError ("no such table: main." ++ tbl))
  | Some t =>
      match find_table db name with
      | Some _ =>
          Raise (OperationalError ("there is already a table named " ++ name))
      | None =>
          match find_index db name with
          | Some _ => Ok db
          | None =>
              if has_column t col then
                Ok {| db_tables := db_tables db;
                      db_indexes :=
                        (db_indexes db
                         ++ [ {| idx_name := name; idx_table := tbl;
                                 idx_column := col |} ])%list |}
              else Raise (OperationalError ("no such column: " ++ col))
          end
      end
  end.

(** The parameters of a statement are bound first: an [int] must fit the
    64 bits of an SQLite integer. *)
Definition bindable (v : sqlval) : bool :=
  match v with
  | SqlInt n => (- 2 ^ 63 <=? n) && (n <? 2 ^ 63)
  | _ => true
  end.

Definition bind_parameters (values : list sqlval) : result unit :=
  if forallb bindable values then Ok tt
  else Raise (OverflowError "Python int too large to convert to SQLite INTEGER").

Fixpoint given_value (given : list (string * sqlval)) (name : string)
  : option sqlval :=
  match given with
  | [] => None
  | (k, v) :: given' =>
      if same_name k name then Some v else given_value given' name
  end.

Definition sqlval_eqb (a b : sqlval) : bool :=
  match a, b with
  | SqlInt n, SqlInt n' => n =? n'
  | SqlText s, SqlText s' => String.eqb s s'
  | _, _ => false
  end.

Definition is_null (v : sqlval) : bool :=
  match v with SqlNull => true | _ => false end.

(** The value of a row at a column. *)
Definition cell_of (row : dict sqlval) (name : string) : sqlval :=
  match given_value row name with
  | Some v => v
  | None => SqlNull
  end.

(** The row that an [INSERT] makes: the value given for a column, else the
    next rowid or the current timestamp where the column has such a
    default, else [NULL]. *)
Definition new_row (t : table) (given : list (string * sqlval))
    (timestamp : string) : dict sqlval :=
  map (fun c =>
         (col_name c,
          match given_value given (col_name c) with
          | Some v => v
          | None =>
              if col_autoincrement c then SqlInt (tbl_sequence t + 1)
              else if col_current_timestamp c then SqlText timestamp
              else SqlNull
          end))
      (tbl_columns t).

Definition violates_not_null (t : table) (row : dict sqlval) : bool :=
  existsb (fun c => col_not_null c && is_null (cell_of row (col_name c)))
    (tbl_columns t).

Definition violates_unique (t : table) (row : dict sqlval) : bool :=
  existsb
    (fun c =>
       col_unique c
       && existsb (fun old => sqlval_eqb (cell_of old (col_name c))
                                (cell_of row (col_name c)))
            (tbl_rows t))
    (tbl_columns t).

Fixpoint replace_table (ts : list table) (t' : table) : list table :=
  match ts with
  | [] => []
  | t :: ts' =>
      if same_name (tbl_name t) (tbl_name t') then t' :: ts'
      else t :: replace_table ts' t'
  end.

(** [INSERT INTO tbl (columns) VALUES (values)], the statement after the
    binding of its parameters. *)
Definition insert_into (tbl : string) (columns : list string)
    (values : list sqlval) (timestamp : string) (db : database)
  : result database :=
  match find_table db tbl with
  | None => Raise (OperationalError ("no such table: " ++ tbl))
  | Some t =>
      if negb (forallb (has_column t) columns) then
        Raise (OperationalError ("table " ++ tbl ++ " has no such column"))
      else if 2 ^ 63 - 1 <=? tbl_sequence t then
        Raise (OperationalError "database or disk is full")
      else
        let row := new_row t (combine columns values) timestamp in
        if violates_not_null t row then
          Raise (IntegrityError ("NOT NULL constraint failed: " ++ tbl))
        else if violates_unique t row then
          Raise (IntegrityError ("UNIQUE constraint failed: " ++ tbl))
        else
          Ok {| db_tables :=
                  replace_table (db_tables db)
                    {| tbl_name := tbl_name t;
                       tbl_columns := tbl_columns t;
                       tbl_rows := (tbl_rows t ++ [row])%list;
                       tbl_sequence := tbl_sequence t + 1 |};
                db_indexes := db_indexes db |}
  end.

(** [SELECT * FROM tbl WHERE col = value], in the order of the rowids. *)
Definition select_where (tbl col : string) (value : sqlval) (db : database)
  : result (list (dict sqlval)) :=
  match find_table db tbl with
  | None => Raise (OperationalError ("no such table: " ++ tbl))
  | Some t =>
      if has_column t col then
        Ok (filter (fun row => sqlval_eqb (cell_of row col) value) (tbl_rows t))
      else Raise (OperationalError ("no such column: " ++ col))
  end.

(** *** Connections

    A connection of the [sqlite3] module sees the committed database, or
    the state of its open transaction.  A statement that changes rows opens
    a transaction when none is open; a statement of the schema runs in the
    open transaction, or else commits at once; [commit] makes the open
    transaction the committed database; [close], at the end of the [with]
    block of [get_db_connection] on every path, drops it.  A statement that
    raises changes nothing. *)

Record connection : Type := {
  committed : database;
  pending : option database
}.

Definition current (c : connection) : database :=
  match pending c with
  | Some p => p
  | None => committed c
  end.

Definition action (A : Type) : Type := connection -> result A * connection.

Definition ret {A : Type} (a : A) : action A := fun c => (Ok a, c).

Definition and_then {A B : Type} (m : action A) (k : A -> action B)
  : action B :=
  fun c =>
    match m c with
    | (Ok a, c') => k a c'
    | (Raise e, c') => (Raise e, c')
    end.

Notation "m >> k" := (and_then m (fun _ => k))
  (at level 62, right associativity).

Definition execute_schema (stmt : database -> result database) : action unit :=
  fun c =>
    match stmt (current c) with
    | Raise e => (Raise e, c)
    | Ok d =>
        (Ok tt,
         match pending c with
         | Some _ => {| committed := committed c; pending := Some d |}
         | None => {| committed := d; pending := None |}
         end)
    end.

Definition execute_insert (tbl : string) (columns : list string)
    (values : list sqlval) (timestamp : string) : action unit :=
  fun c =>
    match bind_parameters values with
    | Raise e => (Raise e, c)
    | Ok _ =>
        match insert_into tbl columns values timestamp (current c) with
        | Raise e => (Raise e, c)
        | Ok d => (Ok tt, {| committed := committed c; pending := Some d |})
        end
    end.

Definition execute_query {A : Type} (q : database -> result A) : action A :=
  fun c => (q (current c), c).

Definition commit : action unit :=
  fun c =>
    (Ok tt,
     match pending c with
     | Some p => {| committed := p; pending := None |}
     | None => c
     end).

Fixpoint for_each {A : Type} (l : list A) (body : A -> action unit)
  : action unit :=
  match l with
  | [] => ret tt
  | x :: l' => body x >> for_each l' body
  end.

(** [with get_db_connection(db_path) as conn: body]: the result of the body
    and the database that is left when the connection is closed. *)
Definition with_db_connection {A : Type} (body : action A) (db : database)
  : result A * database :=
  let '(r, c) := body {| committed := db; pending := None |} in
  (r, committed c).

(** ** [database.py] *)

Definition col (name type : string) : column :=
  {| col_name := name; col_type := type; col_not_null := false;
     col_unique := false; col_autoincrement := false;
     col_current_timestamp := false |}.

Definition col_id : column :=
  {| col_name := "id"; col_type := "INTEGER"; col_not_null := false;
     col_unique := true; col_autoincrement := true;
     col_current_timestamp := false |}.

Definition col_not_null_of (name type : string) : column :=
  {| col_name := name; col_type := type; col_not_null := true;
     col_unique := false; col_autoincrement := false;
     col_current_timestamp := false |}.

Definition col_timestamp (name : string) : column :=
  {| col_name := name; col_type := "TIMESTAMP"; col_not_null := false;
     col_unique := false; col_autoincrement := false;
     col_current_timestamp := true |}.

Definition galamsay_sites_columns : list column :=
  [ col_id;
    col_not_null_of "city" "TEXT";
    col_not_null_of "region" "TEXT";
    col_not_null_of "num_sites" "INTEGER";
    col_timestamp "created_at";
    col_not_null_of "batch_id" "TEXT" ].

Definition analysis_log_columns : list column :=
  [ col_id;
    {| col_name := "batch_id"; col_type := "TEXT"; col_not_null := true;
       col_unique := true; col_autoincrement := false;
       col_current_timestamp := false |};
    col_timestamp "analysis_timestamp";
    col "total_sites" "INTEGER";
    col "total_valid_records" "INTEGER";
    col "total_invalid_records" "INTEGER";
    col "highest_region" "TEXT";
    col "highest_region_sites" "INTEGER";
    col "threshold_used" "INTEGER";
    col "cities_above_threshold_count" "INTEGER";
    col "average_per_region_json" "TEXT";
    col "region_summary_json" "TEXT";
    col "cities_above_threshold_json" "TEXT" ].

Definition invalid_records_columns : list column :=
  [ col_id;
    col_not_null_of "batch_id" "TEXT";
    col "row_number" "INTEGER";
    col "city" "TEXT";
    col "region" "TEXT";
    col "num_sites_raw" "TEXT";
    col "reason" "TEXT";
    col_timestamp "created_at" ].

Definition init_script : action unit :=
  execute_schema
    (create_table_if_not_exists "galamsay_sites" galamsay_sites_columns) >>
  execute_schema
    (create_table_if_not_exists "analysis_log" analysis_log_columns) >>
  execute_schema
    (create_table_if_not_exists "invalid_records" invalid_records_columns) >>
  execute_schema
    (create_index_if_not_exists "idx_galamsay_region" "galamsay_sites"
       "region") >>
  execute_schema
    (create_index_if_not_exists "idx_galamsay_batch" "galamsay_sites"
       "batch_id") >>
  execute_schema
    (create_index_if_not_exists "idx_analysis_batch" "analysis_log"
       "batch_id") >>
  commit.

Definition init_database (db : database) : result unit * database :=
  with_db_connection init_script db.

(** The reading of the clock by [datetime.now()]. *)
Record datetime : Type := {
  year : Z; month : Z; day : Z;
  hour : Z; minute : Z; second : Z; microsecond : Z
}.

(** A number in decimal, padded with zeros on the left to a width. *)
Definition padded (width : nat) (n : Z) : string :=
  let s := py_str n in zeros (width - String.length s) ++ s.

(** [datetime.now().strftime('%Y%m%d_%H%M%S_%f')] *)
Definition generate_batch_id (now : datetime) : string :=
  padded 4 (year now) ++ padded 2 (month now) ++ padded 2 (day now) ++ "_"
  ++ padded 2 (hour now) ++ padded 2 (minute now) ++ padded 2 (second now)
  ++ "_" ++ padded 6 (microsecond now).

(** The views of the typed records as the Python values they are. *)
Definition record_value (v : ValidRecord) : pyval :=
  PDict [ ("city", PStr (city v)); ("region", PStr (region v));
          ("num_sites", PInt (num_sites v)) ].

Definition summary_value (s : RegionSummary) : pyval :=
  PDict [ ("region", PStr (rs_region s));
          ("total_sites", PInt (rs_total_sites s));
          ("city_count", PInt (rs_city_count s));
          ("average_sites", PFloat (rs_average_sites s));
          ("max_sites", PInt (rs_max_sites s));
          ("min_sites", PInt (rs_min_sites s)) ].

Definition averages_value (d : dict float) : pyval :=
  PDict (map (fun kv => (fst kv, PFloat (snd kv))) d).

Definition cities_value (l : list ValidRecord) : pyval :=
  PList (map record_value l).

Definition summaries_value (l : list RegionSummary) : pyval :=
  PList (map summary_value l).

Definition sql_of_cell (c : cell) : sqlval :=
  match c with
  | Some s => SqlText s
  | None => SqlNull
  end.

(** [invalid['data'].get(key, '')] *)
Definition data_get (r : RawRow) (key : string) : sqlval :=
  match dict_get r key with
  | Some c => sql_of_cell c
  | None => SqlText ""
  end.

Definition save_script (analysis_results : AnalysisResults)
    (batch_id timestamp : string) : action unit :=
  for_each (valid_data analysis_results)
    (fun record =>
       execute_insert "galamsay_sites"
         [ "city"; "region"; "num_sites"; "batch_id" ]
         [ SqlText (city record); SqlText (region record);
           SqlInt (num_sites record); SqlText batch_id ]
         timestamp) >>
  execute_insert "analysis_log"
    [ "batch_id"; "total_sites"; "total_valid_records";
      "total_invalid_records"; "highest_region"; "highest_region_sites";
      "threshold_used"; "cities_above_threshold_count";
      "average_per_region_json"; "region_summary_json";
      "cities_above_threshold_json" ]
    [ SqlText batch_id;
      SqlInt (total_sites analysis_results);
      SqlInt (total_valid_records analysis_results);
      SqlInt (total_invalid_records analysis_results);
      SqlText (hr_region (region_with_highest_sites analysis_results));
      SqlInt (hr_total_sites (region_with_highest_sites analysis_results));
      SqlInt (threshold (cities_above_threshold analysis_results));
      SqlInt (count (cities_above_threshold analysis_results));
      SqlText (json_dumps
                 (averages_value (average_sites_per_region analysis_results)));
      SqlText (json_dumps
                 (summaries_value (region_summary analysis_results)));
      SqlText (json_dumps
                 (cities_value
                    (cities (cities_above_threshold analysis_results)))) ]
    timestamp >>
  for_each (invalid_records analysis_results)
    (fun invalid =>
       execute_insert "invalid_records"
         [ "batch_id"; "row_number"; "city"; "region"; "num_sites_raw";
           "reason" ]
         [ SqlText batch_id;
           SqlInt (inv_row invalid);
           data_get (inv_data invalid) "City";
           data_get (inv_data invalid) "Region";
           data_get (inv_data invalid) "Number_of_Galamsay_Sites";
           SqlText (inv_reason invalid) ]
         timestamp) >>
  commit.

(** [save_analysis_to_database(analysis_results, db_path)], for the reading
    [now] of the clock and the [CURRENT_TIMESTAMP] of the database. *)
Definition save_analysis_to_database (analysis_results : AnalysisResults)
    (now : datetime) (timestamp : string) (db : database)
  : result string * database :=
  match init_database db with
  | (Raise e, db1) => (Raise e, db1)
  | (Ok _, db1) =>
      let batch_id := generate_batch_id now in
      match with_db_connection
              (save_script analysis_results batch_id timestamp) db1 with
      | (Raise e, db2) => (Raise e, db2)
      | (Ok _, db2) => (Ok batch_id, db2)
      end
  end.

Definition pyval_of_sql (v : sqlval) : pyval :=
  match v with
  | SqlNull => PNone
  | SqlInt n => PInt n
  | SqlText s => PStr s
  end.

(** [d.pop(key)] *)
Fixpoint dict_remove {V : Type} (d : dict V) (k : string) : dict V :=
  match d with
  | [] => []
  | (k', v) :: d' =>
      if String.eqb k' k then d' else (k', v) :: dict_remove d' k
  end.

Definition dict_pop {V : Type} (d : dict V) (k : string) : result (V * dict V) :=
  match dict_get d k with
  | Some v => Ok (v, dict_remove d k)
  | None => Raise (KeyError k)
  end.

(** [json.loads] on a value read from the database. *)
Definition loads_value (v : pyval) : result pyval :=
  match v with
  | PStr s => json_loads s
  | _ => Raise (TypeError "the JSON object must be str, bytes or bytearray")
  end.

(** [result[key] = json.loads(result.pop(key_json))] *)
Definition parse_json_field (result_ : dict pyval) (key key_json : string)
  : result (dict pyval) :=
  popped <- dict_pop result_ key_json ;;
  v <- loads_value (fst popped) ;;
  Ok (dict_set (snd popped) key v).

(** The dict made of a row of [analysis_log]. *)
Definition log_entry (row : dict sqlval) : result (dict pyval) :=
  let result_ := map (fun kv => (fst kv, pyval_of_sql (snd kv))) row in
  r1 <- parse_json_field result_ "average_per_region"
          "average_per_region_json" ;;
  r2 <- parse_json_field r1 "region_summary" "region_summary_json" ;;
  parse_json_field r2 "cities_above_threshold" "cities_above_threshold_json".

Definition get_analysis_by_batch_id (batch_id : string) (db : database)
  : result (option (dict pyval)) * database :=
  with_db_connection
    (and_then
       (execute_query
          (select_where "analysis_log" "batch_id" (SqlText batch_id)))
       (fun rows_ =>
          match rows_ with
          | row :: _ =>
              match log_entry row with
              | Ok entry => ret (Some entry)
              | Raise e => fun c => (Raise e, c)
              end
          | [] => ret None
          end))
    db.

(** [SELECT ... FROM tbl WHERE batch_id = ?], as [get_all_sites] and
    [get_invalid_records] read the rows of one batch (before their
    ordering). *)
Definition rows_of_batch (tbl batch_id : string) (db : database)
  : list (dict sqlval) :=
  match select_where tbl "batch_id" (SqlText batch_id) db with
  | Ok l => l
  | Raise _ => []
  end.


(** ** The queries of [database.py]

    *** The order of values and of rows

    [ORDER BY] compares values as SQLite does: [NULL] is the least value,
    integers come next in their order, text comes last and is compared
    character by character (the collation [BINARY]; the order of the code
    points is the order of their UTF-8 encodings). *)

Definition sqlval_compare (a b : sqlval) : comparison :=
  match a, b with
  | SqlNull, SqlNull => Eq
  | SqlNull, _ => Lt
  | _, SqlNull => Gt
  | SqlInt n, SqlInt m => n ?= m
  | SqlInt _, SqlText _ => Lt
  | SqlText _, SqlInt _ => Gt
  | SqlText s, SqlText t => String.compare s t
  end.

Inductive direction : Type := Asc | Desc.

(** A term of [ORDER BY]: a column and a direction. *)
Definition order_term : Type := (string * direction)%type.

Fixpoint order_compare (terms : list order_term) (r1 r2 : dict sqlval)
  : comparison :=
  match terms with
  | [] => Eq
  | (c, d) :: terms' =>
      match sqlval_compare (cell_of r1 c) (cell_of r2 c) with
      | Eq => order_compare terms' r1 r2
      | x => match d with Asc => x | Desc => CompOpp x end
      end
  end.

(** [r1] may come before [r2]. *)
Definition in_order (terms : list order_term) (r1 r2 : dict sqlval) : Prop :=
  order_compare terms r1 r2 <> Gt.

(** SQL leaves open in which order rows of equal sort keys are returned, and
    SQLite decides by the plan of the query.  The queries are therefore
    written over the sort of the engine, of which only this is known: its
    result has the rows of its argument, in an order that [ORDER BY]
    admits. *)
Definition sorter : Type :=
  list order_term -> list (dict sqlval) -> list (dict sqlval).

Definition sorts (sort : sorter) : Prop :=
  forall terms l,
    Permutation (sort terms l) l
    /\ StronglySorted (in_order terms) (sort terms l).

(** One such sort: a row goes before the first row that may not come before
    it, so rows of equal keys keep the order of their rowids. *)
Fixpoint insert_row (terms : list order_term) (r : dict sqlval)
    (l : list (dict sqlval)) : list (dict sqlval) :=
  match l with
  | [] => [r]
  | r' :: l' =>
      match order_compare terms r' r with
      | Gt => r :: r' :: l'
      | _ => r' :: insert_row terms r l'
      end
  end.

Definition rowid_sorter : sorter :=
  fun terms l => fold_left (fun acc r => insert_row terms r acc) l [].

(** *** [SELECT] *)

(** The name under which a column is returned: the name of its
    declaration. *)
Definition declared_name (t : table) (name : string) : string :=
  match find (fun c => same_name (col_name c) name) (tbl_columns t) with
  | Some c => col_name c
  | None => name
  end.

(** The row that [SELECT columns] returns for a row of the table;
    [SELECT *] returns the row. *)
Definition project (t : table) (columns : option (list string))
    (row : dict sqlval) : dict sqlval :=
  match columns with
  | None => row
  | Some names => map (fun n => (declared_name t n, cell_of row n)) names
  end.

(** [SELECT columns FROM tbl WHERE col = value ORDER BY terms], the
    [WHERE] and the [ORDER BY] being optional.  The names are resolved
    when the statement is prepared: those of the result first, then that
    of [WHERE], then those of [ORDER BY]. *)
Definition select (sort : sorter) (columns : option (list string))
    (tbl : string) (where_ : option (string * sqlval))
    (order_by : list order_term) (db : database)
  : result (list (dict sqlval)) :=
  match find_table db tbl with
  | None => Raise (OperationalError ("no such table: " ++ tbl))
  | Some t =>
      let names :=
        ((match columns with Some l => l | None => [] end)
         ++ (match where_ with Some (c, _) => [c] | None => [] end)
         ++ map fst order_by)%list in
      match find (fun n => negb (has_column t n)) names with
      | Some n => Raise (OperationalError ("no such column: " ++ n))
      | None =>
          let found :=
            match where_ with
            | Some (c, v) =>
                filter (fun row => sqlval_eqb (cell_of row c) v) (tbl_rows t)
            | None => tbl_rows t
            end in
          let ordered :=
            match order_by with
            | [] => found
            | _ => sort order_by found
            end in
          Ok (map (project t columns) ordered)
      end
  end.

(** [SELECT COUNT( * ) FROM tbl] *)
Definition count_rows (tbl : string) (db : database) : result Z :=
  match find_table db tbl with
  | None => Raise (OperationalError ("no such table: " ++ tbl))
  | Some t => Ok (len (tbl_rows t))
  end.

(** The values of a list, each once: [DISTINCT]. *)
Definition add_value (seen : list sqlval) (v : sqlval) : list sqlval :=
  if existsb (sqlval_eqb v) seen then seen else (seen ++ [v])%list.

Definition distinct_values (l : list sqlval) : list sqlval :=
  fold_left add_value l [].

(** [SELECT COUNT(DISTINCT col) FROM tbl]: the values that are not [NULL]
    are counted. *)
Definition count_distinct (tbl col : string) (db : database) : result Z :=
  match find_table db tbl with
  | None => Raise (OperationalError ("no such table: " ++ tbl))
  | Some t =>
      if has_column t col then
        Ok (len (distinct_values
                   (filter (fun v => negb (is_null v))
                      (map (fun row => cell_of row col) (tbl_rows t)))))
      else Raise (OperationalError ("no such column: " ++ col))
  end.

(** *** The functions that read *)

(** [dict(row)] *)
Definition dict_of_row (row : dict sqlval) : dict pyval :=
  map (fun kv => (fst kv, pyval_of_sql (snd kv))) row.

(** An action that raises or returns, without a statement. *)
Definition lift {A : Type} (r : result A) : action A := fun c => (r, c).

(** The loop of [get_all_analysis_logs] over the rows fetched. *)
Fixpoint parse_rows (rows_ : list (dict sqlval)) (results : list (dict pyval))
  : result (list (dict pyval)) :=
  match rows_ with
  | [] => Ok results
  | row :: rows' =>
      entry <- log_entry row ;;
      parse_rows rows' (results ++ [entry])%list
  end.

Definition get_all_analysis_logs (sort : sorter) (db : database)
  : result (list (dict pyval)) * database :=
  with_db_connection
    (and_then
       (execute_query
          (select sort None "analysis_log" None
             [ ("analysis_timestamp", Desc) ]))
       (fun rows_ => lift (parse_rows rows_ [])))
    db.

(** [logs[0] if logs else None] *)
Definition get_latest_analysis (sort : sorter) (db : database)
  : result (option (dict pyval)) * database :=
  match get_all_analysis_logs sort db with
  | (Ok logs, db') => (Ok (hd_error logs), db')
  | (Raise e, db') => (Raise e, db')
  end.

Definition site_query_columns : list string :=
  [ "city"; "region"; "num_sites"; "created_at"; "batch_id" ].

Definition get_sites_by_region (sort : sorter) (region : string)
    (db : database) : result (list (dict pyval)) * database :=
  with_db_connection
    (and_then
       (execute_query
          (select sort (Some site_query_columns) "galamsay_sites"
             (Some ("region", SqlText region)) [ ("num_sites", Desc) ]))
       (fun rows_ => ret (map dict_of_row rows_)))
    db.

(** [if batch_id:] holds for a string that is not empty. *)
Definition given_batch (batch_id : option string) : option string :=
  match batch_id with
  | Some "" => None
  | other => other
  end.

Definition get_all_sites (sort : sorter) (batch_id : option string)
    (db : database) : result (list (dict pyval)) * database :=
  with_db_connection
    (and_then
       (execute_query
          (select sort (Some site_query_columns) "galamsay_sites"
             (match given_batch batch_id with
              | Some b => Some ("batch_id", SqlText b)
              | None => None
              end)
             [ ("region", Asc); ("city", Asc) ]))
       (fun rows_ => ret (map dict_of_row rows_)))
    db.

Definition get_invalid_records (sort : sorter) (batch_id : option string)
    (db : database) : result (list (dict pyval)) * database :=
  with_db_connection
    (and_then
       (execute_query
          (match given_batch batch_id with
           | Some b =>
               select sort None "invalid_records"
                 (Some ("batch_id", SqlText b)) [ ("row_number", Asc) ]
           | None =>
               select sort None "invalid_records" None
                 [ ("batch_id", Asc); ("row_number", Asc) ]
           end))
       (fun rows_ => ret (map dict_of_row rows_)))
    db.

(** The dict that [get_database_stats] returns, a field per key. *)
Record DatabaseStats : Type := {
  total_site_records : Z;
  total_analysis_logs : Z;
  stats_invalid_records : Z;    (* 'total_invalid_records' *)
  unique_regions : Z;
  unique_cities : Z
}.

Definition get_database_stats (db : database)
  : result DatabaseStats * database :=
  with_db_connection
    (and_then (execute_query (count_rows "galamsay_sites"))
       (fun total_sites =>
    and_then (execute_query (count_rows "analysis_log"))
       (fun total_analyses =>
    and_then (execute_query (count_rows "invalid_records"))
       (fun total_invalid =>
    and_then (execute_query (count_distinct "galamsay_sites" "region"))
       (fun regions =>
    and_then (execute_query (count_distinct "galamsay_sites" "city"))
       (fun cities_ =>
    ret {| total_site_records := total_sites;
           total_analysis_logs := total_analyses;
           stats_invalid_records := total_invalid;
           unique_regions := regions;
           unique_cities := cities_ |}))))))
    db.

(** ** The API of [app.py]

    A handler is a function of the request and of the store, and returns
    a response and the store it leaves.  A response is the value given to
    [jsonify] and the status code.  The file of the data, the clock and the
    sort of the database engine are what the handlers find around them. *)

Record response : Type := {
  body : pyval;
  status : Z
}.

(** [return jsonify(v)] and [return jsonify(v), code] *)
Definition jsonify (v : pyval) : response := {| body := v; status := 200 |}.

Definition jsonify_with (v : pyval) (code : Z) : response :=
  {| body := v; status := code |}.

Definition error_body (error message : string) : pyval :=
  PDict [ ("error", PStr error); ("message", PStr message) ].

(** [str(e)]: the message; for a [KeyError], its key between quotes (the
    keys raised are literals of the code). *)
Definition exn_str (e : exn) : string :=
  match e with
  | KeyError k => "'" ++ k ++ "'"
  | FileNotFoundError m | ValueError m | AttributeError m | OverflowError m
  | ZeroDivisionError m | TypeError m | IntegrityError m
  | OperationalError m => m
  end.

(** A computation on the store that returns or raises. *)
Definition step (A : Type) : Type := database -> result A * database.

Definition step_ret {A : Type} (a : A) : step A := fun db => (Ok a, db).

Definition step_bind {A B : Type} (m : step A) (k : A -> step B) : step B :=
  fun db =>
    match m db with
    | (Ok a, db') => k a db'
    | (Raise e, db') => (Raise e, db')
    end.

Notation "x <-- m ;; k" := (step_bind m (fun x => k))
  (at level 61, m at next level, right associativity).

(** A computation that does not touch the store. *)
Definition pure_step {A : Type} (r : result A) : step A := fun db => (r, db).

(** The decorator [handle_errors]: the first clause that matches the class
    of the exception answers. *)
Definition handle_errors (f : step response) (db : database)
  : response * database :=
  match f db with
  | (Ok r, db') => (r, db')
  | (Raise (FileNotFoundError m), db') =>
      (jsonify_with (error_body "File not found" m) 404, db')
  | (Raise (ValueError m), db') =>
      (jsonify_with (error_body "Invalid data" m) 400, db')
  | (Raise e, db') =>
      (jsonify_with (error_body "Internal server error" (exn_str e)) 500, db')
  end.

(** [request.args]: the parameters of the query, each with its first
    value. *)
Definition request_args : Type := dict string.

(** [request.args.get(key, default, type=int)]: the default also where the
    value is not the text of an [int]. *)
Definition args_get_int (args : request_args) (key : string) (default : Z)
  : Z :=
  match dict_get args key with
  | Some s =>
      match py_int s with
      | Some n => n
      | None => default
      end
  | None => default
  end.

(** [l[:n]] *)
Definition slice_to {A : Type} (l : list A) (n : Z) : list A :=
  if 0 <=? n then firstn (Z.to_nat n) l
  else firstn (Z.to_nat (len l + n)) l.

(** [d[key]] *)
Definition dict_item (d : dict pyval) (key : string) : result pyval :=
  match dict_get d key with
  | Some v => Ok v
  | None => Raise (KeyError key)
  end.

(** [if not latest:] holds for [None] and for a dict without keys. *)
Definition found_entry (o : option (dict pyval)) : option (dict pyval) :=
  match o with
  | Some [] => None
  | other => other
  end.

Definition highest_value (h : HighestRegion) : pyval :=
  PDict [ ("region", PStr (hr_region h));
          ("total_sites", PInt (hr_total_sites h)) ].

Definition stats_value (s : DatabaseStats) : pyval :=
  PDict [ ("total_site_records", PInt (total_site_records s));
          ("total_analysis_logs", PInt (total_analysis_logs s));
          ("total_invalid_records", PInt (stats_invalid_records s));
          ("unique_regions", PInt (unique_regions s));
          ("unique_cities", PInt (unique_cities s)) ].

Definition invalid_threshold : response :=
  jsonify_with
    (error_body "Invalid threshold" "Threshold must be a non-negative integer")
    400.

Section Handlers.
Variable sort : sorter.
Variable fs : filesystem.
Variable data_file : string.   (* DATA_FILE *)

(** [POST /api/analyze] *)
Definition run_analysis (args : request_args) (now : datetime)
    (timestamp : string) : database -> response * database :=
  handle_errors
    (let threshold_arg := args_get_int args "threshold" 10 in
     if threshold_arg <? 0 then step_ret invalid_threshold
     else
       _ <-- init_database ;;
       results <-- pure_step (run_full_analysis fs data_file threshold_arg) ;;
       batch_id <-- save_analysis_to_database results now timestamp ;;
       step_ret
         (jsonify_with
            (PDict
               [ ("batch_id", PStr batch_id);
                 ("message", PStr "Analysis completed and saved to database");
                 ("summary",
                  PDict
                    [ ("total_sites", PInt (total_sites results));
                      ("total_valid_records",
                       PInt (total_valid_records results));
                      ("total_invalid_records",
                       PInt (total_invalid_records results));
                      ("region_with_highest_sites",
                       highest_value (region_with_highest_sites results));
                      ("cities_above_threshold",
                       PDict
                         [ ("threshold",
                            PInt (threshold
                                    (cities_above_threshold results)));
                           ("count",
                            PInt (count (cities_above_threshold results))) ]);
                      ("regions_analyzed",
                       PInt (len (average_sites_per_region results))) ]) ])
            201)).

(** [GET /api/analysis/latest] *)
Definition get_latest : database -> response * database :=
  handle_errors
    (_ <-- init_database ;;
     latest <-- get_latest_analysis sort ;;
     match found_entry latest with
     | None =>
         step_ret
           (jsonify_with
              (error_body "No analysis found"
                 "No analysis has been run yet. Use POST /api/analyze first.")
              404)
     | Some entry => step_ret (jsonify (PDict entry))
     end).

(** [GET /api/analysis/logs] *)
Definition get_logs (args : request_args) : database -> response * database :=
  handle_errors
    (_ <-- init_database ;;
     let limit := args_get_int args "limit" 10 in
     logs <-- get_all_analysis_logs sort ;;
     step_ret
       (jsonify
          (PDict [ ("count", PInt (len (slice_to logs limit)));
                   ("total", PInt (len logs));
                   ("logs", PList (map PDict (slice_to logs limit))) ]))).

(** [GET /api/analysis/<batch_id>] *)
Definition get_analysis (batch_id : string)
  : database -> response * database :=
  handle_errors
    (_ <-- init_database ;;
     analysis <-- get_analysis_by_batch_id batch_id ;;
     match found_entry analysis with
     | None =>
         step_ret
           (jsonify_with
              (error_body "Analysis not found"
                 ("No analysis found with batch_id: " ++ batch_id))
              404)
     | Some entry => step_ret (jsonify (PDict entry))
     end).

(** [GET /api/sites] *)
Definition get_sites (args : request_args) : database -> response * database :=
  handle_errors
    (_ <-- init_database ;;
     let batch_id := dict_get args "batch_id" in
     let limit := args_get_int args "limit" 100 in
     sites <-- get_all_sites sort batch_id ;;
     step_ret
       (jsonify
          (PDict [ ("count", PInt (len (slice_to sites limit)));
                   ("total", PInt (len sites));
                   ("sites", PList (map PDict (slice_to sites limit))) ]))).

(** [GET /api/sites/region/<region>] *)
Definition get_region_sites (region : string)
  : database -> response * database :=
  handle_errors
    (_ <-- init_database ;;
     sites <-- get_sites_by_region sort region ;;
     match sites with
     | [] =>
         step_ret
           (jsonify_with
              (error_body "No sites found"
                 ("No sites found for region: " ++ region))
              404)
     | _ =>
         step_ret
           (jsonify
              (PDict [ ("region", PStr region);
                       ("count", PInt (len sites));
                       ("sites", PList (map PDict sites)) ]))
     end).

(** [GET /api/stats] *)
Definition get_stats : database -> response * database :=
  handle_errors
    (_ <-- init_database ;;
     stats <-- get_database_stats ;;
     step_ret (jsonify (stats_value stats))).

(** [GET /api/stats/total] *)
Definition get_total : database -> response * database :=
  handle_errors
    (_ <-- init_database ;;
     latest <-- get_latest_analysis sort ;;
     match found_entry latest with
     | None =>
         loaded <-- pure_step (load_data fs data_file) ;;
         let total := get_total_sites (fst loaded) in
         step_ret
           (jsonify (PDict [ ("total_sites", PInt total);
                             ("source", PStr "live_calculation") ]))
     | Some entry =>
         total <-- pure_step (dict_item entry "total_sites") ;;
         batch_id <-- pure_step (dict_item entry "batch_id") ;;
         step_ret
           (jsonify (PDict [ ("total_sites", total);
                             ("source", PStr "database");
                             ("batch_id", batch_id) ]))
     end).

(** [GET /api/stats/highest-region] *)
Definition get_highest_region : database -> response * database :=
  handle_errors
    (_ <-- init_database ;;
     latest <-- get_latest_analysis sort ;;
     match found_entry latest with
     | None =>
         loaded <-- pure_step (load_data fs data_file) ;;
         highest <-- pure_step (get_region_with_highest_sites (fst loaded)) ;;
         step_ret
           (jsonify (PDict [ ("region", PStr (fst highest));
                             ("total_sites", PInt (snd highest));
                             ("source", PStr "live_calculation") ]))
     | Some entry =>
         region <-- pure_step (dict_item entry "highest_region") ;;
         total <-- pure_step (dict_item entry "highest_region_sites") ;;
         batch_id <-- pure_step (dict_item entry "batch_id") ;;
         step_ret
           (jsonify (PDict [ ("region", region);
                             ("total_sites", total);
                             ("source", PStr "database");
                             ("batch_id", batch_id) ]))
     end).

(** [GET /api/stats/cities-above-threshold]: always computed from the
    file. *)
Definition get_cities_threshold (args : request_args)
  : database -> response * database :=
  handle_errors
    (let threshold := args_get_int args "threshold" 10 in
     if threshold <? 0 then step_ret invalid_threshold
     else
       loaded <-- pure_step (load_data fs data_file) ;;
       cities_ <-- pure_step
                     (get_cities_above_threshold (fst loaded) threshold) ;;
       step_ret
         (jsonify (PDict [ ("threshold", PInt threshold);
                           ("count", PInt (len cities_));
                           ("cities", cities_value cities_) ]))).

(** [GET /api/stats/average-per-region] *)
Definition get_averages : database -> response * database :=
  handle_errors
    (_ <-- init_database ;;
     latest <-- get_latest_analysis sort ;;
     match found_entry latest with
     | None =>
         loaded <-- pure_step (load_data fs data_file) ;;
         averages <-- pure_step (get_average_sites_per_region (fst loaded)) ;;
         step_ret
           (jsonify (PDict [ ("averages", averages_value averages);
                             ("source", PStr "live_calculation") ]))
     | Some entry =>
         averages <-- pure_step (dict_item entry "average_per_region") ;;
         batch_id <-- pure_step (dict_item entry "batch_id") ;;
         step_ret
           (jsonify (PDict [ ("averages", averages);
                             ("source", PStr "database");
                             ("batch_id", batch_id) ]))
     end).

(** [GET /api/invalid-records] *)
Definition get_invalid (args : request_args)
  : database -> response * database :=
  handle_errors
    (_ <-- init_database ;;
     let batch_id := dict_get args "batch_id" in
     records <-- get_invalid_records sort batch_id ;;
     step_ret
       (jsonify (PDict [ ("count", PInt (len records));
                         ("records", PList (map PDict records)) ]))).
End Handlers.
(** * Properties *)

(** ** The string helpers on examples *)

Example strip_ex : strip "  Upper East 	" = "Upper East".
Proof. reflexivity. Qed.

Example py_int_ex :
  map py_int [ "25"; " 30 "; "-5"; "+7"; "1_000"; "007"; "abc"; ""; "3.5";
               "1e3"; "- 5"; "5_"; "1__0"; "-" ]
  = [ Some 25; Some 30; Some (-5); Some 7; Some 1000; Some 7; None; None;
      None; None; None; None; None; None ].
Proof. reflexivity. Qed.

Example py_str_ex : map py_str [ 0; -5; 1000 ] = [ "0"; "-5"; "1000" ].
Proof. reflexivity. Qed.

(** ** The float model on examples, against the division of the library *)

Definition SF64div (a b : Z) : float :=
  SFdiv 53 1024 (binary_normalize 53 1024 a 0 false)
    (binary_normalize 53 1024 b 0 false).

Example py_truediv_ex :
  forallb
    (fun '(a, b) =>
       match py_truediv a b with
       | Ok x => SFeqb x (SF64div a b) 
       | Raise _ => false
       end)
    [ (33, 3); (3, 200); (1, 200); (1, 3); (2, 3); (500, 1); (12345, 678);
      (1, 8); (7, 1000000); (0, 5); (-7, 3); (7, -3) ] = true.
Proof. vm_compute. reflexivity. Qed.

(** ** The validator: [load_data] *)

(** The text of a cell as [get_stripped] reads it. *)
Definition cell_text (r : RawRow) (key : string) : string :=
  match dict_get r key with
  | Some (Some s) => strip s
  | _ => strip ""
  end.


Definition outcome_of (row_num : Z) (r : RawRow) : row_outcome :=
  check_row row_num r (cell_text r "City") (cell_text r "Region")
    (cell_text r "Number_of_Galamsay_Sites").

(** The valid records and the invalid records of a sequence of rows, numbered
    from [row_num]. *)
Fixpoint accepted_of (row_num : Z) (rs : list RawRow) : list ValidRecord :=
  match rs with
  | [] => []
  | r :: rs' =>
      match outcome_of row_num r with
      | Accepted v => v :: accepted_of (row_num + 1) rs'
      | Rejected _ => accepted_of (row_num + 1) rs'
      end
  end.

Fixpoint rejected_of (row_num : Z) (rs : list RawRow) : list InvalidRecord :=
  match rs with
  | [] => []
  | r :: rs' =>
      match outcome_of row_num r with
      | Accepted _ => rejected_of (row_num + 1) rs'
      | Rejected i => i :: rejected_of (row_num + 1) rs'
      end
  end.











(** The data-model invariant of a valid record. *)
Definition record_ok (v : ValidRecord) : Prop :=
  In (region v) valid_regions /\ 0 <= num_sites v <= 500.

Lemma mem_In : forall k l, mem k l = true <-> In k l.
Proof.
  intros k l. unfold mem. rewrite existsb_exists. split.
  - intros (x & Hin & Heq). apply String.eqb_eq in Heq. now subst.
  - intros Hin. exists k. split; [exact Hin | apply String.eqb_refl].
Qed.

Lemma check_row_accepted_ok :
  forall row_num r c g s v,
    check_row row_num r c g s = Accepted v -> record_ok v.
Proof.
  intros row_num r c g s v H. unfold check_row in H.
  destruct (String.eqb c ""); [discriminate|].
  destruct (String.eqb g ""); [discriminate|].
  destruct (mem g valid_regions) eqn:Hg; simpl in H; [|discriminate].
  destruct (py_int s) as [n|]; [|discriminate].
  destruct (n <? 0) eqn:Hneg; [discriminate|].
  destruct (n >? 500) eqn:Hbig; [discriminate|].
  inversion H; subst. split.
  - apply mem_In. exact Hg.
  - cbn [num_sites]. apply Z.ltb_ge in Hneg. rewrite Z.gtb_ltb in Hbig.
    apply Z.ltb_ge in Hbig. lia.
Qed.

Lemma load_rows_ok :
  forall rs row_num valid invalid valid' invalid',
    Forall record_ok valid ->
    load_rows row_num rs valid invalid = Ok (valid', invalid') ->
    Forall record_ok valid'.
Proof.
  induction rs as [|r rs IH]; intros row_num valid invalid valid' invalid' Hv H;
    simpl in H.
  - inversion H; subst. exact Hv.
  - unfold validate_row in H.
    destruct (get_stripped r "City") as [c|]; simpl in H; [|discriminate].
    destruct (get_stripped r "Region") as [g|]; simpl in H; [|discriminate].
    destruct (get_stripped r "Number_of_Galamsay_Sites") as [s|];
      simpl in H; [|discriminate].
    destruct (check_row row_num r c g s) as [v|i] eqn:E.
    + eapply IH; [|exact H].
      apply Forall_app. split; [exact Hv|].
      constructor; [|constructor]. eapply check_row_accepted_ok; exact E.
    + eapply IH; [exact Hv | exact H].
Qed.

Lemma load_data_ok :
  forall fs filepath valid invalid,
    load_data fs filepath = Ok (valid, invalid) ->
    Forall record_ok valid /\ valid <> [].
Proof.
  intros fs filepath valid invalid H. unfold load_data in H.
  destruct (fs filepath) as [file|]; [|discriminate].
  destruct (negb (headers_ok file)); [discriminate|].
  destruct (load_rows 2 (rows file) [] []) as [[v i]|] eqn:E; simpl in H;
    [|discriminate].
  destruct v as [|v0 v]; [discriminate|]. inversion H; subst. split.
  - eapply load_rows_ok; [|exact E]. constructor.
  - discriminate.
Qed.

(** A file with the three required columns and two rows, the first without
    a city and the second in a region outside the whitelist. *)
Definition header3 : list string :=
  [ "City"; "Region"; "Number_of_Galamsay_Sites" ].

Definition mk_row (c g s : string) : RawRow :=
  [ ("City", Some c); ("Region", Some g);
    ("Number_of_Galamsay_Sites", Some s) ].


Definition mixed_file : csv_file :=
  {| fieldnames := Some header3;
     rows := [ mk_row "Kumasi" "Ashanti" "25";
               mk_row "Obuasi" " Ashanti " "15";
               mk_row "Accra" "Greater Accra" "30";
               mk_row "Tamale" "Northern" "7";
               mk_row "BadCity" "" "10";
               mk_row "Tarkwa" "Western" "-5";
               mk_row "Bibiani" "Western North" "1000";
               mk_row "Prestea" "Western" "abc" ] |}.

Definition one_file (f : csv_file) : filesystem := fun _ => Some f.






(** A line shorter than the header gives a row with a [None] cell, and the
    loop body raises on it: the amended C1 and C2 are about the other
    rows. *)
Example short_row_raises :
  load_data
    (one_file {| fieldnames := Some header3;
                 rows := [ mk_row "Kumasi" "Ashanti" "25";
                           [ ("City", Some "Obuasi"); ("Region", None);
                             ("Number_of_Galamsay_Sites", None) ] ] |})
    "galamsay_data.csv"
  = Raise (AttributeError "'NoneType' object has no attribute 'strip'").
Proof. reflexivity. Qed.

(** ** The aggregations *)

(** The sum of a list, and the total and the number of records of a
    region. *)
Definition sum_list (l : list Z) : Z := fold_right Z.add 0 l.

Definition in_region (r : string) (v : ValidRecord) : bool :=
  String.eqb (region v) r.

Definition region_sites (r : string) (data : list ValidRecord) : list Z :=
  map num_sites (filter (in_region r) data).

Definition region_total (r : string) (data : list ValidRecord) : Z :=
  sum_list (region_sites r data).

Definition region_count (r : string) (data : list ValidRecord) : Z :=
  len (region_sites r data).

Lemma fold_left_add : forall l a, fold_left Z.add l a = a + sum_list l.
Proof.
  induction l as [|x l IH]; intros a; simpl; [lia|]. rewrite IH. lia.
Qed.

Lemma py_sum_spec : forall l, py_sum l = sum_list l.
Proof. intros l. unfold py_sum. now rewrite fold_left_add. Qed.

Lemma sum_list_app : forall l1 l2, sum_list (l1 ++ l2) = sum_list l1 + sum_list l2.
Proof. induction l1 as [|x l1 IH]; intros l2; simpl; [|rewrite IH]; lia. Qed.

Lemma get_total_sites_spec :
  forall data, get_total_sites data = sum_list (map num_sites data).
Proof. intros [|v data]; [reflexivity|]. unfold get_total_sites. apply py_sum_spec. Qed.

(** *** Dictionaries in insertion order *)

(** The keys after an assignment to key [k]. *)
Definition add_key (l : list string) (k : string) : list string :=
  if mem k l then l else (l ++ [k])%list.

Lemma mem_keys_get :
  forall (V : Type) (d : dict V) k,
    mem k (keys d) = match dict_get d k with Some _ => true | None => false end.
Proof.
  intros V d k. induction d as [|[k' v] d IH]; simpl; [reflexivity|].
  rewrite (String.eqb_sym k k'). destruct (String.eqb k' k); simpl; auto.
Qed.

Lemma keys_dict_set :
  forall (V : Type) (d : dict V) k v, keys (dict_set d k v) = add_key (keys d) k.
Proof.
  intros V d k v. unfold add_key. induction d as [|[k' v'] d IH]; simpl.
  - reflexivity.
  - rewrite (String.eqb_sym k k'). destruct (String.eqb k' k) eqn:E; simpl.
    + apply String.eqb_eq in E. now subst.
    + fold (keys (dict_set d k v)). rewrite IH. fold (keys d).
      now destruct (mem k (keys d)).
Qed.

Lemma dict_get_set :
  forall (V : Type) (d : dict V) k v k',
    dict_get (dict_set d k v) k'
    = if String.eqb k k' then Some v else dict_get d k'.
Proof.
  intros V d k v k'. induction d as [|[k0 v0] d IH]; simpl.
  - reflexivity.
  - destruct (String.eqb k0 k) eqn:E; simpl.
    + apply String.eqb_eq in E. subst. now destruct (String.eqb k k').
    + rewrite IH. destruct (String.eqb k0 k') eqn:E'; [|reflexivity].
      apply String.eqb_eq in E'. subst. now rewrite String.eqb_sym, E.
Qed.

Lemma fold_add_key_app :
  forall rs acc, exists tail, fold_left add_key rs acc = (acc ++ tail)%list.
Proof.
  induction rs as [|r rs IH]; intros acc; simpl.
  - exists []. now rewrite app_nil_r.
  - destruct (IH (add_key acc r)) as [tail Ht]. rewrite Ht. unfold add_key.
    destruct (mem r acc); [now exists tail|].
    exists (r :: tail). now rewrite <- app_assoc.
Qed.

Lemma In_add_key : forall l k x, In x (add_key l k) <-> In x l \/ x = k.
Proof.
  intros l k x. unfold add_key. destruct (mem k l) eqn:E.
  - apply mem_In in E. split; [now left|]. intros [H| ->]; assumption.
  - rewrite in_app_iff. simpl. intuition.
Qed.

Lemma In_fold_add_key :
  forall rs acc x, In x (fold_left add_key rs acc) <-> In x acc \/ In x rs.
Proof.
  induction rs as [|r rs IH]; intros acc x; simpl; [tauto|].
  rewrite IH, In_add_key. intuition.
Qed.

Lemma NoDup_add_key : forall l k, NoDup l -> NoDup (add_key l k).
Proof.
  intros l k H. unfold add_key. destruct (mem k l) eqn:E; [exact H|].
  assert (Hn : ~ In k l) by (rewrite <- mem_In, E; discriminate).
  clear E. induction H as [|y l Hy Hl IH]; simpl.
  - constructor; [easy | constructor].
  - constructor.
    + rewrite in_app_iff. simpl in *. intuition.
    + apply IH. simpl in Hn. tauto.
Qed.

Lemma NoDup_fold_add_key :
  forall rs acc, NoDup acc -> NoDup (fold_left add_key rs acc).
Proof.
  induction rs as [|r rs IH]; intros acc H; simpl; [exact H|].
  apply IH, NoDup_add_key, H.
Qed.

Lemma dict_get_In :
  forall (V : Type) (d : dict V) k v,
    NoDup (keys d) -> In (k, v) d -> dict_get d k = Some v.
Proof.
  intros V d k v. induction d as [|[k0 v0] d IH]; simpl; intros Hnd Hin;
    [easy|].
  inversion Hnd as [|? ? Hk0 Hd]; subst. destruct Hin as [Heq | Hin].
  - inversion Heq; subst. now rewrite String.eqb_refl.
  - destruct (String.eqb k0 k) eqn:E; [|now apply IH].
    apply String.eqb_eq in E. subst. exfalso. apply Hk0.
    change k with (fst (k, v)). now apply in_map.
Qed.

Lemma dict_get_Some_In :
  forall (V : Type) (d : dict V) k v, dict_get d k = Some v -> In (k, v) d.
Proof.
  intros V d k v. induction d as [|[k0 v0] d IH]; simpl; intros H; [easy|].
  destruct (String.eqb k0 k) eqn:E.
  - apply String.eqb_eq in E. inversion H; subst. now left.
  - right. now apply IH.
Qed.

(** The regions of the data, each once, in the order of first occurrence. *)
Definition regions_in_order (data : list ValidRecord) : list string :=
  fold_left add_key (map region data) [].

(** *** [get_region_with_highest_sites] *)

Lemma keys_totals :
  forall data d,
    keys (fold_left add_to_totals data d)
    = fold_left add_key (map region data) (keys d).
Proof.
  induction data as [|v data IH]; intros d; simpl; [reflexivity|].
  rewrite IH. unfold add_to_totals. now rewrite keys_dict_set.
Qed.

Lemma region_total_cons :
  forall r v data,
    region_total r (v :: data)
    = (if String.eqb (region v) r then num_sites v else 0)
      + region_total r data.
Proof.
  intros r v data. unfold region_total, region_sites, in_region. simpl.
  destruct (String.eqb (region v) r); simpl; lia.
Qed.

Lemma get_totals :
  forall data d r,
    dict_get_default (fold_left add_to_totals data d) r 0
    = dict_get_default d r 0 + region_total r data.
Proof.
  induction data as [|v data IH]; intros d r; simpl.
  - unfold region_total. simpl. lia.
  - rewrite IH, region_total_cons. unfold add_to_totals at 1.
    unfold dict_get_default at 1. rewrite dict_get_set.
    destruct (String.eqb (region v) r) eqn:E.
    + apply String.eqb_eq in E. subst. lia.
    + fold (dict_get_default d r 0). lia.
Qed.

Lemma max_from_spec :
  forall (A : Type) (key : A -> Z) l best,
    exists l1 l2,
      (best :: l = l1 ++ max_from key best l :: l2)%list
      /\ (forall y, In y l1 -> key y < key (max_from key best l))
      /\ (forall y, In y l2 -> key y <= key (max_from key best l)).
Proof.
  intros A key. induction l as [|x l IH]; intros best; simpl.
  - exists [], []. repeat split; simpl; intros; contradiction.
  - destruct (key best <? key x) eqn:E.
    + destruct (IH x) as (l1 & l2 & Heq & H1 & H2).
      exists (best :: l1), l2. repeat split.
      * simpl. now rewrite Heq.
      * intros y [<- | Hy]; [|now apply H1].
        apply Z.ltb_lt in E.
        assert (Hx : In x (l1 ++ max_from key x l :: l2))
          by (rewrite <- Heq; now left).
        apply in_app_or in Hx. destruct Hx as [Hx | [Hx | Hx]].
        -- specialize (H1 _ Hx). lia.
        -- rewrite Hx. exact E.
        -- specialize (H2 _ Hx). lia.
      * exact H2.
    + apply Z.ltb_ge in E.
      destruct (IH best) as (l1 & l2 & Heq & H1 & H2).
      destruct l1 as [|b l1]; simpl in Heq.
      * injection Heq as Hb Hl. exists [], (x :: l2). repeat split.
        -- simpl. rewrite <- Hb, <- Hl. reflexivity.
        -- intros y [].
        -- intros y [<- | Hy]; [now rewrite <- Hb | now apply H2].
      * injection Heq as Hb Hl. subst b.
        exists (best :: x :: l1), l2. repeat split.
        -- simpl. do 2 f_equal. exact Hl.
        -- intros y [<- | [<- | Hy]].
           ++ apply H1. now left.
           ++ assert (key best < key (max_from key best l))
                by (apply H1; now left). lia.
           ++ apply H1. now right.
        -- exact H2.
Qed.

Lemma app_NoDup_split :
  forall (l1 l2 l1' l2' : list string) x,
    NoDup (l1 ++ x :: l2) ->
    (l1 ++ x :: l2 = l1' ++ x :: l2')%list -> l1 = l1'.
Proof.
  induction l1 as [|a l1 IH]; intros l2 l1' l2' x Hnd Heq.
  - destruct l1' as [|b l1']; [reflexivity|]. exfalso.
    simpl in Heq. inversion Heq; subst. simpl in Hnd.
    inversion Hnd as [|? ? Hx _]; subst. apply Hx.
    rewrite in_app_iff. right. now left.
  - destruct l1' as [|b l1']; simpl in Heq.
    + exfalso. inversion Heq; subst. simpl in Hnd.
      inversion Hnd as [|? ? Hx _]; subst. apply Hx.
      rewrite in_app_iff. right. now left.
    + inversion Heq; subst. f_equal. simpl in Hnd.
      inversion Hnd; subst. eapply IH; eauto.
Qed.

Lemma keys_region_totals :
  forall data, keys (region_totals data) = regions_in_order data.
Proof. intros data. unfold region_totals. now rewrite keys_totals. Qed.

Lemma NoDup_regions_in_order : forall data, NoDup (regions_in_order data).
Proof. intros data. apply NoDup_fold_add_key. constructor. Qed.

Lemma In_regions_in_order :
  forall data r, In r (regions_in_order data) <-> In r (map region data).
Proof.
  intros data r. unfold regions_in_order. rewrite In_fold_add_key.
  simpl. tauto.
Qed.

Lemma region_totals_value :
  forall data r t, In (r, t) (region_totals data) -> t = region_total r data.
Proof.
  intros data r t Hin.
  assert (Hget : dict_get (region_totals data) r = Some t).
  { apply dict_get_In; [|exact Hin].
    rewrite keys_region_totals. apply NoDup_regions_in_order. }
  pose proof (get_totals data [] r) as Htot.
  fold (region_totals data) in Htot. unfold dict_get_default in Htot.
  rewrite Hget in Htot. simpl in Htot. exact Htot.
Qed.

Lemma regions_before_first :
  forall pre v post,
    ~ In (region v) (map region pre) ->
    exists tail,
      regions_in_order (pre ++ v :: post)
      = (regions_in_order pre ++ region v :: tail)%list.
Proof.
  intros pre v post Hnot. unfold regions_in_order.
  rewrite map_app, fold_left_app. simpl.
  set (kp := fold_left add_key (map region pre) []).
  assert (Hkp : mem (region v) kp = false).
  { destruct (mem (region v) kp) eqn:E; [|reflexivity].
    apply mem_In in E. unfold kp in E. apply In_fold_add_key in E.
    destruct E as [[] | E]. contradiction. }
  unfold add_key at 2. rewrite Hkp.
  destruct (fold_add_key_app (map region post) (kp ++ [region v]))
    as [tail Ht].
  exists tail. rewrite Ht, <- app_assoc. reflexivity.
Qed.

Definition test_data : list ValidRecord :=
  [ {| city := "Kumasi"; region := "Ashanti"; num_sites := 25 |};
    {| city := "Obuasi"; region := "Ashanti"; num_sites := 15 |};
    {| city := "Accra"; region := "Greater Accra"; num_sites := 30 |} ].

(** C3.  On a list of records that is not empty,
    [get_region_with_highest_sites] returns a region of the data with the
    sum of its site counts; no region has a greater sum; and every record
    before the first record of the returned region is of a region with a
    strictly smaller sum, so among the regions with the greatest sum the
    one encountered first is returned.  On the empty list it raises
    [ValueError].  On Ashanti 25, Ashanti 15, Greater Accra 30 it returns
    Ashanti with 40. *)
Theorem highest_region_spec :
  (forall (v0 : ValidRecord) (rest : list ValidRecord),
      let data := v0 :: rest in
      exists r t,
        get_region_with_highest_sites data = Ok (r, t)
        /\ In r (map region data)
        /\ t = region_total r data
        /\ (forall v, In v data -> region_total (region v) data <= t)
        /\ (forall pre v post,
               data = (pre ++ v :: post)%list ->
               region v = r ->
               ~ In r (map region pre) ->
               forall v', In v' pre -> region_total (region v') data < t))
  /\ get_region_with_highest_sites []
     = Raise (ValueError "Cannot determine highest region from empty data")
  /\ get_region_with_highest_sites test_data = Ok ("Ashanti", 40).
Proof.
  split; [|split; reflexivity].
  intros v0 rest data.
  assert (Hv0 : In (region v0) (keys (region_totals data))).
  { rewrite keys_region_totals, In_regions_in_order. now left. }
  unfold get_region_with_highest_sites. fold data.
  change (match data with
          | [] => Raise (ValueError
                    "Cannot determine highest region from empty data")
          | _ :: _ => py_max snd (region_totals data)
          end) with (py_max (@snd string Z) (region_totals data)).
  destruct (region_totals data) as [|x l] eqn:Ed; [contradiction|].
  simpl py_max.
  destruct (max_from_spec _ (@snd string Z) l x) as (l1 & l2 & Heq & H1 & H2).
  destruct (max_from snd x l) as [r t] eqn:Em. simpl in H1, H2.
  assert (Hin : In (r, t) (region_totals data)).
  { rewrite Ed, Heq. apply in_or_app. right. now left. }
  assert (Hle : forall p, In p (region_totals data) -> snd p <= t).
  { intros p Hp. rewrite Ed, Heq in Hp. apply in_app_or in Hp.
    destruct Hp as [Hp | [<- | Hp]];
      [specialize (H1 _ Hp); lia | simpl; lia | now apply H2]. }
  assert (Hval : forall v, In v data ->
                 exists p, In p (region_totals data) /\ fst p = region v
                           /\ snd p = region_total (region v) data).
  { intros v Hv.
    assert (Hk : In (region v) (keys (region_totals data))).
    { rewrite keys_region_totals, In_regions_in_order. now apply in_map. }
    unfold keys in Hk. apply in_map_iff in Hk.
    destruct Hk as ([k s] & Hk & Hp). simpl in Hk. subst k.
    exists (region v, s). repeat split; [exact Hp|].
    now apply region_totals_value. }
  exists r, t. split; [reflexivity|]. split; [|split; [|split]].
  - rewrite <- In_regions_in_order, <- keys_region_totals.
    unfold keys. change r with (fst (r, t)). now apply in_map.
  - now apply region_totals_value.
  - intros v Hv. destruct (Hval v Hv) as (p & Hp & _ & Hs).
    rewrite <- Hs. now apply Hle.
  - intros pre v post Hdata Hr Hnot v' Hv'. subst r.
    destruct (regions_before_first pre v post Hnot) as [tail Htail].
    rewrite <- Hdata, <- keys_region_totals, Ed, Heq in Htail.
    unfold keys in Htail. rewrite map_app in Htail. simpl in Htail.
    assert (Hl1 : map fst l1 = regions_in_order pre).
    { apply (app_NoDup_split _ (map fst l2) _ tail (region v));
        [|exact Htail].
      replace (map fst l1 ++ region v :: map fst l2)%list
        with (keys (region_totals data))
        by (rewrite Ed, Heq; unfold keys; now rewrite map_app).
      rewrite keys_region_totals. apply NoDup_regions_in_order. }
    assert (Hk : In (region v') (map fst l1)).
    { rewrite Hl1, In_regions_in_order. now apply in_map. }
    apply in_map_iff in Hk. destruct Hk as ([k s] & Hk & Hp).
    simpl in Hk. subst k.
    assert (Hs : s = region_total (region v') data).
    { apply region_totals_value. rewrite Ed, Heq. apply in_or_app. now left. }
    rewrite <- Hs. apply (H1 _ Hp).
Qed.

Definition tamale : ValidRecord :=
  {| city := "Tamale"; region := "Northern"; num_sites := 7 |}.

Lemma highest_region_spec_witness :
  get_region_with_highest_sites (tamale :: test_data) = Ok ("Ashanti", 40)
  /\ forall v', In v' [tamale] ->
       region_total (region v') (tamale :: test_data) < 40.
Proof.
  destruct (proj1 highest_region_spec tamale test_data)
    as (r & t & Hget & _ & _ & _ & Hfirst).
  split; [reflexivity|].
  vm_compute in Hget. injection Hget as Hr Ht. subst r t.
  apply (Hfirst [tamale]
           {| city := "Kumasi"; region := "Ashanti"; num_sites := 25 |}
           (skipn 1 test_data)).
  - reflexivity.
  - reflexivity.
  - simpl. intros [H | []]. discriminate.
Defined.

(** *** [sorted] in reverse and [get_cities_above_threshold] *)

Section SortedReverse.
Context {A : Type} (key : A -> Z).

(** Descending by key. *)
Definition desc (a b : A) : Prop := key b <= key a.

Definition has_key (k : Z) (x : A) : bool := key x =? k.

Lemma insert_desc_perm :
  forall x l, Permutation (insert_desc key x l) (x :: l).
Proof.
  intros x. induction l as [|y l IH]; simpl; [reflexivity|].
  destruct (key y <=? key x); [reflexivity|].
  rewrite IH. apply perm_swap.
Qed.

Lemma sorted_reverse_perm : forall l, Permutation (sorted_reverse key l) l.
Proof.
  induction l as [|x l IH]; simpl; [constructor|].
  rewrite insert_desc_perm. now constructor.
Qed.

Lemma insert_desc_sorted :
  forall x l,
    StronglySorted desc l -> StronglySorted desc (insert_desc key x l).
Proof.
  intros x. induction l as [|y l IH]; intros Hs; simpl.
  - repeat constructor.
  - inversion Hs as [|? ? Hl Hy]; subst.
    destruct (key y <=? key x) eqn:E.
    + apply Z.leb_le in E. constructor; [exact Hs|].
      constructor; [exact E|].
      eapply Forall_impl; [|exact Hy]. unfold desc. intros; lia.
    + apply Z.leb_gt in E. constructor; [now apply IH|].
      eapply Permutation_Forall;
        [apply Permutation_sym, insert_desc_perm|].
      constructor; [unfold desc; lia | exact Hy].
Qed.

Lemma sorted_reverse_sorted :
  forall l, StronglySorted desc (sorted_reverse key l).
Proof.
  induction l as [|x l IH]; simpl; [constructor|].
  now apply insert_desc_sorted.
Qed.

Lemma insert_desc_stable :
  forall k x l,
    filter (has_key k) (insert_desc key x l) = filter (has_key k) (x :: l).
Proof.
  intros k x. induction l as [|y l IH]; [reflexivity|].
  simpl insert_desc. destruct (key y <=? key x) eqn:E; [reflexivity|].
  apply Z.leb_gt in E. simpl in *. rewrite IH. unfold has_key.
  destruct (key y =? k) eqn:Ey; [|reflexivity].
  apply Z.eqb_eq in Ey.
  assert (Ex : (key x =? k) = false) by (apply Z.eqb_neq; lia).
  now rewrite Ex.
Qed.

(** Stability: the elements of one key keep the order of the input. *)
Lemma sorted_reverse_stable :
  forall k l,
    filter (has_key k) (sorted_reverse key l) = filter (has_key k) l.
Proof.
  intros k. induction l as [|x l IH]; [reflexivity|].
  simpl sorted_reverse. rewrite insert_desc_stable. simpl. now rewrite IH.
Qed.

(** A list sorted in descending order is determined by its elements of
    each key in their order: the three properties above leave one
    result only, whatever the sorting algorithm. *)
Lemma stable_sorted_unique :
  forall l1 l2,
    StronglySorted desc l1 -> StronglySorted desc l2 ->
    (forall k, filter (has_key k) l1 = filter (has_key k) l2) ->
    l1 = l2.
Proof.
  induction l1 as [|x l1 IH]; intros l2 H1 H2 Hf.
  - destruct l2 as [|y l2]; [reflexivity|].
    specialize (Hf (key y)). simpl in Hf. unfold has_key in Hf.
    rewrite Z.eqb_refl in Hf. discriminate.
  - destruct l2 as [|y l2].
    + specialize (Hf (key x)). simpl in Hf. unfold has_key in Hf.
      rewrite Z.eqb_refl in Hf. discriminate.
    + inversion H1 as [|? ? Hs1 Hx]; subst.
      inversion H2 as [|? ? Hs2 Hy]; subst.
      assert (Hin : forall (l l' : list A) z,
                 (forall k, filter (has_key k) l = filter (has_key k) l') ->
                 In z l -> In z l').
      { intros l l' z Hff Hz.
        assert (Hz' : In z (filter (has_key (key z)) l)).
        { apply filter_In. split; [exact Hz|]. apply Z.eqb_refl. }
        rewrite Hff in Hz'. now apply filter_In in Hz'. }
      assert (Hkey : key x = key y).
      { assert (Hxy : In x (y :: l2)) by (apply (Hin _ _ _ Hf); now left).
        assert (Hyx : In y (x :: l1)).
        { apply (Hin _ _ _ (fun k => eq_sym (Hf k))). now left. }
        rewrite Forall_forall in Hx, Hy. unfold desc in Hx, Hy.
        destruct Hxy as [<- | Hxy]; [reflexivity|].
        destruct Hyx as [<- | Hyx]; [reflexivity|].
        specialize (Hx _ Hyx). specialize (Hy _ Hxy). lia. }
      assert (Hhead := Hf (key x)). simpl in Hhead. unfold has_key in Hhead.
      rewrite Z.eqb_refl, <- Hkey, Z.eqb_refl in Hhead.
      injection Hhead as Hxy _. subst y. f_equal.
      apply IH; [exact Hs1 | exact Hs2 |].
      intros k. specialize (Hf k). simpl in Hf.
      destruct (has_key k x); [now injection Hf | exact Hf].
Qed.
End SortedReverse.

Definition above (threshold : Z) (v : ValidRecord) : bool :=
  threshold <? num_sites v.

Lemma cities_above_In :
  forall data threshold l,
    get_cities_above_threshold data threshold = Ok l ->
    forall v, In v l <-> In v data /\ threshold < num_sites v.
Proof.
  intros data threshold l H v. unfold get_cities_above_threshold in H.
  destruct (threshold <? 0); [discriminate|]. injection H as <-.
  fold (above threshold). split.
  - intros Hv.
    apply (Permutation_in _ (sorted_reverse_perm num_sites _)) in Hv.
    apply filter_In in Hv. destruct Hv as [Hv Ha]. split; [exact Hv|].
    now apply Z.ltb_lt in Ha.
  - intros [Hv Ha].
    apply (Permutation_in _
             (Permutation_sym (sorted_reverse_perm num_sites _))).
    apply filter_In. split; [exact Hv|]. now apply Z.ltb_lt.
Qed.

(** C4.  [get_cities_above_threshold] raises [ValueError] for every negative
    threshold, whatever the data; for a threshold that is not negative it
    returns the records whose site count is strictly greater than the
    threshold, each as often as in the data, in descending order of site
    count, the records of one site count in the order of the data. *)
Theorem cities_above_threshold_spec :
  forall (data : list ValidRecord) (threshold : Z),
    (threshold < 0 ->
     get_cities_above_threshold data threshold
     = Raise (ValueError "Threshold cannot be negative"))
    /\ (0 <= threshold ->
        exists l,
          get_cities_above_threshold data threshold = Ok l
          /\ Permutation l (filter (above threshold) data)
          /\ (forall v, In v l <-> In v data /\ threshold < num_sites v)
          /\ StronglySorted (desc num_sites) l
          /\ (forall k, filter (has_key num_sites k) l
                        = filter (has_key num_sites k)
                            (filter (above threshold) data))).
Proof.
  intros data threshold. unfold get_cities_above_threshold. split.
  - intros H. apply Z.ltb_lt in H. now rewrite H.
  - intros H. apply Z.ltb_ge in H. rewrite H.
    fold (above threshold).
    eexists. split; [reflexivity|]. split; [|split; [|split]].
    + apply sorted_reverse_perm.
    + apply (cities_above_In data threshold).
      unfold get_cities_above_threshold. now rewrite H.
    + apply sorted_reverse_sorted.
    + intros k. apply sorted_reverse_stable.
Qed.

Definition five_cities : list ValidRecord :=
  [ {| city := "A"; region := "Ashanti"; num_sites := 25 |};
    {| city := "B"; region := "Greater Accra"; num_sites := 30 |};
    {| city := "C"; region := "Northern"; num_sites := 7 |};
    {| city := "D"; region := "Central"; num_sites := 10 |};
    {| city := "E"; region := "Bono"; num_sites := 5 |} ].

Lemma cities_above_threshold_spec_witness :
  get_cities_above_threshold five_cities (-5)
  = Raise (ValueError "Threshold cannot be negative")
  /\ exists l,
       get_cities_above_threshold five_cities 10 = Ok l
       /\ map city l = [ "B"; "A" ]
       /\ StronglySorted (desc num_sites) l.
Proof.
  split.
  - apply (proj1 (cities_above_threshold_spec five_cities (-5))). lia.
  - destruct (proj2 (cities_above_threshold_spec five_cities 10))
      as (l & Hl & _ & _ & Hs & _); [lia|].
    exists l. split; [exact Hl|]. split; [|exact Hs].
    vm_compute in Hl. injection Hl as <-. reflexivity.
Defined.

(** ** The pipeline: [run_full_analysis] *)

Lemma run_full_analysis_inv :
  forall fs filepath th res,
    run_full_analysis fs filepath th = Ok res ->
    exists invalid highest avg summary,
      load_data fs filepath = Ok (valid_data res, invalid)
      /\ get_region_with_highest_sites (valid_data res) = Ok highest
      /\ get_cities_above_threshold (valid_data res) th
         = Ok (cities (cities_above_threshold res))
      /\ get_average_sites_per_region (valid_data res) = Ok avg
      /\ get_region_summary (valid_data res) = Ok summary
      /\ res = {| total_sites := get_total_sites (valid_data res);
                  total_valid_records := len (valid_data res);
                  total_invalid_records := len invalid;
                  region_with_highest_sites :=
                    {| hr_region := fst highest;
                       hr_total_sites := snd highest |};
                  cities_above_threshold :=
                    {| threshold := th;
                       count := len (cities (cities_above_threshold res));
                       cities := cities (cities_above_threshold res) |};
                  average_sites_per_region := avg;
                  region_summary := summary;
                  invalid_records := invalid;
                  valid_data := valid_data res |}.
Proof.
  intros fs filepath th res H. unfold run_full_analysis in H.
  destruct (load_data fs filepath) as [[valid invalid]|]; simpl in H;
    [|discriminate].
  destruct (get_region_with_highest_sites valid) as [[hr hc]|] eqn:Eh;
    simpl in H; [|discriminate].
  destruct (get_cities_above_threshold valid th) as [above_l|] eqn:Ec;
    simpl in H; [|discriminate].
  destruct (get_average_sites_per_region valid) as [avg|] eqn:Ea;
    simpl in H; [|discriminate].
  destruct (get_region_summary valid) as [summary|] eqn:Es; simpl in H;
    [|discriminate].
  injection H as <-. simpl.
  exists invalid, (hr, hc), avg, summary. repeat split; assumption.
Qed.

(** C9.  The whitelist has 16 regions.  Every record among the valid
    records that [load_data] returns has its region in the whitelist and a
    site count from 0 to 500; [get_cities_above_threshold] returns records
    of its input only, so it keeps the invariant; and the valid records and
    the cities above the threshold in a result of [run_full_analysis] have
    it. *)
Theorem valid_records_invariant :
  forall (fs : filesystem) (filepath : string),
    List.length valid_regions = 16%nat
    /\ NoDup valid_regions
    /\ (forall valid invalid,
           load_data fs filepath = Ok (valid, invalid) ->
           Forall record_ok valid)
    /\ (forall data threshold l,
           Forall record_ok data ->
           get_cities_above_threshold data threshold = Ok l ->
           Forall record_ok l)
    /\ (forall threshold res,
           run_full_analysis fs filepath threshold = Ok res ->
           Forall record_ok (valid_data res)
           /\ Forall record_ok (cities (cities_above_threshold res))).
Proof.
  intros fs filepath.
  assert (Hcities : forall data threshold l,
             Forall record_ok data ->
             get_cities_above_threshold data threshold = Ok l ->
             Forall record_ok l).
  { intros data th l Hd Hl. rewrite Forall_forall in *.
    intros v Hv. apply Hd. now apply (cities_above_In _ _ _ Hl) in Hv. }
  split; [reflexivity|]. split; [|split; [|split]].
  - repeat (constructor; [simpl; intuition discriminate|]). constructor.
  - intros valid invalid H. now apply load_data_ok in H.
  - exact Hcities.
  - intros th res H.
    destruct (run_full_analysis_inv _ _ _ _ H)
      as (invalid & highest & avg & summary & Hload & _ & Hc & _).
    apply load_data_ok in Hload. destruct Hload as [Hok _].
    split; [exact Hok|]. eapply Hcities; eassumption.
Qed.

Lemma valid_records_invariant_witness :
  Forall record_ok (accepted_of 2 (rows mixed_file))
  /\ exists res,
       run_full_analysis (one_file mixed_file) "galamsay_data.csv" 10 = Ok res
       /\ Forall record_ok (cities (cities_above_threshold res)).
Proof.
  pose proof (valid_records_invariant (one_file mixed_file)
                "galamsay_data.csv") as (_ & _ & Hload & _ & Hrun).
  split.
  - apply (Hload _ (rejected_of 2 (rows mixed_file))). reflexivity.
  - destruct (run_full_analysis (one_file mixed_file) "galamsay_data.csv" 10)
      as [res|e] eqn:E; [|vm_compute in E; discriminate].
    exists res. split; [reflexivity|]. now apply (Hrun 10).
Defined.

(** C10.  A result of [run_full_analysis] is consistent with itself: the
    two record counts are the lengths of the valid data and of the invalid
    records, the total is the sum of the site counts of the valid data, the
    count of cities above the threshold is the length of their list, and
    the threshold recorded is the one passed in. *)
Theorem run_full_analysis_consistent :
  forall (fs : filesystem) (filepath : string) (th : Z)
         (res : AnalysisResults),
    run_full_analysis fs filepath th = Ok res ->
    total_valid_records res = len (valid_data res)
    /\ total_invalid_records res = len (invalid_records res)
    /\ total_sites res = sum_list (map num_sites (valid_data res))
    /\ count (cities_above_threshold res)
       = len (cities (cities_above_threshold res))
    /\ threshold (cities_above_threshold res) = th.
Proof.
  intros fs filepath th res H.
  destruct (run_full_analysis_inv _ _ _ _ H)
    as (invalid & highest & avg & summary & _ & _ & _ & _ & _ & Hres).
  pose proof (f_equal total_valid_records Hres) as Hv.
  pose proof (f_equal total_invalid_records Hres) as Hi.
  pose proof (f_equal invalid_records Hres) as Hinv.
  pose proof (f_equal total_sites Hres) as Ht.
  pose proof (f_equal (fun r => count (cities_above_threshold r)) Hres) as Hc.
  pose proof (f_equal (fun r => threshold (cities_above_threshold r)) Hres)
    as Hth.
  simpl in Hv, Hi, Hinv, Ht, Hc, Hth.
  rewrite get_total_sites_spec in Ht. rewrite Hinv.
  repeat split; assumption.
Qed.

Lemma run_full_analysis_consistent_witness :
  exists res,
    run_full_analysis (one_file mixed_file) "galamsay_data.csv" 10 = Ok res
    /\ total_sites res = 77 /\ total_valid_records res = 4
    /\ total_invalid_records res = 4
    /\ count (cities_above_threshold res) = 3.
Proof.
  destruct (run_full_analysis (one_file mixed_file) "galamsay_data.csv" 10)
    as [res|e] eqn:E; [|vm_compute in E; discriminate].
  exists res. split; [reflexivity|].
  destruct (run_full_analysis_consistent _ _ _ _ E)
    as (Hv & Hi & Ht & Hc & _).
  rewrite Hv, Hi, Ht, Hc. vm_compute in E. injection E as <-.
  repeat split; reflexivity.
Defined.

(** ** The schema: [init_database] *)

(** The statements of [init_database] as data, and their run one after the
    other, each committed at once, until one raises. *)
Inductive schema_stmt : Type :=
| CreateTable (name : string) (columns : list column)
| CreateIndex (name tbl col : string).

Definition run_stmt (s : schema_stmt) (db : database) : result database :=
  match s with
  | CreateTable name columns => create_table_if_not_exists name columns db
  | CreateIndex name tbl col => create_index_if_not_exists name tbl col db
  end.

Fixpoint run_schema (l : list schema_stmt) (db : database)
  : result unit * database :=
  match l with
  | [] => (Ok tt, db)
  | s :: l' =>
      match run_stmt s db with
      | Ok d => run_schema l' d
      | Raise e => (Raise e, db)
      end
  end.

Definition init_statements : list schema_stmt :=
  [ CreateTable "galamsay_sites" galamsay_sites_columns;
    CreateTable "analysis_log" analysis_log_columns;
    CreateTable "invalid_records" invalid_records_columns;
    CreateIndex "idx_galamsay_region" "galamsay_sites" "region";
    CreateIndex "idx_galamsay_batch" "galamsay_sites" "batch_id";
    CreateIndex "idx_analysis_batch" "analysis_log" "batch_id" ].

Lemma init_database_run :
  forall db, init_database db = run_schema init_statements db.
Proof.
  intros db.
  unfold init_database, with_db_connection, init_script, and_then,
    execute_schema, commit, current, init_statements, run_schema, run_stmt.
  cbn [pending committed].
  repeat match goal with
         | |- context [match ?stmt ?d with Ok _ => _ | Raise _ => _ end] =>
             destruct (stmt d); cbn [pending committed]
         end;
    reflexivity.
Qed.

(** A statement is done in a database where it has nothing left to do. *)
Definition done (s : schema_stmt) (db : database) : Prop :=
  match s with
  | CreateTable name _ => find_table db name <> None
  | CreateIndex name tbl _ =>
      find_table db tbl <> None /\ find_table db name = None
      /\ find_index db name <> None
  end.

(** [s] stays done when [s'] runs after it. *)
Definition keeps_done (s s' : schema_stmt) : Prop :=
  match s, s' with
  | CreateTable _ _, _ => True
  | CreateIndex _ _ _, CreateIndex _ _ _ => True
  | CreateIndex _ _ _, CreateTable _ _ => False
  end.

Fixpoint tables_first (l : list schema_stmt) : Prop :=
  match l with
  | [] => True
  | s :: l' => Forall (keeps_done s) l' /\ tables_first l'
  end.

Lemma same_name_refl : forall a, same_name a a = true.
Proof. intros a. apply String.eqb_refl. Qed.

Lemma find_app_some :
  forall (A : Type) (p : A -> bool) l l',
    find p l <> None -> find p (l ++ l') = find p l.
Proof.
  intros A p l l'. induction l as [|x l IH]; simpl; [easy|].
  destruct (p x); auto.
Qed.

Lemma find_app_none :
  forall (A : Type) (p : A -> bool) l l',
    find p l = None -> find p (l ++ l') = find p l'.
Proof.
  intros A p l l'. induction l as [|x l IH]; simpl; [easy|].
  destruct (p x); [discriminate | auto].
Qed.

Lemma done_inert : forall s db, done s db -> run_stmt s db = Ok db.
Proof.
  intros [name columns | name tbl c] db; simpl.
  - intros H. unfold create_table_if_not_exists.
    destruct (find_table db name); [reflexivity | contradiction].
  - intros (Ht & Hn & Hi). unfold create_index_if_not_exists.
    destruct (find_table db tbl); [|contradiction]. rewrite Hn.
    destruct (find_index db name); [reflexivity | contradiction].
Qed.

Lemma run_stmt_done : forall s db d, run_stmt s db = Ok d -> done s d.
Proof.
  intros [name columns | name tbl c] db d; simpl.
  - unfold create_table_if_not_exists.
    destruct (find_table db name) as [t|] eqn:Et.
    + intros H. injection H as <-. now rewrite Et.
    + destruct (find_index db name); [discriminate|].
      intros H. injection H as <-. unfold find_table in *. simpl.
      rewrite (find_app_none _ _ _ _ Et). simpl.
      now rewrite same_name_refl.
  - unfold create_index_if_not_exists.
    destruct (find_table db tbl) as [t|] eqn:Et; [|discriminate].
    destruct (find_table db name) eqn:En; [discriminate|].
    destruct (find_index db name) as [i|] eqn:Ei.
    + intros H. injection H as <-. now rewrite Et, En, Ei.
    + destruct (has_column t c); [|discriminate].
      intros H. injection H as <-. unfold find_table, find_index in *.
      simpl. rewrite Et, En. repeat split; try discriminate.
      rewrite (find_app_none _ _ _ _ Ei). simpl.
      now rewrite same_name_refl.
Qed.

Lemma run_stmt_keeps_done :
  forall s s' db d,
    keeps_done s s' -> done s db -> run_stmt s' db = Ok d -> done s d.
Proof.
  intros s s' db d Hk Hs Hrun.
  assert (Htab : forall n, find_table db n <> None ->
                           find_table d n = find_table db n).
  { intros n Hn. destruct s' as [name' columns' | name' tbl' c']; simpl in Hrun.
    - unfold create_table_if_not_exists in Hrun.
      destruct (find_table db name'); [now injection Hrun as <-|].
      destruct (find_index db name'); [discriminate|].
      injection Hrun as <-. unfold find_table in *. simpl.
      now apply find_app_some.
    - unfold create_index_if_not_exists in Hrun.
      destruct (find_table db tbl') as [t|]; [|discriminate].
      destruct (find_table db name'); [discriminate|].
      destruct (find_index db name'); [now injection Hrun as <-|].
      destruct (has_column t c'); [|discriminate].
      now injection Hrun as <-. }
  destruct s as [name columns | name tbl c]; simpl in *.
  - rewrite Htab; assumption.
  - destruct s' as [name' columns' | name' tbl' c']; [contradiction|].
    destruct Hs as (Ht & Hn & Hi). simpl in Hrun.
    unfold create_index_if_not_exists in Hrun.
    destruct (find_table db tbl') as [t|]; [|discriminate].
    destruct (find_table db name'); [discriminate|].
    destruct (find_index db name') eqn:Ei'.
    + injection Hrun as <-. auto.
    + destruct (has_column t c'); [|discriminate].
      injection Hrun as <-. unfold find_table, find_index in *. simpl.
      repeat split; try assumption.
      now rewrite find_app_some.
Qed.

Lemma run_schema_skip :
  forall pre l db,
    Forall (fun s => done s db) pre ->
    run_schema (pre ++ l) db = run_schema l db.
Proof.
  induction pre as [|s pre IH]; intros l db H; simpl; [reflexivity|].
  inversion H as [|? ? Hs Hpre]; subst.
  rewrite (done_inert _ _ Hs). now apply IH.
Qed.

Lemma run_schema_again :
  forall l pre db r db1,
    Forall (fun s => done s db) pre ->
    (forall s, In s pre -> Forall (keeps_done s) l) ->
    tables_first l ->
    run_schema l db = (r, db1) ->
    run_schema (pre ++ l) db1 = (r, db1).
Proof.
  induction l as [|s l IH]; intros pre db r db1 Hpre Hkeep Hord Hrun.
  - simpl in Hrun. injection Hrun as <- <-.
    rewrite (run_schema_skip _ _ _ Hpre). reflexivity.
  - simpl in Hrun. destruct (run_stmt s db) as [d|e] eqn:Es.
    + destruct Hord as [Hs Hord].
      replace (pre ++ s :: l)%list with ((pre ++ [s]) ++ l)%list
        by (now rewrite <- app_assoc).
      apply (IH (pre ++ [s])%list d); [| |exact Hord|exact Hrun].
      * apply Forall_app. split.
        -- rewrite Forall_forall in *. intros s0 Hs0.
           apply (run_stmt_keeps_done s0 s db d); auto.
           specialize (Hkeep _ Hs0). now inversion Hkeep.
        -- constructor; [|constructor]. eapply run_stmt_done; exact Es.
      * intros s0 Hs0. apply in_app_or in Hs0.
        destruct Hs0 as [Hs0 | [<- | []]]; [|exact Hs].
        specialize (Hkeep _ Hs0). now inversion Hkeep.
    + injection Hrun as <- <-.
      rewrite (run_schema_skip _ _ _ Hpre). simpl. now rewrite Es.
Qed.

Lemma init_statements_tables_first : tables_first init_statements.
Proof. simpl. repeat split; repeat constructor. Qed.

Lemma init_database_again :
  forall db, init_database (snd (init_database db)) = init_database db.
Proof.
  intros db. rewrite !init_database_run.
  destruct (run_schema init_statements db) as [r db1] eqn:E. simpl.
  apply (run_schema_again init_statements [] db r db1);
    [constructor | intros s [] | apply init_statements_tables_first | exact E].
Qed.

(** [n] calls of [init_database], one after the other, as far as none
    raises. *)
Fixpoint init_times (n : nat) (db : database) : result unit * database :=
  match n with
  | O => (Ok tt, db)
  | S n' =>
      match init_database db with
      | (Ok _, d) => init_times n' d
      | (Raise e, d) => (Raise e, d)
      end
  end.

Definition schema_names (db : database) : list string * list string :=
  (map tbl_name (db_tables db), map idx_name (db_indexes db)).

(** C8.  [init_database] is idempotent on every database: a second call
    returns as the first did and leaves the database that the first call
    left, tables and indexes alike, so nothing is created twice, and so do
    any number of further calls; a database on which one call has succeeded
    makes no later call raise.  On a fresh database the call succeeds and
    creates the three tables and the three indexes. *)
Theorem init_database_idempotent :
  (forall db : database,
      init_database (snd (init_database db)) = init_database db)
  /\ (forall (db : database) (n : nat),
         init_times (S n) db = init_database db)
  /\ fst (init_database empty_database) = Ok tt
  /\ schema_names (snd (init_database empty_database))
     = ([ "galamsay_sites"; "analysis_log"; "invalid_records" ],
        [ "idx_galamsay_region"; "idx_galamsay_batch";
          "idx_analysis_batch" ]).
Proof.
  split; [exact init_database_again|]. split; [|split; reflexivity].
  intros db n. revert db. induction n as [|n IH]; intros db.
  - simpl. now destruct (init_database db) as [[[]|e] d].
  - change (init_times (S (S n)) db)
      with (match init_database db with
            | (Ok _, d) => init_times (S n) d
            | (Raise e, d) => (Raise e, d)
            end).
    pose proof (init_database_again db) as Hagain.
    destruct (init_database db) as [[[]|e] d]; [|reflexivity].
    rewrite IH. exact Hagain.
Qed.

(** ** The store: [save_analysis_to_database] *)

Lemma same_name_sym : forall a b, same_name a b = same_name b a.
Proof. intros a b. apply String.eqb_sym. Qed.

Lemma same_name_trans :
  forall a b c, same_name a b = true -> same_name b c = true ->
                same_name a c = true.
Proof.
  unfold same_name. intros a b c H1 H2.
  apply String.eqb_eq in H1. apply String.eqb_eq in H2.
  apply String.eqb_eq. congruence.
Qed.

Lemma same_name_congr :
  forall a b c, same_name a b = true -> same_name a c = same_name b c.
Proof.
  unfold same_name. intros a b c H. apply String.eqb_eq in H. now rewrite H.
Qed.

(** The rows of a table, none for a table that does not exist. *)
Definition rows_in (db : database) (name : string) : list (dict sqlval) :=
  match find_table db name with
  | Some t => tbl_rows t
  | None => []
  end.

Definition columns_in (db : database) (name : string) : list column :=
  match find_table db name with
  | Some t => tbl_columns t
  | None => []
  end.

(** *** The effect of one [INSERT] *)

Lemma find_replace_table :
  forall ts t t' name,
    find (fun x => same_name (tbl_name x) (tbl_name t)) ts = Some t ->
    tbl_name t' = tbl_name t ->
    find (fun x => same_name (tbl_name x) name) (replace_table ts t')
    = if same_name (tbl_name t) name then Some t'
      else find (fun x => same_name (tbl_name x) name) ts.
Proof.
  induction ts as [|x ts IH]; intros t t' name Hfind Hname;
    cbn [find replace_table] in *; [discriminate|].
  rewrite Hname.
  destruct (same_name (tbl_name x) (tbl_name t)) eqn:Ex.
  - injection Hfind as ->. cbn [find]. rewrite Hname.
    destruct (same_name (tbl_name t) name); reflexivity.
  - cbn [find]. rewrite (IH t t' name Hfind Hname).
    destruct (same_name (tbl_name x) name) eqn:Exn; [|reflexivity].
    destruct (same_name (tbl_name t) name) eqn:Etn; [|reflexivity].
    rewrite same_name_sym in Etn.
    rewrite (same_name_trans _ _ _ Exn Etn) in Ex. discriminate.
Qed.

Lemma find_table_name :
  forall db name t, find_table db name = Some t ->
                    same_name (tbl_name t) name = true.
Proof.
  intros db name t H. unfold find_table in H.
  apply find_some in H. tauto.
Qed.

Lemma find_table_same :
  forall db a b, same_name a b = true -> find_table db a = find_table db b.
Proof.
  intros db a b H. unfold find_table.
  induction (db_tables db) as [|x ts IH]; simpl; [reflexivity|].
  rewrite (same_name_sym _ a), (same_name_sym _ b),
    (same_name_congr a b _ H), IH.
  reflexivity.
Qed.

(** An [INSERT] that succeeds adds one row to its table, the row that
    [new_row] makes, and changes nothing else. *)
Lemma insert_into_ok :
  forall tbl columns values timestamp db d,
    insert_into tbl columns values timestamp db = Ok d ->
    exists t,
      find_table db tbl = Some t
      /\ forallb (has_column t) columns = true
      /\ db_indexes d = db_indexes db
      /\ forall name,
          find_table d name
          = if same_name tbl name
            then Some {| tbl_name := tbl_name t;
                         tbl_columns := tbl_columns t;
                         tbl_rows :=
                           (tbl_rows t
                            ++ [new_row t (combine columns values) timestamp])%list;
                         tbl_sequence := tbl_sequence t + 1 |}
            else find_table db name.
Proof.
  intros tbl columns values timestamp db d H. unfold insert_into in H.
  destruct (find_table db tbl) as [t|] eqn:Et; [|discriminate].
  destruct (forallb (has_column t) columns) eqn:Ec; cbn [negb] in H;
    [|discriminate].
  repeat match type of H with
         | (if ?b then _ else _) = _ => destruct b; [discriminate|]
         end.
  injection H as <-. exists t.
  split; [reflexivity|]. split; [exact Ec|]. split; [reflexivity|].
  intros name. unfold find_table at 1. cbn [db_tables].
  pose proof (find_table_name _ _ _ Et) as Hn.
  assert (Hfind : find (fun x => same_name (tbl_name x) (tbl_name t))
                    (db_tables db) = Some t).
  { rewrite <- Et. symmetry. apply find_table_same.
    now rewrite same_name_sym. }
  erewrite find_replace_table; [|exact Hfind|reflexivity].
  rewrite (same_name_congr _ _ name Hn). reflexivity.
Qed.






(** *** The statements of a save, as data *)

Record insert_stmt : Type := {
  ins_table : string;
  ins_columns : list string;
  ins_values : list sqlval
}.

Definition site_columns : list string :=
  [ "city"; "region"; "num_sites"; "batch_id" ].

Definition log_columns : list string :=
  [ "batch_id"; "total_sites"; "total_valid_records";
    "total_invalid_records"; "highest_region"; "highest_region_sites";
    "threshold_used"; "cities_above_threshold_count";
    "average_per_region_json"; "region_summary_json";
    "cities_above_threshold_json" ].

Definition invalid_columns : list string :=
  [ "batch_id"; "row_number"; "city"; "region"; "num_sites_raw"; "reason" ].

Definition site_values (batch_id : string) (record : ValidRecord)
  : list sqlval :=
  [ SqlText (city record); SqlText (region record);
    SqlInt (num_sites record); SqlText batch_id ].

Definition log_values (res : AnalysisResults) (batch_id : string)
  : list sqlval :=
  [ SqlText batch_id;
    SqlInt (total_sites res);
    SqlInt (total_valid_records res);
    SqlInt (total_invalid_records res);
    SqlText (hr_region (region_with_highest_sites res));
    SqlInt (hr_total_sites (region_with_highest_sites res));
    SqlInt (threshold (cities_above_threshold res));
    SqlInt (count (cities_above_threshold res));
    SqlText (json_dumps (averages_value (average_sites_per_region res)));
    SqlText (json_dumps (summaries_value (region_summary res)));
    SqlText (json_dumps
               (cities_value (cities (cities_above_threshold res)))) ].

Definition invalid_values (batch_id : string) (invalid : InvalidRecord)
  : list sqlval :=
  [ SqlText batch_id;
    SqlInt (inv_row invalid);
    data_get (inv_data invalid) "City";
    data_get (inv_data invalid) "Region";
    data_get (inv_data invalid) "Number_of_Galamsay_Sites";
    SqlText (inv_reason invalid) ].

Definition site_stmt (batch_id : string) (record : ValidRecord) : insert_stmt :=
  {| ins_table := "galamsay_sites"; ins_columns := site_columns;
     ins_values := site_values batch_id record |}.

Definition log_stmt (res : AnalysisResults) (batch_id : string) : insert_stmt :=
  {| ins_table := "analysis_log"; ins_columns := log_columns;
     ins_values := log_values res batch_id |}.

Definition invalid_stmt (batch_id : string) (invalid : InvalidRecord)
  : insert_stmt :=
  {| ins_table := "invalid_records"; ins_columns := invalid_columns;
     ins_values := invalid_values batch_id invalid |}.

Definition save_statements (res : AnalysisResults) (batch_id : string)
  : list insert_stmt :=
  (map (site_stmt batch_id) (valid_data res)
   ++ log_stmt res batch_id
   :: map (invalid_stmt batch_id) (invalid_records res))%list.

(** One statement, and a sequence of statements, on a database. *)
Definition run_insert (timestamp : string) (s : insert_stmt) (db : database)
  : result database :=
  _ <- bind_parameters (ins_values s) ;;
  insert_into (ins_table s) (ins_columns s) (ins_values s) timestamp db.

Fixpoint run_inserts (timestamp : string) (l : list insert_stmt)
    (db : database) : result database :=
  match l with
  | [] => Ok db
  | s :: l' => d <- run_insert timestamp s db ;; run_inserts timestamp l' d
  end.

Definition execute_stmt (timestamp : string) (s : insert_stmt) : action unit :=
  execute_insert (ins_table s) (ins_columns s) (ins_values s) timestamp.

Lemma for_each_app :
  forall (A : Type) (l1 l2 : list A) (body : A -> action unit) c,
    for_each (l1 ++ l2) body c
    = match for_each l1 body c with
      | (Ok _, c1) => for_each l2 body c1
      | (Raise e, c1) => (Raise e, c1)
      end.
Proof.
  intros A l1 l2 body. induction l1 as [|x l1 IH]; intros c; simpl.
  - reflexivity.
  - unfold and_then. destruct (body x c) as [[[]|e] c1].
    + rewrite IH. reflexivity.
    + reflexivity.
Qed.

Lemma for_each_map :
  forall (A B : Type) (f : A -> B) (l : list A) (body : B -> action unit) c,
    for_each (map f l) body c = for_each l (fun x => body (f x)) c.
Proof.
  intros A B f l body. induction l as [|x l IH]; intros c; simpl.
  - reflexivity.
  - unfold and_then. destruct (body (f x) c) as [[[]|e] c1]; auto.
Qed.

Lemma save_script_statements :
  forall res batch_id timestamp c,
    save_script res batch_id timestamp c
    = (for_each (save_statements res batch_id) (execute_stmt timestamp)
       >> commit) c.
Proof.
  intros res batch_id timestamp c.
  change (save_script res batch_id timestamp c)
    with ((for_each (valid_data res)
             (fun x => execute_stmt timestamp (site_stmt batch_id x))
           >> (execute_stmt timestamp (log_stmt res batch_id)
               >> (for_each (invalid_records res)
                     (fun x => execute_stmt timestamp
                                 (invalid_stmt batch_id x))
                   >> commit))) c).
  unfold save_statements, and_then.
  rewrite for_each_app, for_each_map.
  destruct (for_each (valid_data res) _ c) as [[[]|e] c1]; [|reflexivity].
  cbn [for_each]. unfold and_then.
  destruct (execute_stmt timestamp (log_stmt res batch_id) c1)
    as [[[]|e] c2]; [|reflexivity].
  rewrite for_each_map. reflexivity.
Qed.

Lemma execute_all_spec :
  forall timestamp l c,
    committed (snd (for_each l (execute_stmt timestamp) c)) = committed c
    /\ match run_inserts timestamp l (current c) with
       | Ok d =>
           fst (for_each l (execute_stmt timestamp) c) = Ok tt
           /\ current (snd (for_each l (execute_stmt timestamp) c)) = d
       | Raise e => fst (for_each l (execute_stmt timestamp) c) = Raise e
       end.
Proof.
  intros timestamp. induction l as [|s l IH]; intros c.
  - simpl. auto.
  - cbn [for_each run_inserts]. unfold and_then, execute_stmt at 1 3 5 7,
      execute_insert, run_insert.
    destruct (bind_parameters (ins_values s)) as [[]|e]; cbn [bind];
      [|simpl; auto].
    destruct (insert_into (ins_table s) (ins_columns s) (ins_values s)
                timestamp (current c)) as [d|e]; cbn [bind]; [|simpl; auto].
    specialize (IH {| committed := committed c; pending := Some d |}).
    cbn [current pending committed] in IH. exact IH.
Qed.

(** A save is the initialisation followed by its statements, all of them or
    none: the database that is left is the one after the last statement
    when none raises, and the one after the initialisation when one
    does. *)
Lemma save_analysis_statements :
  forall res now timestamp db,
    save_analysis_to_database res now timestamp db
    = match init_database db with
      | (Raise e, db1) => (Raise e, db1)
      | (Ok _, db1) =>
          match run_inserts timestamp
                  (save_statements res (generate_batch_id now)) db1 with
          | Ok d => (Ok (generate_batch_id now), d)
          | Raise e => (Raise e, db1)
          end
      end.
Proof.
  intros res now timestamp db. unfold save_analysis_to_database.
  destruct (init_database db) as [[[]|e] db1]; [|reflexivity].
  unfold with_db_connection. rewrite save_script_statements.
  set (l := save_statements res (generate_batch_id now)).
  set (c0 := {| committed := db1; pending := None |}).
  destruct (execute_all_spec timestamp l c0) as [Hc Hr].
  change (current c0) with db1 in Hr. unfold and_then.
  destruct (for_each l (execute_stmt timestamp) c0) as [r c1].
  cbn [fst snd] in *.
  destruct (run_inserts timestamp l db1) as [d|e].
  - destruct Hr as [-> Hd]. unfold commit, current in *.
    destruct (pending c1); cbn [committed]; now subst.
  - rewrite Hr. cbn [committed]. now rewrite Hc.
Qed.

(** *** What the initialisation leaves in place *)

(** [d] has the tables of [db] with their rows, and maybe further tables
    without rows. *)
Definition same_rows (db d : database) : Prop :=
  forall name,
    find_table d name = find_table db name
    \/ (find_table db name = None /\ rows_in d name = []).

Lemma same_rows_refl : forall db, same_rows db db.
Proof. intros db name. now left. Qed.

Lemma same_rows_trans :
  forall a b c, same_rows a b -> same_rows b c -> same_rows a c.
Proof.
  intros a b c Hab Hbc name.
  destruct (Hab name) as [H1 | [H1 H1']], (Hbc name) as [H2 | [H2 H2']].
  - left. congruence.
  - right. split; [congruence | exact H2'].
  - right. split; [exact H1|]. unfold rows_in in *. now rewrite H2.
  - right. split; [exact H1 | exact H2'].
Qed.

Lemma run_stmt_same_rows :
  forall s db d, run_stmt s db = Ok d -> same_rows db d.
Proof.
  intros [name columns | name tbl c] db d; simpl.
  - unfold create_table_if_not_exists.
    destruct (find_table db name) eqn:Et.
    + intros H. injection H as <-. apply same_rows_refl.
    + destruct (find_index db name); [discriminate|].
      intros H. injection H as <-. intros n.
      destruct (find_table db n) eqn:En.
      * left. unfold find_table in *. simpl.
        rewrite find_app_some; [exact En | now rewrite En].
      * right. split; [reflexivity|]. unfold rows_in, find_table in *.
        simpl. rewrite (find_app_none _ _ _ _ En). simpl.
        now destruct (same_name name n).
  - unfold create_index_if_not_exists.
    destruct (find_table db tbl) as [t|]; [|discriminate].
    destruct (find_table db name); [discriminate|].
    destruct (find_index db name).
    + intros H. injection H as <-. apply same_rows_refl.
    + destruct (has_column t c); [|discriminate].
      intros H. injection H as <-. intros n. now left.
Qed.

Lemma run_schema_same_rows :
  forall l db, same_rows db (snd (run_schema l db)).
Proof.
  induction l as [|s l IH]; intros db; simpl; [apply same_rows_refl|].
  destruct (run_stmt s db) as [d|e] eqn:E; [|apply same_rows_refl].
  eapply same_rows_trans; [eapply run_stmt_same_rows; exact E | apply IH].
Qed.

Lemma init_database_same_rows :
  forall db, same_rows db (snd (init_database db)).
Proof. intros db. rewrite init_database_run. apply run_schema_same_rows. Qed.

Lemma same_rows_rows_in :
  forall db d name, same_rows db d -> rows_in d name = rows_in db name.
Proof.
  intros db d name H. destruct (H name) as [E | [E E']].
  - unfold rows_in. now rewrite E.
  - rewrite E'. unfold rows_in. now rewrite E.
Qed.


(** *** What the statements of a save add *)







Definition targets (name : string) (s : insert_stmt) : bool :=
  same_name (ins_table s) name.









(** A batch whose total does not fit an SQLite integer: the statement of the
    log raises after the statements of the sites have run, and the store is
    left without a row. *)
Definition sample_results : AnalysisResults :=
  {| total_sites := 40;
     total_valid_records := 2;
     total_invalid_records := 1;
     region_with_highest_sites :=
       {| hr_region := "Ashanti"; hr_total_sites := 40 |};
     cities_above_threshold :=
       {| threshold := 10; count := 2; cities := firstn 2 test_data |};
     average_sites_per_region := [ ("Ashanti", float_of_Z 20) ];
     region_summary :=
       [ {| rs_region := "Ashanti"; rs_total_sites := 40; rs_city_count := 2;
            rs_average_sites := float_of_Z 20; rs_max_sites := 25;
            rs_min_sites := 15 |} ];
     invalid_records :=
       [ {| inv_row := 4; inv_data := mk_row "BadCity" "" "10";
            inv_reason := "Missing region" |} ];
     valid_data := firstn 2 test_data |}.

Definition overflowing_results : AnalysisResults :=
  {| total_sites := 2 ^ 63;
     total_valid_records := total_valid_records sample_results;
     total_invalid_records := total_invalid_records sample_results;
     region_with_highest_sites := region_with_highest_sites sample_results;
     cities_above_threshold := cities_above_threshold sample_results;
     average_sites_per_region := average_sites_per_region sample_results;
     region_summary := region_summary sample_results;
     invalid_records := invalid_records sample_results;
     valid_data := valid_data sample_results |}.

Definition noon : datetime :=
  {| year := 2025; month := 12; day := 3; hour := 12; minute := 0;
     second := 0; microsecond := 42 |}.

Example save_rolls_back :
  let '(r, db') :=
    save_analysis_to_database overflowing_results noon "2025-12-03 12:00:00"
      empty_database in
  r = Raise (OverflowError
               "Python int too large to convert to SQLite INTEGER")
  /\ map tbl_rows (db_tables db') = [ []; []; [] ].
Proof. vm_compute. split; reflexivity. Qed.

(** A second save at the same reading of the clock: the batch id is taken,
    the statement of the log raises, and the store keeps the first batch
    only. *)
Example save_same_batch_id :
  let '(_, db1) :=
    save_analysis_to_database sample_results noon "2025-12-03 12:00:00"
      empty_database in
  let '(r, db2) :=
    save_analysis_to_database sample_results noon "2025-12-03 12:00:00" db1 in
  r = Raise (IntegrityError "UNIQUE constraint failed: analysis_log")
  /\ db2 = db1
  /\ map (fun t => List.length (tbl_rows t)) (db_tables db1)
     = [ 2%nat; 1%nat; 1%nat ].
Proof. vm_compute. repeat split; reflexivity. Qed.

(** ** The JSON text: [json.loads] after [json.dumps] *)

Lemma append_assoc :
  forall a b c : string, ((a ++ b) ++ c = a ++ (b ++ c))%string.
Proof.
  induction a as [|x a IH]; intros b c; simpl; [reflexivity|].
  now rewrite IH.
Qed.

Lemma append_nil_r : forall a : string, (a ++ "")%string = a.
Proof. induction a as [|x a IH]; simpl; [reflexivity | now rewrite IH]. Qed.

Lemma length_append :
  forall a b : string,
    String.length (a ++ b) = (String.length a + String.length b)%nat.
Proof. induction a as [|x a IH]; intros b; simpl; [reflexivity | now rewrite IH]. Qed.

(** *** Strings *)

Lemma scan_string_char :
  forall c t t' rest,
    scan_string t = Some (t', rest) ->
    scan_string (escape_char c ++ t) = Some (String c t', rest).
Proof.
  intros c t t' rest H.
  destruct c as [[] [] [] [] [] [] [] []]; cbn; rewrite H; reflexivity.
Qed.

Lemma scan_string_escape :
  forall s rest,
    scan_string (escape s ++ String dquote rest) = Some (s, rest).
Proof.
  induction s as [|c s IH]; intros rest.
  - reflexivity.
  - cbn [escape]. rewrite append_assoc. apply scan_string_char. apply IH.
Qed.

Lemma quote_append :
  forall s rest,
    (quote s ++ rest)%string
    = String dquote (escape s ++ String dquote rest).
Proof.
  intros s rest. unfold quote. cbn [append]. now rewrite append_assoc.
Qed.

(** *** Tokens

    A token is followed by the end of the text or by one of the
    delimiters; what the scanners read of a token does not depend on what
    follows it. *)

Definition is_delim (c : ascii) : bool :=
  Ascii.eqb c ","%char || Ascii.eqb c "]"%char || Ascii.eqb c "}"%char.

Definition ends_token (rest : string) : Prop :=
  match rest with
  | EmptyString => True
  | String c _ => is_delim c = true
  end.

Lemma is_delim_cases :
  forall c, is_delim c = true -> c = ","%char \/ c = "]"%char \/ c = "}"%char.
Proof.
  intros c H. unfold is_delim in H.
  destruct (Ascii.eqb_spec c ","%char); [now left|].
  destruct (Ascii.eqb_spec c "]"%char); [now right; left|].
  destruct (Ascii.eqb_spec c "}"%char); [now right; right|].
  discriminate.
Qed.

Ltac delim_cases H :=
  apply is_delim_cases in H; destruct H as [-> | [-> | ->]].

Lemma skip_ws_token : forall rest, ends_token rest -> skip_ws rest = rest.
Proof.
  intros [|c r] H; [reflexivity|]. simpl in H. delim_cases H; reflexivity.
Qed.

Lemma starts_with_append :
  forall c s rest,
    ends_token rest -> is_delim c = false ->
    starts_with c (s ++ rest) = option_map (fun r => r ++ rest) (starts_with c s).
Proof.
  intros c [|a s] rest Hrest Hc; simpl.
  - destruct rest as [|d r]; [reflexivity|]. simpl in *.
    destruct (Ascii.eqb_spec d c) as [->|]; [congruence | reflexivity].
  - now destruct (Ascii.eqb a c).
Qed.

Lemma span_digits_append :
  forall s rest,
    ends_token rest ->
    span_digits (s ++ rest)
    = (fst (span_digits s), snd (span_digits s) ++ rest).
Proof.
  induction s as [|a s IH]; intros rest Hrest; simpl.
  - destruct rest as [|d r]; [reflexivity|]. simpl in *.
    delim_cases Hrest; reflexivity.
  - destruct (isdigit a); [|reflexivity].
    rewrite (IH rest Hrest). now destruct (span_digits s).
Qed.

Fixpoint no_delim (p : string) : bool :=
  match p with
  | EmptyString => true
  | String a p' => negb (is_delim a) && no_delim p'
  end.

Lemma after_prefix_append :
  forall p s rest,
    ends_token rest -> no_delim p = true ->
    after_prefix p (s ++ rest)
    = option_map (fun r => r ++ rest) (after_prefix p s).
Proof.
  induction p as [|a p IH]; intros s rest Hrest Hp; [reflexivity|].
  simpl in Hp. apply andb_prop in Hp. destruct Hp as [Ha Hp].
  destruct s as [|b s]; simpl.
  - destruct rest as [|d r]; [reflexivity|]. simpl in *.
    destruct (Ascii.eqb_spec a d) as [->|]; [|reflexivity].
    rewrite Hrest in Ha. discriminate.
  - destruct (Ascii.eqb a b); [now apply IH | reflexivity].
Qed.

Definition with_rest {A : Type} (rest : string) (r : option (A * string))
  : option (A * string) :=
  option_map (fun vr => (fst vr, snd vr ++ rest)) r.

Lemma scan_int_part_append :
  forall s rest,
    ends_token rest ->
    scan_int_part (s ++ rest) = with_rest rest (scan_int_part s).
Proof.
  intros [|c s] rest Hrest.
  - destruct rest as [|d r]; [reflexivity|]. simpl in *.
    delim_cases Hrest; reflexivity.
  - unfold scan_int_part. cbn [append].
    destruct (Ascii.eqb c "0"%char); [reflexivity|].
    destruct (isdigit c) eqn:Ec; [|reflexivity].
    change (String c (s ++ rest)) with (String c s ++ rest).
    rewrite (span_digits_append _ _ Hrest).
    now destruct (span_digits (String c s)).
Qed.

Lemma scan_frac_append :
  forall s rest,
    ends_token rest ->
    scan_frac (s ++ rest) = (fst (scan_frac s), snd (scan_frac s) ++ rest).
Proof.
  intros s rest Hrest. unfold scan_frac.
  rewrite (starts_with_append _ _ _ Hrest) by reflexivity.
  destruct (starts_with "."%char s) as [r|]; simpl; [|reflexivity].
  rewrite (span_digits_append _ _ Hrest).
  destruct (span_digits r) as [[|d ds] rr]; reflexivity.
Qed.

Lemma scan_exp_append :
  forall s rest,
    ends_token rest ->
    scan_exp (s ++ rest) = (fst (scan_exp s), snd (scan_exp s) ++ rest).
Proof.
  intros [|c s] rest Hrest.
  - destruct rest as [|d r]; [reflexivity|]. simpl in *.
    delim_cases Hrest; reflexivity.
  - cbn [append scan_exp].
    destruct (Ascii.eqb c "e"%char || Ascii.eqb c "E"%char); [|reflexivity].
    rewrite !(starts_with_append _ _ _ Hrest) by reflexivity.
    destruct (starts_with "-"%char s) as [t|]; cbn [option_map].
    + rewrite (span_digits_append _ _ Hrest).
      destruct (span_digits t) as [[|d ds] rr]; reflexivity.
    + destruct (starts_with "+"%char s) as [t|]; cbn [option_map];
        rewrite (span_digits_append _ _ Hrest);
        match goal with
        | |- context [span_digits ?x] =>
            destruct (span_digits x) as [[|d ds] rr]; reflexivity
        end.
Qed.

Lemma scan_number_append :
  forall s rest,
    ends_token rest ->
    scan_number (s ++ rest) = with_rest rest (scan_number s).
Proof.
  intros s rest Hrest. unfold scan_number.
  rewrite (starts_with_append _ _ _ Hrest) by reflexivity.
  assert (Hbody : forall neg s1,
             match scan_int_part (s1 ++ rest) with
             | None => None
             | Some (ip, s2) =>
                 let '(frac, s3) := scan_frac s2 in
                 let '(ex, s4) := scan_exp s3 in
                 match frac, ex with
                 | None, None =>
                     Some (PInt (if neg : bool then - digits_value ip
                                 else digits_value ip), s4)
                 | _, _ =>
                     let fd := match frac with Some ds => ds | None => "" end in
                     let e := match ex with Some e => e | None => 0 end in
                     Some (PFloat (float_of_decimal neg
                                     (digits_value (ip ++ fd)) (e - slen fd)),
                           s4)
                 end
             end
             = with_rest rest
                 match scan_int_part s1 with
                 | None => None
                 | Some (ip, s2) =>
                     let '(frac, s3) := scan_frac s2 in
                     let '(ex, s4) := scan_exp s3 in
                     match frac, ex with
                     | None, None =>
                         Some (PInt (if neg : bool then - digits_value ip
                                     else digits_value ip), s4)
                     | _, _ =>
                         let fd :=
                           match frac with Some ds => ds | None => "" end in
                         let e := match ex with Some e => e | None => 0 end in
                         Some (PFloat (float_of_decimal neg
                                         (digits_value (ip ++ fd))
                                         (e - slen fd)), s4)
                     end
                 end).
  { intros neg s1. rewrite (scan_int_part_append _ _ Hrest).
    destruct (scan_int_part s1) as [[ip s2]|]; [|reflexivity].
    cbn [with_rest option_map fst snd].
    rewrite (scan_frac_append _ _ Hrest).
    destruct (scan_frac s2) as [frac s3]. cbn [fst snd].
    rewrite (scan_exp_append _ _ Hrest).
    destruct (scan_exp s3) as [ex s4]. cbn [fst snd].
    destruct frac, ex; reflexivity. }
  destruct (starts_with "-"%char s) as [r|]; cbn [option_map]; apply Hbody.
Qed.

Lemma scan_constant_append :
  forall s rest,
    ends_token rest ->
    scan_constant (s ++ rest) = with_rest rest (scan_constant s).
Proof.
  intros s rest Hrest. unfold scan_constant.
  rewrite !(after_prefix_append _ _ _ Hrest) by reflexivity.
  repeat match goal with
         | |- context [after_prefix ?p s] =>
             destruct (after_prefix p s); [reflexivity|]; cbn [option_map]
         end.
  apply scan_number_append. exact Hrest.
Qed.

(** *** Integers *)

Fixpoint all_digits (s : string) : bool :=
  match s with
  | EmptyString => true
  | String c s' => isdigit c && all_digits s'
  end.

Lemma string_of_uint_digits :
  forall u, all_digits (NilEmpty.string_of_uint u) = true.
Proof. induction u; simpl; auto. Qed.

Lemma span_digits_all :
  forall s, all_digits s = true -> span_digits s = (s, EmptyString).
Proof.
  induction s as [|c s IH]; simpl; intros H; [reflexivity|].
  apply andb_prop in H. destruct H as [Hc Hs]. rewrite Hc, (IH Hs).
  reflexivity.
Qed.

Lemma to_uint_no_leading_zero :
  forall p u, Pos.to_uint p <> Decimal.D0 u.
Proof.
  intros p u H.
  assert (Hn : Decimal.unorm (Pos.to_uint p) = Pos.to_uint p).
  { rewrite <- DecimalPos.Unsigned.to_of, DecimalPos.Unsigned.of_to.
    reflexivity. }
  rewrite H in Hn. unfold Decimal.unorm in Hn.
  rewrite DecimalFacts.nzhead_D0 in Hn.
  destruct (Decimal.nzhead u) eqn:E;
    try (apply (DecimalFacts.nzhead_nonzero u u); congruence).
  injection Hn as <-. apply (DecimalPos.Unsigned.to_uint_nonzero p). exact H.
Qed.

Lemma digits_value_to_uint :
  forall p, digits_value (NilEmpty.string_of_uint (Pos.to_uint p)) = Zpos p.
Proof.
  intros p. unfold digits_value.
  assert (Hs : NilZero.uint_of_string
                 (NilEmpty.string_of_uint (Pos.to_uint p))
               = Some (Pos.to_uint p)).
  { pose proof (NilZero.usu (Pos.to_uint p)
                  (DecimalPos.Unsigned.to_uint_nonnil p)) as H.
    unfold NilZero.string_of_uint in H.
    destruct (Pos.to_uint p) eqn:E; try exact H.
    now apply DecimalPos.Unsigned.to_uint_nonnil in E. }
  rewrite Hs. unfold Z.of_uint.
  now rewrite DecimalPos.Unsigned.of_to.
Qed.

Lemma py_str_pos :
  forall p, py_str (Zpos p) = NilEmpty.string_of_uint (Pos.to_uint p).
Proof.
  intros p. unfold py_str. simpl.
  destruct (Pos.to_uint p) eqn:E; try reflexivity.
  now apply DecimalPos.Unsigned.to_uint_nonnil in E.
Qed.

Lemma py_str_neg :
  forall p,
    py_str (Zneg p)
    = String "-"%char (NilEmpty.string_of_uint (Pos.to_uint p)).
Proof.
  intros p. unfold py_str. simpl.
  destruct (Pos.to_uint p) eqn:E; try reflexivity.
  now apply DecimalPos.Unsigned.to_uint_nonnil in E.
Qed.

(** The digits of a positive number read as that number. *)
Lemma scan_digits_pos :
  forall p,
    let s := NilEmpty.string_of_uint (Pos.to_uint p) in
    scan_int_part s = Some (s, EmptyString)
    /\ digits_value s = Zpos p
    /\ (exists c s', s = String c s' /\ isdigit c = true).
Proof.
  intros p s. subst s.
  pose proof (string_of_uint_digits (Pos.to_uint p)) as Hd.
  pose proof (digits_value_to_uint p) as Hv.
  pose proof (to_uint_no_leading_zero p) as Hz.
  pose proof (DecimalPos.Unsigned.to_uint_nonnil p) as Hn.
  destruct (Pos.to_uint p) as [|u|u|u|u|u|u|u|u|u|u];
    [contradiction | exfalso; now apply (Hz u) | ..];
    (split; [|split; [exact Hv | eexists; eexists; split; reflexivity]]);
    cbn [NilEmpty.string_of_uint] in *;
    unfold scan_int_part; cbn [Ascii.eqb Bool.eqb];
    rewrite (span_digits_all _ Hd); reflexivity.
Qed.

Lemma scan_constant_int :
  forall n, scan_constant (py_str n) = Some (PInt n, EmptyString).
Proof.
  intros [|p|p].
  - reflexivity.
  - rewrite py_str_pos.
    destruct (scan_digits_pos p) as (Hi & Hv & c & s' & Hs & Hc).
    revert Hi Hv. rewrite Hs. intros Hi Hv.
    unfold scan_constant.
    destruct c as [[] [] [] [] [] [] [] []]; try discriminate Hc;
      cbn [after_prefix Ascii.eqb Bool.eqb];
      unfold scan_number; cbn [starts_with Ascii.eqb Bool.eqb];
      rewrite Hi; cbn; rewrite Hv; reflexivity.
  - rewrite py_str_neg.
    destruct (scan_digits_pos p) as (Hi & Hv & c & s' & Hs & Hc).
    revert Hi Hv. rewrite Hs. intros Hi Hv.
    unfold scan_constant.
    destruct c as [[] [] [] [] [] [] [] []]; try discriminate Hc;
      cbn [after_prefix Ascii.eqb Bool.eqb];
      unfold scan_number; cbn [starts_with Ascii.eqb Bool.eqb];
      rewrite Hi; cbn; rewrite Hv; reflexivity.
Qed.

(** *** Values *)

(** The text of a float reads back as the float.  It does for every float,
    by the contract of [repr]; for a given float it is a computation. *)
Definition float_round_trips (x : float) : bool :=
  match parse_value 1 (float_text x) with
  | Some (PFloat y, EmptyString) => float_eqb y x
  | _ => false
  end.

Definition all_ok (ok : pyval -> Prop) : list pyval -> Prop :=
  fix all (l : list pyval) : Prop :=
    match l with
    | [] => True
    | v :: l' => ok v /\ all l'
    end.

Definition all_ok_members (ok : pyval -> Prop)
  : list (string * pyval) -> Prop :=
  fix all (d : list (string * pyval)) : Prop :=
    match d with
    | [] => True
    | (_, v) :: d' => ok v /\ all d'
    end.

(** The values that a document gives back: the floats read back, and the
    keys of a dict are distinct. *)
Fixpoint json_ok (v : pyval) : Prop :=
  match v with
  | PFloat x => float_round_trips x = true
  | PList l => all_ok json_ok l
  | PDict d => NoDup (keys d) /\ all_ok_members json_ok d
  | _ => True
  end.

Definition size_items (size : pyval -> nat) : list pyval -> nat :=
  fix sz (l : list pyval) : nat :=
    match l with
    | [] => O
    | v :: l' => S (size v + sz l')
    end.

Definition size_members (size : pyval -> nat)
  : list (string * pyval) -> nat :=
  fix sz (d : list (string * pyval)) : nat :=
    match d with
    | [] => O
    | (_, v) :: d' => S (size v + sz d')
    end.

Fixpoint size (v : pyval) : nat :=
  match v with
  | PList l => S (size_items size l)
  | PDict d => S (size_members size d)
  | _ => 1
  end.

Definition dumps_items : list pyval -> string :=
  fix items (l : list pyval) : string :=
    match l with
    | [] => ""
    | [v] => json_dumps v
    | v :: l' => json_dumps v ++ ", " ++ items l'
    end.

Definition dumps_members : list (string * pyval) -> string :=
  fix members (d : list (string * pyval)) : string :=
    match d with
    | [] => ""
    | [(k, v)] => quote k ++ ": " ++ json_dumps v
    | (k, v) :: d' => quote k ++ ": " ++ json_dumps v ++ ", " ++ members d'
    end.

Lemma list_text :
  forall l rest,
    (json_dumps (PList l) ++ rest)%string
    = String "["%char (dumps_items l ++ String "]"%char rest).
Proof.
  intros l rest.
  change (json_dumps (PList l)) with ("[" ++ dumps_items l ++ "]")%string.
  cbn [append]. now rewrite append_assoc.
Qed.

Lemma dict_text :
  forall d rest,
    (json_dumps (PDict d) ++ rest)%string
    = String "{"%char (dumps_members d ++ String "}"%char rest).
Proof.
  intros d rest.
  change (json_dumps (PDict d)) with ("{" ++ dumps_members d ++ "}")%string.
  cbn [append]. now rewrite append_assoc.
Qed.

Lemma items_text :
  forall v l rest,
    (dumps_items (v :: l) ++ rest)%string
    = (json_dumps v
       ++ match l with
          | [] => rest
          | _ :: _ => String ","%char (String " "%char (dumps_items l ++ rest))
          end)%string.
Proof.
  intros v [|v' l] rest; [reflexivity|].
  change (dumps_items (v :: v' :: l))
    with (json_dumps v ++ ", " ++ dumps_items (v' :: l))%string.
  now rewrite !append_assoc.
Qed.

Lemma members_text :
  forall k v d rest,
    (dumps_members ((k, v) :: d) ++ rest)%string
    = String dquote
        (escape k
         ++ String dquote
              (String ":"%char
                 (String " "%char
                    (json_dumps v
                     ++ match d with
                        | [] => rest
                        | _ :: _ =>
                            String ","%char
                              (String " "%char (dumps_members d ++ rest))
                        end))))%string.
Proof.
  intros k v [|[k' v'] d] rest.
  - change (dumps_members [(k, v)])
      with (quote k ++ ": " ++ json_dumps v)%string.
    rewrite append_assoc, quote_append. cbn [append].
    now rewrite ?append_assoc.
  - change (dumps_members ((k, v) :: (k', v') :: d))
      with (quote k ++ ": " ++ json_dumps v ++ ", "
            ++ dumps_members ((k', v') :: d))%string.
    rewrite append_assoc, quote_append. cbn [append].
    now rewrite ?append_assoc.
Qed.

Lemma float_eqb_eq : forall x y, float_eqb x y = true -> x = y.
Proof.
  intros [s| s| |s m e] [s'| s'| |s' m' e']; simpl; try discriminate;
    intros H; try reflexivity.
  - apply Bool.eqb_prop in H. now subst.
  - apply Bool.eqb_prop in H. now subst.
  - apply andb_prop in H. destruct H as [H He].
    apply andb_prop in H. destruct H as [Hs Hm].
    apply Bool.eqb_prop in Hs. apply Pos.eqb_eq in Hm. apply Z.eqb_eq in He.
    now subst.
Qed.

(** The first character of a value: not whitespace, and not an end of an
    array or of an object. *)
Definition value_start (c : ascii) : bool :=
  negb (is_ws c) && negb (Ascii.eqb c "]"%char)
  && negb (Ascii.eqb c "}"%char) && negb (Ascii.eqb c ","%char).

Lemma scan_constant_start :
  forall c r x, scan_constant (String c r) = Some x -> value_start c = true.
Proof.
  intros c r x H.
  destruct c as [[] [] [] [] [] [] [] []]; try reflexivity;
    cbn in H; discriminate.
Qed.

Definition is_scalar (v : pyval) : bool :=
  match v with
  | PNone | PBool _ | PInt _ | PFloat _ => true
  | _ => false
  end.

(** A token that [parse_value] reads alone, it reads before a delimiter. *)
Lemma parse_token :
  forall tok v n rest,
    parse_value 1 tok = Some (v, EmptyString) ->
    is_scalar v = true ->
    ends_token rest ->
    parse_value (S n) (tok ++ rest) = Some (v, rest)
    /\ exists c r, tok = String c r /\ value_start c = true.
Proof.
  intros tok v n rest H Hv Hrest.
  destruct tok as [|c r]; [discriminate|].
  cbn [parse_value append] in *.
  destruct (Ascii.eqb c dquote).
  { destruct (scan_string r) as [[t rr]|]; [|discriminate].
    injection H as <- _. discriminate. }
  destruct (Ascii.eqb c "["%char).
  { destruct (starts_with "]"%char (skip_ws r)); [|discriminate].
    injection H as <- _. discriminate. }
  destruct (Ascii.eqb c "{"%char).
  { destruct (starts_with "}"%char (skip_ws r)); [|discriminate].
    injection H as <- _. discriminate. }
  split.
  - change (String c (r ++ rest)) with (String c r ++ rest)%string.
    rewrite (scan_constant_append _ _ Hrest), H. reflexivity.
  - exists c, r. split; [reflexivity|]. eapply scan_constant_start; exact H.
Qed.

Lemma parse_value_int :
  forall n, parse_value 1 (py_str n) = Some (PInt n, EmptyString).
Proof.
  intros n. pose proof (scan_constant_int n) as H.
  destruct (py_str n) as [|c r] eqn:E; [discriminate|].
  cbn [parse_value].
  assert (Hc : isdigit c = true \/ c = "-"%char).
  { destruct n as [|p|p].
    - left. now injection E as <- _.
    - rewrite py_str_pos in E.
      destruct (scan_digits_pos p) as (_ & _ & c' & s' & Hs & Hc').
      rewrite Hs in E. injection E as <- _. now left.
    - rewrite py_str_neg in E. injection E as <- _. now right. }
  destruct Hc as [Hc | ->]; [|exact H].
  destruct c as [[] [] [] [] [] [] [] []]; try discriminate Hc; exact H.
Qed.

(** The token of a scalar. *)
Lemma scalar_token :
  forall v,
    is_scalar v = true -> json_ok v ->
    parse_value 1 (json_dumps v) = Some (v, EmptyString).
Proof.
  intros [| [] | n | x | s | l | d] Hs Hok; try discriminate Hs;
    try reflexivity.
  - apply parse_value_int.
  - simpl in Hok. unfold float_round_trips in Hok.
    change (json_dumps (PFloat x)) with (float_text x).
    destruct (parse_value 1 (float_text x)) as [[[] [|]]|];
      try discriminate Hok.
    apply float_eqb_eq in Hok. now subst.
Qed.

Lemma dumps_start :
  forall v, json_ok v ->
            exists c r, json_dumps v = String c r /\ value_start c = true.
Proof.
  intros v Hok. destruct (is_scalar v) eqn:Hs.
  - destruct (parse_token _ _ 0 EmptyString (scalar_token v Hs Hok) Hs I)
      as [_ H].
    exact H.
  - destruct v as [| b | n | x | s | l | d]; try discriminate Hs.
    + eexists; eexists. split; [reflexivity|]. reflexivity.
    + eexists; eexists. split; [reflexivity|]. reflexivity.
    + eexists; eexists. split; [reflexivity|]. reflexivity.
Qed.

Lemma skip_ws_start :
  forall c r, value_start c = true -> skip_ws (String c r) = String c r.
Proof.
  intros c r H. unfold value_start in H. simpl.
  destruct (is_ws c); [discriminate | reflexivity].
Qed.

Lemma starts_with_start :
  forall c r d,
    value_start c = true -> is_delim d = true ->
    starts_with d (String c r) = None.
Proof.
  intros c r d H Hd. simpl.
  destruct (Ascii.eqb_spec c d) as [->|]; [|reflexivity].
  delim_cases Hd; discriminate.
Qed.

Lemma dict_set_fresh :
  forall (V : Type) (d : dict V) k v,
    ~ In k (keys d) -> dict_set d k v = (d ++ [(k, v)])%list.
Proof.
  intros V d k v. induction d as [|[k' v'] d IH]; simpl; intros H;
    [reflexivity|].
  destruct (String.eqb_spec k' k) as [->|]; [tauto|].
  rewrite IH; [reflexivity | tauto].
Qed.

Lemma dict_of_pairs_distinct :
  forall (V : Type) (d : dict V), NoDup (keys d) -> dict_of_pairs d = d.
Proof.
  intros V d H. unfold dict_of_pairs.
  assert (Hgen : forall acc : dict V,
             NoDup (keys (acc ++ d)%list) ->
             fold_left (fun a kv => dict_set a (fst kv) (snd kv)) d acc
             = (acc ++ d)%list).
  { clear H. induction d as [|[k v] d IH]; intros acc Hnd; simpl.
    - now rewrite List.app_nil_r.
    - rewrite dict_set_fresh.
      + rewrite IH; rewrite <- app_assoc; [reflexivity | exact Hnd].
      + unfold keys in Hnd. rewrite map_app in Hnd. simpl in Hnd.
        apply NoDup_remove_2 in Hnd. intros Hin. apply Hnd.
        apply in_or_app. now left. }
  apply (Hgen []). exact H.
Qed.

Definition starts_value (s : string) : Prop :=
  exists c r, s = String c r /\ value_start c = true.

Lemma skip_ws_value : forall s, starts_value s -> skip_ws s = s.
Proof. intros s (c & r & -> & H). now apply skip_ws_start. Qed.

Lemma starts_with_value :
  forall s d, starts_value s -> is_delim d = true -> starts_with d s = None.
Proof. intros s d (c & r & -> & H) Hd. now apply starts_with_start. Qed.

Lemma starts_value_append :
  forall s t, starts_value s -> starts_value (s ++ t).
Proof. intros s t (c & r & -> & H). exists c, (r ++ t)%string. now split. Qed.

Lemma dumps_starts_value : forall v, json_ok v -> starts_value (json_dumps v).
Proof. intros v H. apply dumps_start. exact H. Qed.

Lemma items_start :
  forall v l t,
    json_ok v -> starts_value (dumps_items (v :: l) ++ t).
Proof.
  intros v l t H. rewrite items_text.
  apply starts_value_append, dumps_starts_value, H.
Qed.

Lemma members_start :
  forall k v d t, starts_value (dumps_members ((k, v) :: d) ++ t).
Proof.
  intros k v d t. rewrite members_text. eexists; eexists.
  split; reflexivity.
Qed.

Lemma skip_ws_space :
  forall s, skip_ws (String " "%char s) = skip_ws s.
Proof. reflexivity. Qed.

Lemma skip_ws_delim :
  forall c s, is_ws c = false -> skip_ws (String c s) = String c s.
Proof. intros c s H. simpl. now rewrite H. Qed.

Lemma starts_with_same :
  forall c s, starts_with c (String c s) = Some s.
Proof. intros c s. simpl. now rewrite Ascii.eqb_refl. Qed.

Lemma starts_with_other :
  forall c d s, Ascii.eqb d c = false -> starts_with c (String d s) = None.
Proof. intros c d s H. simpl. now rewrite H. Qed.

Lemma size_pos : forall v, (1 <= size v)%nat.
Proof. intros []; simpl; lia. Qed.

Lemma parse_dumps :
  forall n,
    (forall v rest,
        (size v <= n)%nat -> json_ok v -> ends_token rest ->
        parse_value n (json_dumps v ++ rest) = Some (v, rest))
    /\ (forall l acc rest,
           l <> [] -> (size_items size l <= n)%nat -> all_ok json_ok l ->
           ends_token rest ->
           parse_items n (dumps_items l ++ String "]"%char rest) acc
           = Some ((acc ++ l)%list, rest))
    /\ (forall d acc rest,
           d <> [] -> (size_members size d <= n)%nat ->
           all_ok_members json_ok d ->
           ends_token rest ->
           parse_members n (dumps_members d ++ String "}"%char rest) acc
           = Some ((acc ++ d)%list, rest)).
Proof.
  induction n as [|n (IHv & IHi & IHm)].
  { repeat split.
    - intros v rest H. pose proof (size_pos v). lia.
    - intros [|v l] acc rest Hl H; [contradiction | simpl in H; lia].
    - intros [|[k v] d] acc rest Hd H; [contradiction | simpl in H; lia]. }
  repeat split.
  - (* values *)
    intros v rest Hsz Hok Hrest. destruct (is_scalar v) eqn:Hs.
    { apply (proj1 (parse_token _ _ n rest (scalar_token v Hs Hok) Hs Hrest)). }
    destruct v as [| b | z | x | s | l | d]; try discriminate Hs.
    + change (json_dumps (PStr s)) with (quote s). rewrite quote_append.
      cbn [parse_value]. change (Ascii.eqb dquote dquote) with true.
      cbn iota. now rewrite scan_string_escape.
    + rewrite list_text. cbn [parse_value].
      change (Ascii.eqb "["%char dquote) with false.
      change (Ascii.eqb "["%char "["%char) with true. cbn iota.
      destruct l as [|v0 l']; [reflexivity|].
      destruct Hok as [Hv0 Hl'].
      set (l1 := v0 :: l') in *.
      assert (Hstart : starts_value (dumps_items l1 ++ String "]"%char rest))
        by (apply items_start; exact Hv0).
      rewrite (skip_ws_value _ Hstart).
      rewrite (starts_with_value _ _ Hstart) by reflexivity.
      rewrite (IHi l1 [] rest); [reflexivity | discriminate | | | exact Hrest].
      * simpl in Hsz. simpl. lia.
      * split; assumption.
    + rewrite dict_text. cbn [parse_value].
      change (Ascii.eqb "{"%char dquote) with false.
      change (Ascii.eqb "{"%char "["%char) with false.
      change (Ascii.eqb "{"%char "{"%char) with true. cbn iota.
      destruct d as [|[k0 v0] d']; [reflexivity|].
      destruct Hok as [Hnd Hall].
      set (d1 := (k0, v0) :: d') in *.
      assert (Hstart : starts_value (dumps_members d1 ++ String "}"%char rest))
        by apply members_start.
      rewrite (skip_ws_value _ Hstart).
      rewrite (starts_with_value _ _ Hstart) by reflexivity.
      rewrite (IHm d1 [] rest);
        [| discriminate | simpl in Hsz; simpl; lia | exact Hall | exact Hrest].
      cbn [app]. now rewrite (dict_of_pairs_distinct _ _ Hnd).
  - (* items *)
    intros [|v l] acc rest Hne Hsz Hok Hrest; [contradiction|].
    destruct Hok as [Hv Hl].
    rewrite items_text. cbn [parse_items].
    assert (Hszv : (size v <= n)%nat) by (simpl in Hsz; lia).
    destruct l as [|v' l'].
    + rewrite (IHv v _ Hszv Hv) by reflexivity.
      rewrite skip_ws_delim, starts_with_same by reflexivity. reflexivity.
    + set (l1 := v' :: l') in *.
      rewrite (IHv v _ Hszv Hv) by reflexivity.
      rewrite skip_ws_delim by reflexivity.
      rewrite starts_with_other, starts_with_same by reflexivity.
      assert (Hstart : starts_value (dumps_items l1 ++ String "]"%char rest))
        by (apply items_start; apply Hl).
      rewrite skip_ws_space, (skip_ws_value _ Hstart).
      rewrite (IHi l1 (acc ++ [v])%list rest);
        [| discriminate | simpl in Hsz; simpl; lia | exact Hl | exact Hrest].
      now rewrite <- app_assoc.
  - (* members *)
    intros [|[k v] d] acc rest Hne Hsz Hok Hrest; [contradiction|].
    destruct Hok as [Hv Hd].
    rewrite members_text. cbn [parse_members].
    rewrite starts_with_same, scan_string_escape.
    rewrite skip_ws_delim, starts_with_same, skip_ws_space by reflexivity.
    assert (Hszv : (size v <= n)%nat) by (simpl in Hsz; lia).
    rewrite skip_ws_value
      by (apply starts_value_append, dumps_starts_value, Hv).
    destruct d as [|[k' v'] d'].
    + rewrite (IHv v _ Hszv Hv) by reflexivity.
      rewrite skip_ws_delim, starts_with_same by reflexivity. reflexivity.
    + set (d1 := (k', v') :: d') in *.
      rewrite (IHv v _ Hszv Hv) by reflexivity.
      rewrite skip_ws_delim by reflexivity.
      rewrite starts_with_other, starts_with_same by reflexivity.
      assert (Hstart : starts_value (dumps_members d1 ++ String "}"%char rest))
        by apply members_start.
      rewrite skip_ws_space, (skip_ws_value _ Hstart).
      rewrite (IHm d1 (acc ++ [(k, v)])%list rest);
        [| discriminate | simpl in Hsz; simpl; lia | exact Hd | exact Hrest].
      now rewrite <- app_assoc.
Qed.

Lemma text_nonempty :
  forall v, json_ok v -> (1 <= String.length (json_dumps v))%nat.
Proof.
  intros v H. destruct (dumps_start v H) as (c & r & -> & _). simpl. lia.
Qed.

Lemma size_le_length_items :
  forall l,
    all_ok (fun v => json_ok v /\ (size v <= String.length (json_dumps v))%nat)
      l ->
    (size_items size l <= String.length (dumps_items l) + 1)%nat.
Proof.
  induction l as [|v l IH]; intros H; [simpl; lia|].
  destruct H as [[Hok Hv] Hl]. specialize (IH Hl).
  destruct l as [|v' l'].
  - simpl in *. lia.
  - change (dumps_items (v :: v' :: l'))
      with (json_dumps v ++ ", " ++ dumps_items (v' :: l'))%string.
    rewrite !length_append.
    change (size_items size (v :: v' :: l'))
      with (S (size v + size_items size (v' :: l'))).
    simpl String.length at 2. lia.
Qed.

Lemma size_le_length_members :
  forall d,
    all_ok_members
      (fun v => json_ok v /\ (size v <= String.length (json_dumps v))%nat) d ->
    (size_members size d <= String.length (dumps_members d) + 1)%nat.
Proof.
  induction d as [|[k v] d IH]; intros H; [simpl; lia|].
  destruct H as [[Hok Hv] Hd]. specialize (IH Hd).
  destruct d as [|[k' v'] d'].
  - change (dumps_members [(k, v)])
      with (quote k ++ ": " ++ json_dumps v)%string.
    rewrite !length_append. simpl in *. lia.
  - change (dumps_members ((k, v) :: (k', v') :: d'))
      with (quote k ++ ": " ++ json_dumps v ++ ", "
            ++ dumps_members ((k', v') :: d'))%string.
    rewrite !length_append.
    change (size_members size ((k, v) :: (k', v') :: d'))
      with (S (size v + size_members size ((k', v') :: d'))).
    simpl String.length at 2 4. lia.
Qed.

Lemma size_le_length :
  forall v, json_ok v -> (size v <= String.length (json_dumps v))%nat.
Proof.
  fix IH 1. intros v Hok.
  destruct v as [| b | n | x | s | l | d];
    try (apply (text_nonempty _ Hok)).
  - change (json_dumps (PList l)) with ("[" ++ dumps_items l ++ "]")%string.
    cbn [append String.length]. rewrite length_append.
    change (size (PList l)) with (S (size_items size l)).
    assert (Hl : all_ok
                   (fun v => json_ok v
                             /\ (size v <= String.length (json_dumps v))%nat)
                   l).
    { simpl in Hok. clear - IH Hok. induction l as [|v l IHl]; [exact I|].
      destruct Hok as [Hv Hl]. split; [split; [exact Hv | now apply IH]|].
      now apply IHl. }
    pose proof (size_le_length_items l Hl). simpl String.length. lia.
  - change (json_dumps (PDict d)) with ("{" ++ dumps_members d ++ "}")%string.
    cbn [append String.length]. rewrite length_append.
    change (size (PDict d)) with (S (size_members size d)).
    assert (Hd : all_ok_members
                   (fun v => json_ok v
                             /\ (size v <= String.length (json_dumps v))%nat)
                   d).
    { destruct Hok as [_ Hok]. clear - IH Hok.
      induction d as [|[k v] d IHd]; [exact I|].
      destruct Hok as [Hv Hd]. split; [split; [exact Hv | now apply IH]|].
      now apply IHd. }
    pose proof (size_le_length_members d Hd). simpl String.length. lia.
Qed.

(** Reading the text that [json.dumps] writes gives the value back. *)
Lemma json_round_trip :
  forall v, json_ok v -> json_loads (json_dumps v) = Ok v.
Proof.
  intros v Hok. unfold json_loads.
  rewrite (skip_ws_value _ (dumps_starts_value v Hok)).
  pose proof (proj1 (parse_dumps (S (String.length (json_dumps v))))
                v EmptyString) as H.
  rewrite append_nil_r in H. rewrite H; [reflexivity | | exact Hok | exact I].
  pose proof (size_le_length v Hok). lia.
Qed.

(** ** Reading a batch back: [get_analysis_by_batch_id] *)

Lemma run_inserts_app :
  forall timestamp l1 l2 db,
    run_inserts timestamp (l1 ++ l2) db
    = (d <- run_inserts timestamp l1 db ;; run_inserts timestamp l2 d).
Proof.
  intros timestamp. induction l1 as [|s l1 IH]; intros l2 db; simpl.
  - reflexivity.
  - destruct (run_insert timestamp s db) as [d|e]; simpl; [apply IH|].
    reflexivity.
Qed.

Lemma run_insert_untouched :
  forall timestamp s db d name,
    targets name s = false ->
    run_insert timestamp s db = Ok d ->
    find_table d name = find_table db name.
Proof.
  intros timestamp s db d name Ht H. unfold run_insert in H.
  destruct (bind_parameters (ins_values s)) as [[]|e]; cbn [bind] in H;
    [|discriminate].
  destruct (insert_into_ok _ _ _ _ _ _ H) as (t & _ & _ & _ & Hfind).
  rewrite Hfind. unfold targets in Ht. now rewrite Ht.
Qed.

Lemma run_inserts_untouched :
  forall timestamp l db d name,
    (forall s, In s l -> targets name s = false) ->
    run_inserts timestamp l db = Ok d ->
    find_table d name = find_table db name.
Proof.
  intros timestamp. induction l as [|s l IH]; intros db d name Hl H;
    simpl in H.
  - now injection H as <-.
  - destruct (run_insert timestamp s db) as [d1|e] eqn:E; cbn [bind] in H;
      [|discriminate].
    rewrite (IH d1 d name) by (auto using in_cons).
    apply (run_insert_untouched timestamp s); [|exact E].
    apply Hl. now left.
Qed.





Lemma run_schema_done :
  forall l db d,
    tables_first l -> run_schema l db = (Ok tt, d) ->
    Forall (fun s => done s d) l.
Proof.
  induction l as [|s l IH]; intros db d Hord H; simpl in H; [constructor|].
  destruct Hord as [Hs Hord].
  destruct (run_stmt s db) as [d1|e] eqn:E; [|discriminate].
  constructor; [|now apply (IH d1)].
  pose proof (run_stmt_done _ _ _ E) as Hdone.
  clear E IH. revert d1 H Hdone. induction l as [|s' l IHl];
    intros d1 H Hdone; simpl in H.
  - now injection H as <-.
  - inversion Hs as [|? ? Hk Hs']; subst. destruct Hord as [_ Hord].
    destruct (run_stmt s' d1) as [d2|e] eqn:E'; [|discriminate].
    apply (IHl Hs' Hord d2 H).
    eapply run_stmt_keeps_done; eassumption.
Qed.


Lemma insert_into_unique :
  forall tbl columns values timestamp db d t,
    insert_into tbl columns values timestamp db = Ok d ->
    find_table db tbl = Some t ->
    violates_unique t (new_row t (combine columns values) timestamp) = false.
Proof.
  intros tbl columns values timestamp db d t H Et. unfold insert_into in H.
  rewrite Et in H.
  destruct (forallb (has_column t) columns); cbn [negb] in H; [|discriminate].
  destruct (2 ^ 63 - 1 <=? tbl_sequence t); [discriminate|].
  destruct (violates_not_null t _); [discriminate|].
  destruct (violates_unique t _); [discriminate | reflexivity].
Qed.

(** The floats of a batch read back from their text. *)
Definition json_safe (res : AnalysisResults) : bool :=
  forallb (fun kv => float_round_trips (snd kv))
    (average_sites_per_region res)
  && forallb (fun s => float_round_trips (rs_average_sites s))
       (region_summary res).

Lemma averages_value_ok :
  forall d : dict float,
    NoDup (keys d) ->
    forallb (fun kv => float_round_trips (snd kv)) d = true ->
    json_ok (averages_value d).
Proof.
  intros d Hnd Hf. unfold averages_value. split.
  - unfold keys in *. rewrite map_map. exact Hnd.
  - clear Hnd. induction d as [|[k x] d IH]; [exact I|].
    simpl in Hf. apply andb_prop in Hf. destruct Hf as [Hx Hd].
    split; [exact Hx | now apply IH].
Qed.

Lemma summaries_value_ok :
  forall l : list RegionSummary,
    forallb (fun s => float_round_trips (rs_average_sites s)) l = true ->
    json_ok (summaries_value l).
Proof.
  intros l Hf. unfold summaries_value.
  induction l as [|s l IH]; [exact I|].
  simpl in Hf. apply andb_prop in Hf. destruct Hf as [Hs Hl].
  split; [|now apply IH].
  split; [|simpl; tauto].
  repeat (constructor; [simpl; intuition discriminate|]). constructor.
Qed.

Lemma cities_value_ok : forall l : list ValidRecord, json_ok (cities_value l).
Proof.
  intros l. unfold cities_value. induction l as [|v l IH]; [exact I|].
  split; [|exact IH].
  split; [|simpl; tauto].
  repeat (constructor; [simpl; intuition discriminate|]). constructor.
Qed.

(** The row of the log that a save writes, and the entry that
    [get_analysis_by_batch_id] makes of it. *)
Definition log_row (id : Z) (res : AnalysisResults)
    (batch_id timestamp : string) : dict sqlval :=
  [ ("id", SqlInt id);
    ("batch_id", SqlText batch_id);
    ("analysis_timestamp", SqlText timestamp);
    ("total_sites", SqlInt (total_sites res));
    ("total_valid_records", SqlInt (total_valid_records res));
    ("total_invalid_records", SqlInt (total_invalid_records res));
    ("highest_region", SqlText (hr_region (region_with_highest_sites res)));
    ("highest_region_sites",
     SqlInt (hr_total_sites (region_with_highest_sites res)));
    ("threshold_used", SqlInt (threshold (cities_above_threshold res)));
    ("cities_above_threshold_count",
     SqlInt (count (cities_above_threshold res)));
    ("average_per_region_json",
     SqlText (json_dumps (averages_value (average_sites_per_region res))));
    ("region_summary_json",
     SqlText (json_dumps (summaries_value (region_summary res))));
    ("cities_above_threshold_json",
     SqlText (json_dumps
                (cities_value (cities (cities_above_threshold res))))) ].

Definition saved_entry (id : Z) (res : AnalysisResults)
    (batch_id timestamp : string) : dict pyval :=
  [ ("id", PInt id);
    ("batch_id", PStr batch_id);
    ("analysis_timestamp", PStr timestamp);
    ("total_sites", PInt (total_sites res));
    ("total_valid_records", PInt (total_valid_records res));
    ("total_invalid_records", PInt (total_invalid_records res));
    ("highest_region", PStr (hr_region (region_with_highest_sites res)));
    ("highest_region_sites",
     PInt (hr_total_sites (region_with_highest_sites res)));
    ("threshold_used", PInt (threshold (cities_above_threshold res)));
    ("cities_above_threshold_count",
     PInt (count (cities_above_threshold res)));
    ("average_per_region", averages_value (average_sites_per_region res));
    ("region_summary", summaries_value (region_summary res));
    ("cities_above_threshold",
     cities_value (cities (cities_above_threshold res))) ].

Lemma new_log_row :
  forall t res batch_id timestamp,
    tbl_columns t = analysis_log_columns ->
    new_row t (combine log_columns (log_values res batch_id)) timestamp
    = log_row (tbl_sequence t + 1) res batch_id timestamp.
Proof.
  intros t res batch_id timestamp H. unfold new_row. rewrite H. reflexivity.
Qed.

Lemma parse_json_field_ok :
  forall (d : dict pyval) key key_json text v,
    dict_get d key_json = Some (PStr text) ->
    json_loads text = Ok v ->
    parse_json_field d key key_json
    = Ok (dict_set (dict_remove d key_json) key v).
Proof.
  intros d key key_json text v Hget Hloads.
  unfold parse_json_field, dict_pop. rewrite Hget. cbn [bind fst snd].
  unfold loads_value. rewrite Hloads. reflexivity.
Qed.

Lemma log_entry_row :
  forall id res batch_id timestamp,
    NoDup (keys (average_sites_per_region res)) ->
    json_safe res = true ->
    log_entry (log_row id res batch_id timestamp)
    = Ok (saved_entry id res batch_id timestamp).
Proof.
  intros id res batch_id timestamp Hnd Hsafe.
  unfold json_safe in Hsafe. apply andb_prop in Hsafe.
  destruct Hsafe as [Ha Hs].
  pose proof (json_round_trip _ (averages_value_ok _ Hnd Ha)) as Ra.
  pose proof (json_round_trip _ (summaries_value_ok _ Hs)) as Rs.
  pose proof (json_round_trip _
                (cities_value_ok (cities (cities_above_threshold res))))
    as Rc.
  unfold log_entry, log_row, saved_entry.
  cbn [map fst snd pyval_of_sql].
  erewrite parse_json_field_ok; [|reflexivity|exact Ra]. cbn [bind].
  erewrite parse_json_field_ok; [|reflexivity|exact Rs]. cbn [bind].
  erewrite parse_json_field_ok; [|reflexivity|exact Rc].
  reflexivity.
Qed.

Lemma existsb_false_In :
  forall (A : Type) (f : A -> bool) l x,
    existsb f l = false -> In x l -> f x = false.
Proof.
  intros A f l x H Hin. destruct (f x) eqn:E; [|reflexivity].
  assert (Hex : existsb f l = true) by (apply existsb_exists; eauto).
  congruence.
Qed.

Lemma filter_none :
  forall (A : Type) (f : A -> bool) l,
    (forall x, In x l -> f x = false) -> filter f l = [].
Proof.
  intros A f l H. induction l as [|x l IH]; [reflexivity|]. simpl.
  rewrite (H x) by now left. apply IH. intros y Hy. apply H. now right.
Qed.



(** ** Floats: the error of a quotient and of [round] *)

Lemma round_half_even_near :
  forall p q, 0 < q -> 2 * Z.abs (round_half_even p q * q - p) <= q.
Proof.
  intros p q Hq. unfold round_half_even. cbv zeta.
  pose proof (Z.div_mod p q ltac:(lia)) as Hdm.
  pose proof (Z.mod_pos_bound p q Hq) as Hr.
  set (f := p / q) in *. set (r := p mod q) in *.
  assert (Hdown : Z.abs (f * q - p) = r)
    by (replace (f * q - p) with (- r) by lia; lia).
  assert (Hup : Z.abs ((f + 1) * q - p) = q - r)
    by (replace ((f + 1) * q - p) with (q - r) by lia; lia).
  destruct (2 * r ?= q) eqn:E.
  - apply Z.compare_eq in E. destruct (Z.even f); lia.
  - apply -> Z.compare_lt_iff in E. lia.
  - apply -> Z.compare_gt_iff in E. lia.
Qed.

Lemma log2_ratio_upper :
  forall p q c,
    0 < p -> 0 < q -> 0 <= c -> p < 2 ^ c * q -> log2_ratio p q < c.
Proof.
  intros p q c Hp Hq Hc H. unfold log2_ratio.
  set (d := Z.log2 p - Z.log2 q).
  assert (Hd : d <= c).
  { assert (Hle : Z.log2 p <= Z.log2 (2 ^ c * q))
      by (apply Z.log2_le_mono; lia).
    rewrite Z.mul_comm, Z.log2_mul_pow2 in Hle by lia. unfold d. lia. }
  destruct (q * 2 ^ Z.max 0 d <=? p * 2 ^ Z.max 0 (- d)) eqn:E; [|lia].
  apply Z.leb_le in E.
  destruct (Z.eq_dec d c) as [Hdc|]; [|lia]. exfalso. subst c.
  destruct (Z.le_gt_cases 0 d) as [Hd0 | Hd0].
  - rewrite (Z.max_r 0 d), (Z.max_l 0 (- d)) in E by lia.
    rewrite Z.pow_0_r in E. nia.
  - lia.
Qed.

(** The float nearest to a quotient [p / q] of at most 500 with a denominator below [2^36]: it is
    finite, [m * 2^(-E)] with [43 <= E], and within half a unit [2^(-E)]
    of the quotient. *)
Lemma nearest_binary64_near :
  forall p q,
    0 < p -> 0 < q -> p <= 500 * q -> q < 2 ^ 36 ->
    exists m E,
      nearest_binary64 false p q = S754_finite false m (- E)
      /\ 43 <= E
      /\ 2 * Z.abs (Zpos m * q - p * 2 ^ E) <= q.
Proof.
  intros p q Hp Hq Hpq Hq36. unfold nearest_binary64.
  replace (p =? 0) with false by (symmetry; apply Z.eqb_neq; lia).
  assert (Hl : log2_ratio p q < 9).
  { apply log2_ratio_upper; lia. }
  set (e0 := Z.max (log2_ratio p q - 52) (-1074)).
  assert (He0 : -1074 <= e0 <= -44) by (unfold e0; lia).
  unfold scale. replace (0 <=? e0) with false
    by (symmetry; apply Z.leb_gt; lia).
  set (E0 := - e0). assert (HE0 : 44 <= E0 <= 1074) by (unfold E0; lia).
  set (m0 := round_half_even (p * 2 ^ E0) q).
  pose proof (round_half_even_near (p * 2 ^ E0) q Hq) as Hnear.
  fold m0 in Hnear.
  assert (Hpow : 2 ^ 44 <= 2 ^ E0) by (apply Z.pow_le_mono_r; lia).
  assert (Hq44 : q < 2 ^ 44).
  { eapply Z.lt_trans; [exact Hq36|]. apply Z.pow_lt_mono_r; lia. }
  assert (Hm0 : 0 < m0) by nia.
  destruct (m0 =? 2 ^ 53) eqn:Em.
  - apply Z.eqb_eq in Em.
    change (2 ^ 52 =? 0) with false. cbn iota.
    replace (971 <? e0 + 1) with false by (symmetry; apply Z.ltb_ge; lia).
    exists (Z.to_pos (2 ^ 52)), (E0 - 1). split; [|split].
    + f_equal. unfold E0. lia.
    + lia.
    + rewrite Z2Pos.id by reflexivity.
      assert (H2 : 2 ^ E0 = 2 * 2 ^ (E0 - 1)).
      { rewrite <- Z.pow_succ_r by lia. f_equal. lia. }
      rewrite Em in Hnear. change (2 ^ 53) with (2 * 2 ^ 52) in Hnear.
      lia.
  - replace (m0 =? 0) with false by (symmetry; apply Z.eqb_neq; lia).
    replace (971 <? e0) with false by (symmetry; apply Z.ltb_ge; lia).
    exists (Z.to_pos m0), E0. split; [|split].
    + f_equal. unfold E0. lia.
    + lia.
    + rewrite Z2Pos.id by exact Hm0. exact Hnear.
Qed.

(** The float nearest to [k / 100], for [0 <= k]. *)
Definition hundredths (k : Z) : float := nearest_binary64 false k 100.

(** [round(p / q, 2)] for such a quotient is the float of a decimal with two
    places that is nearest to the quotient itself, although [round] sees
    the float of the quotient only. *)
Lemma round2_quotient :
  forall p q,
    0 <= p -> 0 < q -> p <= 500 * q -> q < 2 ^ 36 ->
    exists k,
      0 <= k
      /\ py_round2 (nearest_binary64 false p q) = hundredths k
      /\ 2 * Z.abs (k * q - 100 * p) <= q.
Proof.
  intros p q Hp Hq Hpq Hq36.
  destruct (Z.eq_dec p 0) as [-> | Hp0].
  { exists 0. split; [lia|]. split; [reflexivity | lia]. }
  destruct (nearest_binary64_near p q ltac:(lia) Hq Hpq Hq36)
    as (m & E & -> & HE & Hm).
  unfold py_round2, scale. rewrite Z.opp_involutive.
  replace (0 <=? E) with true by (symmetry; apply Z.leb_le; lia).
  rewrite Z.mul_1_l.
  set (k := round_half_even (100 * Z.pos m) (2 ^ E)).
  assert (HT : 0 < 2 ^ E) by (apply Z.pow_pos_nonneg; lia).
  pose proof (round_half_even_near (100 * Z.pos m) (2 ^ E) HT) as Hk.
  fold k in Hk.
  assert (Hpow : 2 ^ 43 <= 2 ^ E) by (apply Z.pow_le_mono_r; lia).
  assert (Hq43 : 100 * q < 2 ^ 43).
  { change (2 ^ 43) with (128 * 2 ^ 36). lia. }
  exists k. split; [|split; [reflexivity|]].
  - (* k is not negative *)
    assert (0 <= 2 * k * 2 ^ E + 2 ^ E) by lia.
    assert (- 1 < 2 * k) by nia. lia.
  - (* the distance, times [2^E] *)
    set (T := 2 ^ E) in *.
    assert (Hsum : 2 * Z.abs ((k * q - 100 * p) * T) <= q * T + 100 * q).
    { replace ((k * q - 100 * p) * T)
        with (q * (k * T - 100 * Z.pos m) + 100 * (Z.pos m * q - p * T))
        by ring.
      eapply Z.le_trans;
        [apply Z.mul_le_mono_nonneg_l; [lia | apply Z.abs_triangle]|].
      rewrite !Z.abs_mul.
      rewrite (Z.abs_eq q), (Z.abs_eq 100) by lia. nia. }
    rewrite Z.abs_mul, (Z.abs_eq T) in Hsum by lia.
    assert (Hlt : 2 * Z.abs (k * q - 100 * p) * T < (q + 1) * T) by nia.
    assert (2 * Z.abs (k * q - 100 * p) < q + 1) by nia. lia.
Qed.

(** ** [get_average_sites_per_region] *)

Lemma add_key_idem : forall l k, add_key (add_key l k) k = add_key l k.
Proof.
  intros l k. unfold add_key at 1.
  replace (mem k (add_key l k)) with true; [reflexivity|].
  symmetry. apply mem_In, In_add_key. now right.
Qed.

Lemma keys_region_data_fold :
  forall data d,
    keys (fold_left add_to_region_data data d)
    = fold_left add_key (map region data) (keys d).
Proof.
  induction data as [|v data IH]; intros d; simpl; [reflexivity|].
  rewrite IH. f_equal. unfold add_to_region_data.
  destruct (mem (region v) (keys d)) eqn:E; simpl negb; cbv iota.
  - apply keys_dict_set.
  - rewrite !keys_dict_set. apply add_key_idem.
Qed.

Lemma keys_region_data :
  forall data, keys (region_data data) = regions_in_order data.
Proof. intros data. unfold region_data. now rewrite keys_region_data_fold. Qed.

Lemma region_sites_cons :
  forall r v data,
    region_sites r (v :: data)
    = ((if String.eqb (region v) r then [num_sites v] else [])
       ++ region_sites r data)%list.
Proof.
  intros r v data. unfold region_sites, in_region. simpl.
  now destruct (String.eqb (region v) r).
Qed.

Lemma get_region_data_step :
  forall d v r,
    dict_get_default (add_to_region_data d v) r []
    = (dict_get_default d r []
       ++ (if String.eqb (region v) r then [num_sites v] else []))%list.
Proof.
  intros d v r. unfold add_to_region_data, dict_get_default.
  rewrite dict_get_set.
  pose proof (mem_keys_get _ d (region v)) as Hmem.
  destruct (String.eqb (region v) r) eqn:E.
  - apply String.eqb_eq in E. subst r.
    destruct (mem (region v) (keys d)); simpl negb; cbv iota.
    + reflexivity.
    + rewrite dict_get_set, String.eqb_refl.
      now destruct (dict_get d (region v)).
  - rewrite app_nil_r.
    destruct (mem (region v) (keys d)); simpl negb; cbv iota;
      [reflexivity|].
    now rewrite dict_get_set, E.
Qed.

Lemma get_region_data_fold :
  forall data d r,
    dict_get_default (fold_left add_to_region_data data d) r []
    = (dict_get_default d r [] ++ region_sites r data)%list.
Proof.
  induction data as [|v data IH]; intros d r; simpl.
  - unfold region_sites. simpl. now rewrite app_nil_r.
  - now rewrite IH, get_region_data_step, region_sites_cons, app_assoc.
Qed.

Lemma region_data_value :
  forall data r sites,
    In (r, sites) (region_data data) -> sites = region_sites r data.
Proof.
  intros data r sites Hin.
  assert (Hget : dict_get (region_data data) r = Some sites).
  { apply dict_get_In; [|exact Hin].
    rewrite keys_region_data. apply NoDup_regions_in_order. }
  pose proof (get_region_data_fold data [] r) as Hval.
  fold (region_data data) in Hval. unfold dict_get_default in Hval.
  rewrite Hget in Hval. exact Hval.
Qed.

Lemma region_count_pos :
  forall data r, In r (map region data) -> 0 < region_count r data.
Proof.
  intros data r Hin. apply in_map_iff in Hin. destruct Hin as (v & Hr & Hv).
  assert (Hs : In (num_sites v) (region_sites r data)).
  { unfold region_sites. apply in_map, filter_In. split; [exact Hv|].
    unfold in_region. now apply String.eqb_eq. }
  unfold region_count, len.
  destruct (region_sites r data); [contradiction | simpl; lia].
Qed.

(** The loop over the items of [region_data]. *)
Lemma averages_loop_spec :
  forall items acc,
    NoDup (keys acc ++ keys items) ->
    (forall r sites, In (r, sites) items -> exists x, average_of sites = Ok x) ->
    exists averages,
      averages_loop items acc = Ok averages
      /\ keys averages = (keys acc ++ keys items)%list
      /\ forall r x,
           In (r, x) averages ->
           In (r, x) acc
           \/ exists sites, In (r, sites) items /\ average_of sites = Ok x.
Proof.
  induction items as [|[r sites] items IH]; intros acc Hnd Hok; simpl.
  - exists acc. rewrite app_nil_r. repeat split. intros r x Hin. now left.
  - destruct (Hok r sites (or_introl eq_refl)) as [a Ha]. rewrite Ha. simpl.
    assert (Hfresh : ~ In r (keys acc)).
    { intros Hin. apply NoDup_remove_2 in Hnd. apply Hnd.
      apply in_or_app. now left. }
    rewrite dict_set_fresh by exact Hfresh.
    assert (Hkeys : keys (acc ++ [(r, a)])%list = (keys acc ++ [r])%list)
      by (unfold keys; now rewrite map_app).
    destruct (IH (acc ++ [(r, a)])%list) as (averages & Hrun & Hk & Hval).
    + rewrite Hkeys, <- app_assoc. exact Hnd.
    + intros r' s' Hin. apply (Hok r' s'). now right.
    + exists averages. split; [exact Hrun|]. split.
      * rewrite Hk, Hkeys, <- app_assoc. reflexivity.
      * intros r' x Hin. destruct (Hval r' x Hin) as [Hacc | Hitem].
        -- apply in_app_or in Hacc. destruct Hacc as [Hacc | [Heq | []]];
             [now left|]. inversion Heq; subst. right. exists sites.
           split; [now left | exact Ha].
        -- destruct Hitem as (s' & Hs' & Hx). right. exists s'.
           split; [now right | exact Hx].
Qed.

Definition count_ok (n : Z) : Prop := 0 <= n <= 500.

Lemma sum_list_bounds :
  forall sites,
    Forall count_ok sites -> 0 <= sum_list sites <= 500 * len sites.
Proof.
  unfold len. induction 1 as [|n sites Hn _ IH]; simpl sum_list.
  - simpl. lia.
  - unfold count_ok in Hn. change (List.length (n :: sites)) with
      (S (List.length sites)). lia.
Qed.

(** The average of the counts of one region: it does not raise, and is the
    float of a decimal with two places at a distance of at most [0.005]
    from the mean. *)
Lemma average_of_spec :
  forall sites,
    0 < len sites -> len sites < 2 ^ 36 -> Forall count_ok sites ->
    exists k,
      0 <= k
      /\ average_of sites = Ok (hundredths k)
      /\ 2 * Z.abs (k * len sites - 100 * sum_list sites) <= len sites.
Proof.
  intros sites Hpos Hlen Hall.
  pose proof (sum_list_bounds sites Hall) as Hsum.
  destruct (round2_quotient (sum_list sites) (len sites)) as (k & Hk & Hr & Hd);
    try lia.
  exists k. split; [exact Hk|]. split; [|exact Hd].
  unfold average_of, py_truediv. rewrite py_sum_spec.
  replace (len sites =? 0) with false by (symmetry; apply Z.eqb_neq; lia).
  replace (sum_list sites <? 0) with false by (symmetry; apply Z.ltb_ge; lia).
  replace (len sites <? 0) with false by (symmetry; apply Z.ltb_ge; lia).
  rewrite !Z.abs_eq by lia. simpl xorb. rewrite <- Hr.
  destruct (Z.eq_dec (sum_list sites) 0) as [-> | Hs]; [reflexivity|].
  destruct (nearest_binary64_near (sum_list sites) (len sites))
    as (m & E & -> & _); try lia.
  reflexivity.
Qed.

Lemma region_sites_ok :
  forall data r,
    Forall (fun v => count_ok (num_sites v)) data ->
    Forall count_ok (region_sites r data).
Proof.
  intros data r Hall. unfold region_sites. rewrite Forall_forall in *.
  intros n Hn. apply in_map_iff in Hn. destruct Hn as (v & <- & Hv).
  apply Hall. apply filter_In in Hv. tauto.
Qed.

Lemma region_count_le :
  forall data r, region_count r data <= len data.
Proof.
  intros data r. unfold region_count, region_sites, len.
  rewrite length_map. apply Nat2Z.inj_le, filter_length_le.
Qed.

Definition ashanti_data : list ValidRecord :=
  [ {| city := "A"; region := "Ashanti"; num_sites := 10 |};
    {| city := "B"; region := "Ashanti"; num_sites := 11 |};
    {| city := "C"; region := "Ashanti"; num_sites := 12 |} ].

(** C5.  On a list of valid records (site counts from 0 to 500; fewer than
    [2^36] records), [get_average_sites_per_region] does not raise and
    returns a dict whose keys are the regions of the data, each once, in the
    order of first occurrence; the value of a region is the float nearest
    to a decimal [k / 100] with two places that is at a distance of at most
    [0.005] from the arithmetic mean of the site counts of the region, so
    the mean rounded to two decimal places.  On the empty list it returns
    the empty dict.  On Ashanti 10, Ashanti 11, Ashanti 12 it returns
    [{Ashanti: 11.0}]. *)
Theorem average_per_region_spec :
  (forall data : list ValidRecord,
      Forall (fun v => count_ok (num_sites v)) data ->
      len data < 2 ^ 36 ->
      exists averages,
        get_average_sites_per_region data = Ok averages
        /\ keys averages = regions_in_order data
        /\ (forall r, In r (keys averages) <-> In r (map region data))
        /\ forall r x,
             In (r, x) averages ->
             exists k,
               0 <= k
               /\ x = hundredths k
               /\ 2 * Z.abs (k * region_count r data
                             - 100 * region_total r data)
                  <= region_count r data)
  /\ get_average_sites_per_region [] = Ok []
  /\ get_average_sites_per_region ashanti_data
     = Ok [("Ashanti", float_of_Z 11)].
Proof.
  split; [|split; [reflexivity | now vm_compute]].
  intros data Hall Hlen.
  destruct data as [|v0 rest] eqn:Ed.
  { exists []. repeat split; simpl; try tauto. }
  rewrite <- Ed in *.
  assert (Hrun : get_average_sites_per_region data
                 = averages_loop (region_data data) [])
    by (now rewrite Ed).
  assert (Hitem : forall r sites,
             In (r, sites) (region_data data) ->
             sites = region_sites r data /\ 0 < len sites < 2 ^ 36
             /\ Forall count_ok sites).
  { intros r sites Hin.
    assert (Hs : sites = region_sites r data)
      by (now apply region_data_value).
    assert (Hr : In r (map region data)).
    { rewrite <- In_regions_in_order, <- keys_region_data. unfold keys.
      change r with (fst (r, sites)). now apply in_map. }
    pose proof (region_count_pos data r Hr) as Hpos.
    pose proof (region_count_le data r) as Hle.
    unfold region_count in Hpos, Hle. subst sites.
    repeat split; try lia. now apply region_sites_ok. }
  destruct (averages_loop_spec (region_data data) []) as (averages & Hloop & Hk & Hval).
  - simpl. rewrite keys_region_data. apply NoDup_regions_in_order.
  - intros r sites Hin. destruct (Hitem r sites Hin) as (_ & Hl & Hf).
    destruct (average_of_spec sites) as (k & _ & Hk & _); try tauto.
    now exists (hundredths k).
  - simpl in Hk. rewrite keys_region_data in Hk.
    exists averages. rewrite Hrun. split; [exact Hloop|].
    split; [exact Hk|]. split.
    + intros r. rewrite Hk. apply In_regions_in_order.
    + intros r x Hin. destruct (Hval r x Hin) as [[] | (sites & Hs & Hx)].
      destruct (Hitem r sites Hs) as (Heq & Hl & Hf).
      destruct (average_of_spec sites) as (k & Hk0 & Hav & Hd); try tauto.
      exists k. split; [exact Hk0|]. split; [congruence|].
      unfold region_count, region_total. now rewrite <- Heq.
Qed.

Definition two_regions : list ValidRecord :=
  [ {| city := "Tarkwa"; region := "Western"; num_sites := 1 |};
    {| city := "Kumasi"; region := "Ashanti"; num_sites := 10 |};
    {| city := "Prestea"; region := "Western"; num_sites := 1 |};
    {| city := "Bogoso"; region := "Western"; num_sites := 2 |} ].

Lemma average_per_region_spec_witness :
  exists averages,
    get_average_sites_per_region two_regions = Ok averages
    /\ keys averages = ["Western"; "Ashanti"]
    /\ forall r x,
         In (r, x) averages ->
         exists k,
           0 <= k
           /\ x = hundredths k
           /\ 2 * Z.abs (k * region_count r two_regions
                         - 100 * region_total r two_regions)
              <= region_count r two_regions.
Proof.
  assert (Hall : Forall (fun v => count_ok (num_sites v)) two_regions)
    by (repeat constructor; simpl; lia).
  assert (Hlen : len two_regions < 2 ^ 36) by reflexivity.
  destruct average_per_region_spec as [Hspec _].
  destruct (Hspec two_regions Hall Hlen) as (averages & Hrun & Hk & _ & Hval).
  exists averages. split; [exact Hrun|]. split; [exact Hk | exact Hval].
Defined.

(** The value of a region is fixed by the float of the quotient, not by the
    quotient: the mean of 1, 1 and 2 is [1.3333...], that of 0 and 3 over
    two hundred records is [0.015], which is halfway between two decimals;
    its float is below it. *)
Example average_of_ex :
  average_of [1; 1; 2] = Ok (hundredths 133)
  /\ average_of (3 :: repeat 0 199) = Ok (hundredths 1).
Proof. split; now vm_compute. Qed.

(** * Further properties of [analysis.py] *)

(** ** [get_region_summary] *)

(** A quotient of at most 500 is within the range of the floats. *)
Lemma nearest_binary64_in_range :
  forall p q s,
    0 <= p -> 0 < q -> p <= 500 * q ->
    nearest_binary64 false p q <> S754_infinity s.
Proof.
  intros p q s Hp Hq Hpq. unfold nearest_binary64.
  destruct (p =? 0) eqn:E0; [discriminate|]. apply Z.eqb_neq in E0.
  assert (Hl : log2_ratio p q < 9) by (apply log2_ratio_upper; lia).
  set (e0 := Z.max (log2_ratio p q - 52) (-1074)).
  assert (He0 : e0 <= -44) by (unfold e0; lia).
  destruct (scale p q e0) as [a b].
  destruct (round_half_even a b =? 2 ^ 53).
  - change (2 ^ 52 =? 0) with false. cbn iota.
    replace (971 <? e0 + 1) with false by (symmetry; apply Z.ltb_ge; lia).
    discriminate.
  - destruct (round_half_even a b =? 0); [discriminate|].
    replace (971 <? e0) with false by (symmetry; apply Z.ltb_ge; lia).
    discriminate.
Qed.

Lemma average_of_ok :
  forall sites,
    sites <> [] -> Forall count_ok sites -> exists x, average_of sites = Ok x.
Proof.
  intros sites Hne Hall.
  pose proof (sum_list_bounds sites Hall) as Hsum.
  assert (Hlen : 0 < len sites)
    by (unfold len; destruct sites; [contradiction | simpl; lia]).
  unfold average_of, py_truediv. rewrite py_sum_spec.
  replace (len sites =? 0) with false by (symmetry; apply Z.eqb_neq; lia).
  replace (sum_list sites <? 0) with false by (symmetry; apply Z.ltb_ge; lia).
  replace (len sites <? 0) with false by (symmetry; apply Z.ltb_ge; lia).
  rewrite !Z.abs_eq by lia. simpl xorb.
  pose proof (nearest_binary64_in_range (sum_list sites) (len sites)) as Hfin.
  destruct (nearest_binary64 false (sum_list sites) (len sites)) eqn:E;
    simpl; try (eexists; reflexivity).
  exfalso. eapply Hfin; try lia. reflexivity.
Qed.

Lemma fold_left_min :
  forall l x,
    In (fold_left Z.min l x) (x :: l)
    /\ forall n, In n (x :: l) -> fold_left Z.min l x <= n.
Proof.
  induction l as [|y l IH]; intros x; simpl.
  - split; [now left | intros n [<- | []]; lia].
  - destruct (IH (Z.min x y)) as [Hin Hle]. split.
    + destruct Hin as [Hin | Hin]; [|right; right; exact Hin].
      destruct (Z.min_spec x y) as [[_ Hm] | [_ Hm]]; rewrite Hm in Hin |- *;
        [left; exact Hin | right; left; exact Hin].
    + intros n [<- | [<- | Hn]].
      * specialize (Hle (Z.min x y) (or_introl eq_refl)). lia.
      * specialize (Hle (Z.min x y) (or_introl eq_refl)). lia.
      * apply Hle. now right.
Qed.

(** What an entry of the summary says of the site counts of a region. *)
Definition summarises (sites : list Z) (r : string) (s : RegionSummary)
  : Prop :=
  rs_region s = r
  /\ rs_total_sites s = sum_list sites
  /\ rs_city_count s = len sites
  /\ average_of sites = Ok (rs_average_sites s)
  /\ In (rs_max_sites s) sites
  /\ (forall n, In n sites -> n <= rs_max_sites s)
  /\ In (rs_min_sites s) sites
  /\ (forall n, In n sites -> rs_min_sites s <= n).

Lemma summary_loop_spec :
  forall items acc,
    (forall r sites, In (r, sites) items ->
                     sites <> [] /\ Forall count_ok sites) ->
    exists entries,
      summary_loop items acc = Ok (acc ++ entries)%list
      /\ Forall2 (fun item s => summarises (snd item) (fst item) s)
           items entries.
Proof.
  induction items as [|[r sites] items IH]; intros acc Hok; simpl.
  - exists []. now rewrite app_nil_r.
  - destruct (Hok r sites (or_introl eq_refl)) as [Hne Hall].
    destruct (average_of_ok sites Hne Hall) as [a Ha]. rewrite Ha. simpl.
    destruct sites as [|x l]; [contradiction|].
    unfold py_max_list, py_min_list, py_max. simpl.
    set (s := {| rs_region := r; rs_total_sites := py_sum (x :: l);
                 rs_city_count := len (x :: l); rs_average_sites := a;
                 rs_max_sites := max_from (fun n => n) x l;
                 rs_min_sites := fold_left Z.min l x |}).
    destruct (IH (acc ++ [s])%list) as (entries & Hrun & Hent).
    { intros r' s' Hin. apply (Hok r' s'). now right. }
    exists (s :: entries). split.
    + rewrite Hrun, <- app_assoc. reflexivity.
    + constructor; [|exact Hent]. unfold summarises, s. simpl.
      destruct (max_from_spec _ (fun n : Z => n) l x)
        as (l1 & l2 & Heq & H1 & H2).
      destruct (fold_left_min l x) as [Hin Hle].
      repeat split; try exact Ha; try exact Hin; try exact Hle.
      * apply py_sum_spec.
      * change (In (max_from (fun n => n) x l) (x :: l)).
        rewrite Heq. apply in_or_app. right. now left.
      * intros n Hn. change (In n (x :: l)) in Hn. rewrite Heq in Hn.
        apply in_app_or in Hn. destruct Hn as [Hn | [<- | Hn]];
          [specialize (H1 _ Hn); lia | lia | now apply H2].
Qed.

Lemma region_data_items :
  forall data r sites,
    Forall (fun v => count_ok (num_sites v)) data ->
    In (r, sites) (region_data data) ->
    sites = region_sites r data /\ sites <> [] /\ Forall count_ok sites.
Proof.
  intros data r sites Hall Hin.
  assert (Hs : sites = region_sites r data) by (now apply region_data_value).
  assert (Hr : In r (map region data)).
  { rewrite <- In_regions_in_order, <- keys_region_data. unfold keys.
    change r with (fst (r, sites)). now apply in_map. }
  pose proof (region_count_pos data r Hr) as Hpos. subst sites.
  repeat split; [|now apply region_sites_ok].
  intros Hnil. unfold region_count in Hpos. rewrite Hnil in Hpos.
  discriminate.
Qed.

(** The entries of the summary before they are sorted: one per region, in
    the order of first occurrence. *)
Lemma summary_entries :
  forall data,
    Forall (fun v => count_ok (num_sites v)) data ->
    exists entries,
      summary_loop (region_data data) [] = Ok entries
      /\ map rs_region entries = regions_in_order data
      /\ Forall (fun s => summarises (region_sites (rs_region s) data)
                            (rs_region s) s) entries.
Proof.
  intros data Hall.
  destruct (summary_loop_spec (region_data data) []) as (entries & Hrun & Hent).
  { intros r sites Hin. now apply (region_data_items data r sites Hall). }
  exists entries. split; [exact Hrun|]. clear Hrun.
  assert (Hitems : forall r sites, In (r, sites) (region_data data) ->
                                   sites = region_sites r data).
  { intros r sites Hin. now apply region_data_value. }
  rewrite <- keys_region_data. unfold keys.
  revert Hent Hitems. generalize (region_data data).
  intros items Hent. induction Hent as [|[r sites] s items entries Hs _ IH];
    intros Hitems; [split; constructor|].
  destruct IH as [IHk IHf]; [intros; apply Hitems; now right|].
  assert (Hr : rs_region s = r) by apply Hs.
  split; simpl; [now rewrite IHk, Hr|].
  constructor; [|exact IHf]. rewrite Hr.
  rewrite <- (Hitems r sites (or_introl eq_refl)). exact Hs.
Qed.

Lemma get_region_summary_loop :
  forall data,
    get_region_summary data
    = (summary <- summary_loop (region_data data) [] ;;
       Ok (sorted_reverse rs_total_sites summary)).
Proof. intros [|v data]; reflexivity. Qed.

Lemma get_average_loop :
  forall data,
    get_average_sites_per_region data = averages_loop (region_data data) [].
Proof. intros [|v data]; reflexivity. Qed.

(** The averages of valid records, without a bound on their number. *)
Lemma averages_of_regions :
  forall data,
    Forall (fun v => count_ok (num_sites v)) data ->
    exists averages,
      get_average_sites_per_region data = Ok averages
      /\ keys averages = regions_in_order data
      /\ forall r x,
           In (r, x) averages -> average_of (region_sites r data) = Ok x.
Proof.
  intros data Hall. rewrite get_average_loop.
  destruct (averages_loop_spec (region_data data) [])
    as (averages & Hrun & Hk & Hval).
  - simpl. rewrite keys_region_data. apply NoDup_regions_in_order.
  - intros r sites Hin.
    destruct (region_data_items data r sites Hall Hin) as (_ & Hne & Hok).
    now apply average_of_ok.
  - exists averages. split; [exact Hrun|]. split.
    + simpl in Hk. now rewrite Hk, keys_region_data.
    + intros r x Hin. destruct (Hval r x Hin) as [[] | (sites & Hs & Hx)].
      now rewrite <- (region_data_value data r sites Hs).
Qed.

Lemma map_filter :
  forall (A B : Type) (f : A -> B) (p : A -> bool) (q : B -> bool) l,
    (forall x, In x l -> p x = q (f x)) ->
    map f (filter p l) = filter q (map f l).
Proof.
  intros A B f p q. induction l as [|x l IH]; intros H; simpl; [reflexivity|].
  rewrite <- (H x (or_introl eq_refl)).
  destruct (p x); simpl; rewrite IH; auto; intros; apply H; now right.
Qed.

Definition valid_counts (data : list ValidRecord) : Prop :=
  Forall (fun v => count_ok (num_sites v)) data.

(** The facts of an entry of the summary for the data. *)
Definition entry_of (data : list ValidRecord) (averages : dict float)
    (s : RegionSummary) : Prop :=
  let sites := region_sites (rs_region s) data in
  rs_total_sites s = region_total (rs_region s) data
  /\ rs_city_count s = region_count (rs_region s) data
  /\ In (rs_max_sites s) sites
  /\ (forall n, In n sites -> n <= rs_max_sites s)
  /\ In (rs_min_sites s) sites
  /\ (forall n, In n sites -> rs_min_sites s <= n)
  /\ dict_get averages (rs_region s) = Some (rs_average_sites s).

(** The entries before they are sorted, and the averages. *)
Lemma entries_with_averages :
  forall data,
    valid_counts data ->
    exists entries averages,
      summary_loop (region_data data) [] = Ok entries
      /\ get_average_sites_per_region data = Ok averages
      /\ map rs_region entries = regions_in_order data
      /\ keys averages = regions_in_order data
      /\ Forall (entry_of data averages) entries.
Proof.
  intros data Hall.
  destruct (summary_entries data Hall) as (entries & Hrun & Hk & Hent).
  destruct (averages_of_regions data Hall) as (averages & Havg & Hak & Hav).
  exists entries, averages. repeat split; try assumption.
  apply Forall_forall. intros s Hs. rewrite Forall_forall in Hent.
  destruct (Hent s Hs) as (_ & Ht & Hc & Ha & Hmax & Hmaxle & Hmin & Hminle).
  repeat split; try assumption.
  assert (Hr : In (rs_region s) (keys averages)).
  { rewrite Hak, <- Hk. now apply in_map. }
  unfold keys in Hr. apply in_map_iff in Hr.
  destruct Hr as ([r x] & Hr & Hin). simpl in Hr. subst r.
  apply dict_get_In.
  - rewrite Hak. apply NoDup_regions_in_order.
  - specialize (Hav _ _ Hin). rewrite Ha in Hav. injection Hav as <-.
    exact Hin.
Qed.

(** On records with site counts from 0 to 500, [get_region_summary] does
    not raise.  It returns one entry per region of the data, in descending
    order of the totals, regions of one total in the order of their first
    occurrence.  The entry of a region has the sum, the number, the
    greatest and the least of the site counts of the region, and the
    average that [get_average_sites_per_region] gives for the region. *)
Theorem region_summary_spec :
  forall data,
    valid_counts data ->
    exists summary averages,
      get_region_summary data = Ok summary
      /\ get_average_sites_per_region data = Ok averages
      /\ Permutation (map rs_region summary) (regions_in_order data)
      /\ StronglySorted (desc rs_total_sites) summary
      /\ (forall k,
             map rs_region (filter (has_key rs_total_sites k) summary)
             = filter (fun r => region_total r data =? k)
                 (regions_in_order data))
      /\ Forall (fun s =>
                   let sites := region_sites (rs_region s) data in
                   rs_total_sites s = region_total (rs_region s) data
                   /\ rs_city_count s = region_count (rs_region s) data
                   /\ In (rs_max_sites s) sites
                   /\ (forall n, In n sites -> n <= rs_max_sites s)
                   /\ In (rs_min_sites s) sites
                   /\ (forall n, In n sites -> rs_min_sites s <= n)
                   /\ dict_get averages (rs_region s)
                      = Some (rs_average_sites s))
           summary.
Proof.
  intros data Hall.
  destruct (entries_with_averages data Hall)
    as (entries & averages & Hrun & Havg & Hk & _ & Hent).
  exists (sorted_reverse rs_total_sites entries), averages.
  rewrite get_region_summary_loop, Hrun. simpl.
  pose proof (sorted_reverse_perm rs_total_sites entries) as Hperm.
  split; [reflexivity|]. split; [exact Havg|]. split; [|split; [|split]].
  - rewrite <- Hk. now apply Permutation_map.
  - apply sorted_reverse_sorted.
  - intros k. rewrite sorted_reverse_stable, <- Hk.
    apply map_filter. intros s Hs. rewrite Forall_forall in Hent.
    destruct (Hent s Hs) as (Ht & _). unfold has_key. now rewrite Ht.
  - eapply Permutation_Forall; [apply Permutation_sym, Hperm|exact Hent].
Qed.

Definition three_regions : list ValidRecord :=
  [ {| city := "Tarkwa"; region := "Western"; num_sites := 30 |};
    {| city := "Kumasi"; region := "Ashanti"; num_sites := 25 |};
    {| city := "Accra"; region := "Greater Accra"; num_sites := 40 |};
    {| city := "Obuasi"; region := "Ashanti"; num_sites := 15 |};
    {| city := "Prestea"; region := "Western"; num_sites := 10 |} ].

Lemma region_summary_spec_witness :
  exists summary,
    get_region_summary three_regions = Ok summary
    /\ map rs_region summary = [ "Western"; "Ashanti"; "Greater Accra" ]
    /\ map rs_total_sites summary = [ 40; 40; 40 ]
    /\ StronglySorted (desc rs_total_sites) summary.
Proof.
  assert (Hall : valid_counts three_regions)
    by (repeat constructor; simpl; lia).
  destruct (region_summary_spec three_regions Hall)
    as (summary & averages & Hrun & _ & _ & Hsorted & _).
  exists summary. split; [exact Hrun|].
  assert (Hs : Ok summary = get_region_summary three_regions)
    by (now rewrite Hrun).
  vm_compute in Hs. injection Hs as ->.
  repeat split; try reflexivity. exact Hsorted.
Defined.

(** *** The first entry of the summary and [get_region_with_highest_sites] *)

(** The first of the elements of greatest key. *)
Fixpoint first_max {A : Type} (key : A -> Z) (l : list A) : option A :=
  match l with
  | [] => None
  | x :: l' =>
      match first_max key l' with
      | None => Some x
      | Some m => if key m <=? key x then Some x else Some m
      end
  end.

Lemma max_from_first_max :
  forall (A : Type) (key : A -> Z) l best,
    Some (max_from key best l) = first_max key (best :: l).
Proof.
  intros A key. induction l as [|x l IH]; intros best; [reflexivity|].
  simpl max_from. change (first_max key (best :: x :: l))
    with (match first_max key (x :: l) with
          | None => Some best
          | Some m => if key m <=? key best then Some best else Some m
          end).
  destruct (key best <? key x) eqn:E.
  - apply Z.ltb_lt in E. rewrite IH.
    destruct (first_max key (x :: l)) as [m|] eqn:Em;
      [|simpl in Em; destruct (first_max key l) as [m'|];
        [destruct (key m' <=? key x)|]; discriminate].
    assert (Hm : key x <= key m).
    { simpl in Em. destruct (first_max key l) as [m'|].
      - destruct (key m' <=? key x) eqn:E'; injection Em as <-;
          [lia | apply Z.leb_gt in E'; lia].
      - injection Em as <-. lia. }
    replace (key m <=? key best) with false
      by (symmetry; apply Z.leb_gt; lia).
    reflexivity.
  - apply Z.ltb_ge in E. rewrite IH. simpl.
    destruct (first_max key l) as [m'|].
    + destruct (key m' <=? key x) eqn:E'.
      * apply Z.leb_le in E'.
        replace (key m' <=? key best) with true
          by (symmetry; apply Z.leb_le; lia).
        replace (key x <=? key best) with true
          by (symmetry; apply Z.leb_le; lia).
        reflexivity.
      * reflexivity.
    + replace (key x <=? key best) with true
        by (symmetry; apply Z.leb_le; lia).
      reflexivity.
Qed.

Lemma hd_insert_desc :
  forall (A : Type) (key : A -> Z) x l,
    hd_error (insert_desc key x l)
    = match hd_error l with
      | None => Some x
      | Some y => if key y <=? key x then Some x else Some y
      end.
Proof.
  intros A key x [|y l]; simpl; [reflexivity|].
  now destruct (key y <=? key x).
Qed.

(** A stable sort in descending order puts first the first of the elements
    of greatest key. *)
Lemma hd_sorted_reverse :
  forall (A : Type) (key : A -> Z) l,
    hd_error (sorted_reverse key l) = first_max key l.
Proof.
  intros A key. induction l as [|x l IH]; [reflexivity|].
  simpl. now rewrite hd_insert_desc, IH.
Qed.

Lemma first_max_map :
  forall (A B : Type) (g : A -> B) (key : B -> Z) l,
    first_max key (map g l) = option_map g (first_max (fun x => key (g x)) l).
Proof.
  intros A B g key. induction l as [|x l IH]; [reflexivity|].
  simpl. rewrite IH. destruct (first_max (fun x => key (g x)) l) as [m|];
    simpl; [|reflexivity].
  now destruct (key (g m) <=? key (g x)).
Qed.

(** A dict of distinct keys is its keys with their values. *)
Lemma dict_by_keys :
  forall (d : dict Z),
    NoDup (keys d) ->
    d = map (fun k => (k, dict_get_default d k 0)) (keys d).
Proof.
  intros d Hnd.
  assert (H : forall l, (forall k v, In (k, v) l -> In (k, v) d) ->
                        l = map (fun k => (k, dict_get_default d k 0))
                              (keys l)).
  { induction l as [|[k v] l IH]; intros Hl; [reflexivity|]. simpl.
    unfold dict_get_default at 1.
    rewrite (dict_get_In _ d k v Hnd (Hl k v (or_introl eq_refl))).
    f_equal. apply IH. intros; apply Hl; now right. }
  apply H. auto.
Qed.

Lemma region_totals_by_keys :
  forall data,
    region_totals data
    = map (fun r => (r, region_total r data)) (regions_in_order data).
Proof.
  intros data. rewrite (dict_by_keys (region_totals data)) at 1.
  - rewrite keys_region_totals. apply map_ext. intros r.
    unfold region_totals. now rewrite get_totals.
  - rewrite keys_region_totals. apply NoDup_regions_in_order.
Qed.

(** The region with the highest sites is the first of the entries of
    greatest total. *)
Lemma highest_in_entries :
  forall data,
    data <> [] ->
    valid_counts data ->
    exists entries e,
      summary_loop (region_data data) [] = Ok entries
      /\ first_max rs_total_sites entries = Some e
      /\ get_region_with_highest_sites data
         = Ok (rs_region e, rs_total_sites e).
Proof.
  intros data Hne Hall.
  destruct (summary_entries data Hall) as (entries & Hrun & Hk & Hent).
  assert (Htot : region_totals data
                 = map (fun s => (rs_region s, rs_total_sites s)) entries).
  { rewrite region_totals_by_keys, <- Hk, map_map.
    apply map_ext_in. intros s Hs. rewrite Forall_forall in Hent.
    destruct (Hent s Hs) as (_ & Ht & _). now rewrite Ht. }
  assert (Hhigh : get_region_with_highest_sites data
                  = py_max snd (region_totals data))
    by (destruct data; [contradiction | reflexivity]).
  rewrite Hhigh, Htot.
  destruct entries as [|e entries].
  { exfalso. destruct data as [|v data]; [contradiction|].
    assert (Hin : In (region v) (regions_in_order (v :: data)))
      by (apply In_regions_in_order; now left).
    rewrite <- Hk in Hin. contradiction. }
  cbn [map py_max].
  pose proof (max_from_first_max _ (@snd string Z)
                (map (fun s => (rs_region s, rs_total_sites s)) entries)
                (rs_region e, rs_total_sites e)) as Hmax.
  change ((rs_region e, rs_total_sites e)
          :: map (fun s => (rs_region s, rs_total_sites s)) entries)
    with (map (fun s => (rs_region s, rs_total_sites s)) (e :: entries))
    in Hmax.
  rewrite first_max_map in Hmax. cbn [snd] in Hmax.
  change (fun x : RegionSummary => rs_total_sites x) with rs_total_sites
    in Hmax.
  destruct (first_max rs_total_sites (e :: entries)) as [m|] eqn:Em;
    [|discriminate].
  exists (e :: entries), m. split; [exact Hrun|]. split; [exact Em|].
  simpl in Hmax. now injection Hmax as ->.
Qed.

(** On records with site counts from 0 to 500, not none, the first entry of
    the summary is the region that [get_region_with_highest_sites] returns,
    with the same total: the two functions agree also when regions tie. *)
Theorem summary_starts_with_highest :
  forall data,
    data <> [] ->
    valid_counts data ->
    exists s rest,
      get_region_summary data = Ok (s :: rest)
      /\ get_region_with_highest_sites data
         = Ok (rs_region s, rs_total_sites s).
Proof.
  intros data Hne Hall.
  destruct (highest_in_entries data Hne Hall)
    as (entries & e & Hrun & Hmax & Hhigh).
  rewrite get_region_summary_loop, Hrun. simpl.
  rewrite <- hd_sorted_reverse in Hmax.
  destruct (sorted_reverse rs_total_sites entries) as [|s rest];
    [discriminate|].
  injection Hmax as ->. now exists e, rest.
Qed.

Lemma summary_starts_with_highest_witness :
  exists s rest,
    get_region_summary three_regions = Ok (s :: rest)
    /\ get_region_with_highest_sites three_regions = Ok ("Western", 40)
    /\ rs_region s = "Western".
Proof.
  assert (Hne : three_regions <> []) by discriminate.
  assert (Hall : valid_counts three_regions)
    by (repeat constructor; simpl; lia).
  destruct (summary_starts_with_highest three_regions Hne Hall)
    as (s & rest & Hrun & Hhigh).
  exists s, rest. split; [exact Hrun|].
  assert (Hs : Ok ("Western", 40) = Ok (rs_region s, rs_total_sites s))
    by (now rewrite <- Hhigh).
  injection Hs as Hr Ht.
  split; [now rewrite Hhigh, <- Hr, <- Ht | now rewrite <- Hr].
Defined.

(** *** The summary and the totals *)

Lemma sum_list_perm :
  forall l1 l2, Permutation l1 l2 -> sum_list l1 = sum_list l2.
Proof. induction 1; simpl; lia. Qed.

Lemma sum_list_map_add :
  forall (A : Type) (f g : A -> Z) l,
    sum_list (map (fun x => f x + g x) l)
    = sum_list (map f l) + sum_list (map g l).
Proof. induction l as [|x l IH]; simpl; lia. Qed.

Lemma sum_list_indicator :
  forall (rs : list string) r n,
    NoDup rs -> In r rs ->
    sum_list (map (fun r' => if String.eqb r r' then n else 0) rs) = n.
Proof.
  induction rs as [|r0 rs IH]; intros r n Hnd Hin; [contradiction|].
  inversion Hnd as [|? ? Hr0 Hrs]; subst. simpl.
  destruct (String.eqb_spec r r0) as [-> | Hneq].
  - assert (Hz : sum_list (map (fun r' => if String.eqb r0 r' then n else 0)
                             rs) = 0).
    { clear IH Hnd Hin Hrs. induction rs as [|r1 rs IH]; [reflexivity|].
      simpl. destruct (String.eqb_spec r0 r1) as [-> | _].
      - exfalso. apply Hr0. now left.
      - rewrite IH; [reflexivity|]. intros H. apply Hr0. now right. }
    lia.
  - destruct Hin as [-> | Hin]; [contradiction|]. now rewrite IH.
Qed.

(** Summing a quantity of the records by region, over regions that cover
    the data, gives the sum over the records. *)
Lemma sum_by_region :
  forall (f : ValidRecord -> Z) data rs,
    NoDup rs ->
    (forall v, In v data -> In (region v) rs) ->
    sum_list (map (fun r => sum_list (map f (filter (in_region r) data))) rs)
    = sum_list (map f data).
Proof.
  intros f. induction data as [|v data IH]; intros rs Hnd Hcov.
  - simpl. induction rs as [|r rs IHr]; [reflexivity|]. simpl.
    inversion Hnd; subst. now rewrite IHr.
  - simpl. rewrite <- (IH rs Hnd) by (intros; apply Hcov; now right).
    rewrite <- (sum_list_indicator rs (region v) (f v) Hnd)
      by (apply Hcov; now left).
    rewrite <- sum_list_map_add. f_equal. apply map_ext. intros r.
    unfold in_region at 1. destruct (String.eqb (region v) r); simpl; lia.
Qed.

Lemma entries_sums :
  forall data,
    valid_counts data ->
    exists entries,
      summary_loop (region_data data) [] = Ok entries
      /\ sum_list (map rs_total_sites entries) = get_total_sites data
      /\ sum_list (map rs_city_count entries) = len data.
Proof.
  intros data Hall.
  destruct (summary_entries data Hall) as (entries & Hrun & Hk & Hent).
  exists entries. split; [exact Hrun|].
  assert (Hcov : forall v, In v data -> In (region v) (regions_in_order data))
    by (intros v Hv; apply In_regions_in_order; now apply in_map).
  rewrite Forall_forall in Hent. split.
  - rewrite get_total_sites_spec.
    rewrite <- (sum_by_region num_sites data (regions_in_order data)
                  (NoDup_regions_in_order data) Hcov).
    rewrite <- Hk, map_map. f_equal. apply map_ext_in. intros s Hs.
    destruct (Hent s Hs) as (_ & Ht & _). exact Ht.
  - assert (Hlen : forall l : list ValidRecord,
               len l = sum_list (map (fun _ => 1) l)).
    { unfold len. induction l as [|x l IH]; [reflexivity|].
      change (Z.of_nat (S (List.length l))
              = 1 + sum_list (map (fun _ => 1) l)).
      rewrite <- IH. lia. }
    rewrite (Hlen data).
    rewrite <- (sum_by_region (fun _ => 1) data (regions_in_order data)
                  (NoDup_regions_in_order data) Hcov).
    rewrite <- Hk, map_map. f_equal. apply map_ext_in. intros s Hs.
    destruct (Hent s Hs) as (_ & _ & Hc & _). rewrite Hc.
    unfold region_sites. unfold len at 1. rewrite length_map.
    apply (Hlen (filter (in_region (rs_region s)) data)).
Qed.

(** On records with site counts from 0 to 500, the totals of the entries
    of the summary add up to [get_total_sites], and their city counts to
    the number of records: every record is counted in one entry. *)
Theorem summary_adds_up :
  forall data,
    valid_counts data ->
    exists summary,
      get_region_summary data = Ok summary
      /\ sum_list (map rs_total_sites summary) = get_total_sites data
      /\ sum_list (map rs_city_count summary) = len data.
Proof.
  intros data Hall.
  destruct (entries_sums data Hall) as (entries & Hrun & Hsum & Hcount).
  exists (sorted_reverse rs_total_sites entries).
  rewrite get_region_summary_loop, Hrun. simpl.
  pose proof (sorted_reverse_perm rs_total_sites entries) as Hperm.
  split; [reflexivity|].
  rewrite (sum_list_perm _ _ (Permutation_map rs_total_sites Hperm)).
  rewrite (sum_list_perm _ _ (Permutation_map rs_city_count Hperm)).
  now split.
Qed.

Lemma summary_adds_up_witness :
  exists summary,
    get_region_summary three_regions = Ok summary
    /\ sum_list (map rs_total_sites summary) = 120
    /\ sum_list (map rs_city_count summary) = 5.
Proof.
  assert (Hall : valid_counts three_regions)
    by (repeat constructor; simpl; lia).
  exact (summary_adds_up three_regions Hall).
Defined.

(** ** [get_cities_above_threshold]: one threshold after another *)

Lemma StronglySorted_filter :
  forall (A : Type) (R : A -> A -> Prop) (p : A -> bool) l,
    StronglySorted R l -> StronglySorted R (filter p l).
Proof.
  intros A R p l H. induction H as [|x l Hl IH Hx]; simpl; [constructor|].
  destruct (p x); [|exact IH]. constructor; [exact IH|].
  rewrite Forall_forall in *. intros y Hy. apply Hx.
  now apply filter_In in Hy.
Qed.

Lemma filter_comm :
  forall (A : Type) (p q : A -> bool) l,
    filter p (filter q l) = filter q (filter p l).
Proof.
  intros A p q. induction l as [|x l IH]; [reflexivity|]. simpl.
  destruct (q x) eqn:Eq, (p x) eqn:Ep; simpl; rewrite ?Eq, ?Ep, IH;
    reflexivity.
Qed.

Lemma filter_filter_implies :
  forall (A : Type) (p q : A -> bool) l,
    (forall x, p x = true -> q x = true) ->
    filter p (filter q l) = filter p l.
Proof.
  intros A p q l H. induction l as [|x l IH]; [reflexivity|]. simpl.
  destruct (p x) eqn:Ep.
  - rewrite (H x Ep). simpl. now rewrite Ep, IH.
  - destruct (q x); simpl; rewrite ?Ep; exact IH.
Qed.

(** Filtering before or after a stable sort gives the same list. *)
Lemma sorted_reverse_filter :
  forall (A : Type) (key : A -> Z) (p : A -> bool) l,
    sorted_reverse key (filter p l) = filter p (sorted_reverse key l).
Proof.
  intros A key p l. apply (stable_sorted_unique key).
  - apply sorted_reverse_sorted.
  - apply StronglySorted_filter, sorted_reverse_sorted.
  - intros k.
    rewrite sorted_reverse_stable.
    rewrite (filter_comm _ (has_key key k) p (sorted_reverse key l)).
    rewrite sorted_reverse_stable. apply filter_comm.
Qed.

(** Sorting a sorted list changes nothing. *)
Lemma sorted_reverse_fixed :
  forall (A : Type) (key : A -> Z) l,
    StronglySorted (desc key) l -> sorted_reverse key l = l.
Proof.
  intros A key l Hs. apply (stable_sorted_unique key).
  - apply sorted_reverse_sorted.
  - exact Hs.
  - intros k. apply sorted_reverse_stable.
Qed.

(** For thresholds [0 <= t1 <= t2], the cities above [t2] are the cities
    above [t1] without those of at most [t2] sites, in the same order; and
    asking for the cities above [t2] among the cities above [t1] gives the
    same list as asking the data. *)
Theorem cities_above_narrowing :
  forall (data : list ValidRecord) (t1 t2 : Z),
    0 <= t1 -> t1 <= t2 ->
    exists l1 l2,
      get_cities_above_threshold data t1 = Ok l1
      /\ get_cities_above_threshold data t2 = Ok l2
      /\ l2 = filter (above t2) l1
      /\ get_cities_above_threshold l1 t2 = Ok l2.
Proof.
  intros data t1 t2 H1 H12. unfold get_cities_above_threshold.
  replace (t1 <? 0) with false by (symmetry; apply Z.ltb_ge; lia).
  replace (t2 <? 0) with false by (symmetry; apply Z.ltb_ge; lia).
  fold (above t1) (above t2).
  exists (sorted_reverse num_sites (filter (above t1) data)),
    (sorted_reverse num_sites (filter (above t2) data)).
  assert (Hnarrow : sorted_reverse num_sites (filter (above t2) data)
                    = filter (above t2)
                        (sorted_reverse num_sites (filter (above t1) data))).
  { rewrite <- sorted_reverse_filter. f_equal. symmetry.
    apply filter_filter_implies. intros v Hv. unfold above in *.
    apply Z.ltb_lt in Hv. apply Z.ltb_lt. lia. }
  repeat split; [exact Hnarrow|].
  rewrite <- Hnarrow. f_equal. apply sorted_reverse_fixed.
  apply sorted_reverse_sorted.
Qed.

Lemma cities_above_narrowing_witness :
  exists l1 l2,
    get_cities_above_threshold five_cities 5 = Ok l1
    /\ get_cities_above_threshold five_cities 10 = Ok l2
    /\ map city l1 = [ "B"; "A"; "D"; "C" ]
    /\ l2 = filter (above 10) l1
    /\ get_cities_above_threshold l1 10 = Ok l2.
Proof.
  destruct (cities_above_narrowing five_cities 5 10)
    as (l1 & l2 & H1 & H2 & Hn & Hc); try lia.
  exists l1, l2. repeat split; try assumption.
  vm_compute in H1. injection H1 as <-. reflexivity.
Defined.

(** ** [load_data]: which error, and when *)






(** ** [run_full_analysis]: which error, and when *)

Lemma record_ok_counts :
  forall data, Forall record_ok data -> valid_counts data.
Proof.
  intros data H. eapply Forall_impl; [|exact H]. intros v [_ Hv]. exact Hv.
Qed.

Lemma highest_region_ok :
  forall data,
    data <> [] -> exists r t, get_region_with_highest_sites data = Ok (r, t).
Proof.
  intros [|v data] Hne; [contradiction|].
  unfold get_region_with_highest_sites.
  assert (Hin : In (region v) (keys (region_totals (v :: data)))).
  { rewrite keys_region_totals, In_regions_in_order. now left. }
  destruct (region_totals (v :: data)) as [|x l]; [contradiction|].
  simpl. destruct (max_from snd x l) as [r t]. now exists r, t.
Qed.

(** [run_full_analysis] raises what [load_data] raises; once the data is
    loaded it raises for a negative threshold only, with the [ValueError]
    of [get_cities_above_threshold]; otherwise it returns a result, with
    the records that [load_data] returned: no aggregation fails on loaded
    data. *)
Theorem run_full_analysis_by_cases :
  forall (fs : filesystem) (filepath : string) (threshold : Z),
    match load_data fs filepath with
    | Raise e => run_full_analysis fs filepath threshold = Raise e
    | Ok (valid, invalid) =>
        if threshold <? 0 then
          run_full_analysis fs filepath threshold
          = Raise (ValueError "Threshold cannot be negative")
        else
          exists res,
            run_full_analysis fs filepath threshold = Ok res
            /\ valid_data res = valid
            /\ invalid_records res = invalid
    end.
Proof.
  intros fs filepath th. unfold run_full_analysis.
  destruct (load_data fs filepath) as [[valid invalid]|e] eqn:El;
    [|reflexivity].
  destruct (load_data_ok _ _ _ _ El) as [Hok Hne]. simpl.
  destruct (highest_region_ok valid Hne) as (r & t & Hh). rewrite Hh. simpl.
  unfold get_cities_above_threshold.
  destruct (th <? 0); [reflexivity|]. simpl.
  pose proof (record_ok_counts valid Hok) as Hc.
  destruct (averages_of_regions valid Hc) as (averages & Ha & _).
  rewrite Ha. simpl.
  destruct (summary_entries valid Hc) as (entries & Hs & _).
  rewrite get_region_summary_loop, Hs. simpl.
  eexists. repeat split.
Qed.

(** * Further properties of [database.py] *)

(** ** The order of rows *)

Lemma ascii_compare_refl : forall c, Ascii.compare c c = Eq.
Proof. intros c. unfold Ascii.compare. apply N.compare_refl. Qed.

Lemma ascii_compare_lt_trans :
  forall a b c,
    Ascii.compare a b = Lt -> Ascii.compare b c = Lt -> Ascii.compare a c = Lt.
Proof.
  unfold Ascii.compare. intros a b c H1 H2.
  rewrite N.compare_lt_iff in *. lia.
Qed.

Lemma string_compare_refl : forall s, String.compare s s = Eq.
Proof.
  induction s as [|c s IH]; [reflexivity|]. simpl.
  now rewrite ascii_compare_refl.
Qed.

Lemma string_compare_lt_trans :
  forall a b c,
    String.compare a b = Lt -> String.compare b c = Lt ->
    String.compare a c = Lt.
Proof.
  induction a as [|x a IH]; intros [|y b] [|z c] H1 H2; simpl in *;
    try discriminate; try reflexivity.
  destruct (Ascii.compare x y) eqn:Exy; try discriminate;
    destruct (Ascii.compare y z) eqn:Eyz; try discriminate.
  - apply Ascii.compare_eq_iff in Exy, Eyz. subst.
    rewrite ascii_compare_refl. now apply (IH b).
  - apply Ascii.compare_eq_iff in Exy. subst. now rewrite Eyz.
  - apply Ascii.compare_eq_iff in Eyz. subst. now rewrite Exy.
  - now rewrite (ascii_compare_lt_trans _ _ _ Exy Eyz).
Qed.

Lemma sqlval_compare_refl : forall v, sqlval_compare v v = Eq.
Proof.
  intros [|n|s]; simpl;
    [reflexivity | apply Z.compare_refl | apply string_compare_refl].
Qed.

Lemma sqlval_compare_eq : forall a b, sqlval_compare a b = Eq -> a = b.
Proof.
  intros [|n|s] [|m|t] H; simpl in H; try discriminate; try reflexivity.
  - apply Z.compare_eq in H. now subst.
  - apply String.compare_eq_iff in H. now subst.
Qed.

Lemma sqlval_compare_antisym :
  forall a b, sqlval_compare a b = CompOpp (sqlval_compare b a).
Proof.
  intros [|n|s] [|m|t]; simpl; try reflexivity.
  - apply Z.compare_antisym.
  - apply String.compare_antisym.
Qed.

Lemma sqlval_compare_lt_trans :
  forall a b c,
    sqlval_compare a b = Lt -> sqlval_compare b c = Lt ->
    sqlval_compare a c = Lt.
Proof.
  intros [|n|s] [|m|t] [|k|u] H1 H2; simpl in *; try discriminate;
    try reflexivity.
  - rewrite Z.compare_lt_iff in *. lia.
  - now apply (string_compare_lt_trans s t u).
Qed.

Lemma sqlval_compare_gt_trans :
  forall a b c,
    sqlval_compare a b = Gt -> sqlval_compare b c = Gt ->
    sqlval_compare a c = Gt.
Proof.
  intros a b c H1 H2.
  rewrite sqlval_compare_antisym in H1, H2 |- *.
  destruct (sqlval_compare b a) eqn:E1; try discriminate.
  destruct (sqlval_compare c b) eqn:E2; try discriminate.
  now rewrite (sqlval_compare_lt_trans c b a E2 E1).
Qed.

Section OrderBy.
Variable terms : list order_term.

Lemma order_compare_refl : forall r, order_compare terms r r = Eq.
Proof.
  intros r. induction terms as [|[c d] ts IH]; [reflexivity|]. simpl.
  now rewrite sqlval_compare_refl.
Qed.

Lemma order_compare_antisym :
  forall a b, order_compare terms a b = CompOpp (order_compare terms b a).
Proof.
  intros a b. induction terms as [|[c d] ts IH]; [reflexivity|]. simpl.
  rewrite (sqlval_compare_antisym (cell_of a c) (cell_of b c)).
  destruct (sqlval_compare (cell_of b c) (cell_of a c)), d; simpl;
    auto.
Qed.

(** Rows of equal keys compare alike with every row. *)
Lemma order_compare_eq :
  forall a b c,
    order_compare terms a b = Eq ->
    order_compare terms a c = order_compare terms b c.
Proof.
  intros a b c. induction terms as [|[k d] ts IH]; [reflexivity|]. simpl.
  destruct (sqlval_compare (cell_of a k) (cell_of b k)) eqn:E.
  - apply sqlval_compare_eq in E. rewrite E. intros H.
    now rewrite (IH H).
  - destruct d; discriminate.
  - destruct d; discriminate.
Qed.

Lemma order_compare_lt_trans :
  forall a b c,
    order_compare terms a b = Lt -> order_compare terms b c = Lt ->
    order_compare terms a c = Lt.
Proof.
  intros a b c. induction terms as [|[k d] ts IH]; [discriminate|]. simpl.
  destruct (sqlval_compare (cell_of a k) (cell_of b k)) eqn:E1.
  - apply sqlval_compare_eq in E1. rewrite E1. intros H1 H2.
    destruct (sqlval_compare (cell_of b k) (cell_of c k));
      [now apply IH | exact H2 | exact H2].
  - destruct (sqlval_compare (cell_of b k) (cell_of c k)) eqn:E2.
    + apply sqlval_compare_eq in E2. rewrite <- E2, E1. auto.
    + rewrite (sqlval_compare_lt_trans _ _ _ E1 E2). auto.
    + destruct d; discriminate.
  - destruct (sqlval_compare (cell_of b k) (cell_of c k)) eqn:E2.
    + apply sqlval_compare_eq in E2. rewrite <- E2, E1. auto.
    + destruct d; discriminate.
    + rewrite (sqlval_compare_gt_trans _ _ _ E1 E2). auto.
Qed.

Lemma in_order_trans :
  forall a b c,
    in_order terms a b -> in_order terms b c -> in_order terms a c.
Proof.
  unfold in_order. intros a b c H1 H2.
  destruct (order_compare terms a b) eqn:E1; [| |contradiction].
  - now rewrite (order_compare_eq a b c E1).
  - destruct (order_compare terms b c) eqn:E2; [| |contradiction].
    + rewrite order_compare_antisym in E2.
      assert (E2' : order_compare terms c b = Eq)
        by (destruct (order_compare terms c b); simpl in E2;
            congruence).
      rewrite order_compare_antisym, (order_compare_eq c b a E2'),
        <- order_compare_antisym, E1. discriminate.
    + rewrite (order_compare_lt_trans a b c E1 E2). discriminate.
Qed.

Lemma in_order_total :
  forall a b, in_order terms a b \/ in_order terms b a.
Proof.
  unfold in_order. intros a b. rewrite (order_compare_antisym b a).
  destruct (order_compare terms a b); simpl; [left | left | right];
    discriminate.
Qed.

(** *** The sort by rowid is a sort *)

Lemma insert_row_perm :
  forall r l, Permutation (insert_row terms r l) (r :: l).
Proof.
  intros r. induction l as [|r' l IH]; simpl; [reflexivity|].
  destruct (order_compare terms r' r); try reflexivity;
    rewrite IH; apply perm_swap.
Qed.

Lemma insert_row_sorted :
  forall r l,
    StronglySorted (in_order terms) l ->
    StronglySorted (in_order terms) (insert_row terms r l).
Proof.
  intros r. induction l as [|r' l IH]; intros Hs; simpl.
  - repeat constructor.
  - inversion Hs as [|? ? Hl Hr']; subst.
    destruct (order_compare terms r' r) eqn:E.
    + constructor; [now apply IH|].
      eapply Permutation_Forall;
        [apply Permutation_sym, insert_row_perm|].
      constructor; [unfold in_order; now rewrite E | exact Hr'].
    + constructor; [now apply IH|].
      eapply Permutation_Forall;
        [apply Permutation_sym, insert_row_perm|].
      constructor; [unfold in_order; now rewrite E | exact Hr'].
    + assert (Hrr : in_order terms r r').
      { unfold in_order. rewrite order_compare_antisym, E. discriminate. }
      constructor; [exact Hs|]. constructor; [exact Hrr|].
      eapply Forall_impl; [|exact Hr'].
      intros x Hx. now apply (in_order_trans r r' x).
Qed.

(** *** When the order decides *)


(** A row that is strictly before every other row comes first. *)
Lemma strict_first :
  forall x l' l,
    Forall (fun y => order_compare terms x y = Lt) l' ->
    Permutation l (x :: l') ->
    StronglySorted (in_order terms) l ->
    exists rest, l = x :: rest /\ Permutation rest l'.
Proof.
  intros x l' l Hx Hp Hs.
  destruct l as [|z l];
    [apply Permutation_nil in Hp; discriminate|].
  inversion Hs as [|? ? Hs' Hz]; subst.
  assert (Hzx : z = x).
  { assert (Hin : In z (x :: l'))
      by (apply (Permutation_in _ Hp); now left).
    destruct Hin as [<- | Hin]; [reflexivity|]. exfalso.
    rewrite Forall_forall in Hx, Hz. specialize (Hx z Hin).
    assert (Hxl : In x (z :: l))
      by (apply (Permutation_in _ (Permutation_sym Hp)); now left).
    destruct Hxl as [<- | Hxl].
    - rewrite order_compare_refl in Hx. discriminate.
    - specialize (Hz x Hxl). unfold in_order in Hz.
      rewrite order_compare_antisym, Hx in Hz. now apply Hz. }
  subst z. exists l. split; [reflexivity|].
  now apply Permutation_cons_inv in Hp.
Qed.
End OrderBy.

Lemma rowid_sorter_sorts : sorts rowid_sorter.
Proof.
  intros terms l. unfold rowid_sorter.
  assert (H : forall acc,
             StronglySorted (in_order terms) acc ->
             Permutation
               (fold_left (fun acc r => insert_row terms r acc) l acc)
               (acc ++ l)
             /\ StronglySorted (in_order terms)
                  (fold_left (fun acc r => insert_row terms r acc) l acc)).
  { induction l as [|r l IH]; intros acc Hacc; simpl.
    - rewrite app_nil_r. split; [reflexivity | exact Hacc].
    - destruct (IH (insert_row terms r acc)) as [Hp Hs];
        [now apply insert_row_sorted|].
      split; [|exact Hs]. rewrite Hp, insert_row_perm.
      now rewrite <- Permutation_middle. }
  apply (H []). constructor.
Qed.

(** ** The store that [init_database] keeps *)

Definition table_ok (name : string) (columns : list column) (db : database)
  : Prop :=
  forall t, find_table db name = Some t -> tbl_columns t = columns.

(** The tables of the store, where they exist, are those that
    [init_database] creates. *)
Definition schema_ok (db : database) : Prop :=
  table_ok "galamsay_sites" galamsay_sites_columns db
  /\ table_ok "analysis_log" analysis_log_columns db
  /\ table_ok "invalid_records" invalid_records_columns db.

Definition respects (name : string) (columns : list column) (s : schema_stmt)
  : Prop :=
  match s with
  | CreateTable n c => same_name n name = true -> c = columns
  | CreateIndex _ _ _ => True
  end.

Lemma run_stmt_table_ok :
  forall name columns s db d,
    respects name columns s -> table_ok name columns db ->
    run_stmt s db = Ok d -> table_ok name columns d.
Proof.
  intros name columns [n c | n tbl c] db d Hs Hdb; simpl.
  - unfold create_table_if_not_exists.
    destruct (find_table db n) eqn:Et.
    + intros H. now injection H as <-.
    + destruct (find_index db n); [discriminate|].
      intros H. injection H as <-. intros t Ht.
      unfold find_table in *. simpl in Ht.
      destruct (find (fun x => same_name (tbl_name x) name) (db_tables db))
        as [t0|] eqn:E0.
      * rewrite find_app_some in Ht by (now rewrite E0).
        apply Hdb. now rewrite <- Ht.
      * rewrite (find_app_none _ _ _ _ E0) in Ht. simpl in Ht.
        destruct (same_name n name) eqn:En; [|discriminate].
        injection Ht as <-. simpl. now apply Hs.
  - unfold create_index_if_not_exists.
    destruct (find_table db tbl) as [t|]; [|discriminate].
    destruct (find_table db n); [discriminate|].
    destruct (find_index db n).
    + intros H. now injection H as <-.
    + destruct (has_column t c); [|discriminate].
      intros H. now injection H as <-.
Qed.

Lemma run_schema_table_ok :
  forall name columns l db d,
    Forall (respects name columns) l -> table_ok name columns db ->
    run_schema l db = (Ok tt, d) -> table_ok name columns d.
Proof.
  intros name columns. induction l as [|s l IH]; intros db d Hl Hdb H;
    simpl in H.
  - now injection H as <-.
  - inversion Hl as [|? ? Hs Hl']; subst.
    destruct (run_stmt s db) as [d1|e] eqn:E; [|discriminate].
    apply (IH d1 d Hl'); [|exact H].
    eapply run_stmt_table_ok; eassumption.
Qed.

(** A table of the store after a call of [init_database] that returned. *)
Definition table_of (db : database) (name : string) (columns : list column)
    (rows_ : list (dict sqlval)) : Prop :=
  exists t, find_table db name = Some t /\ tbl_columns t = columns
            /\ tbl_rows t = rows_.

Lemma init_database_tables :
  forall db db1,
    schema_ok db -> init_database db = (Ok tt, db1) ->
    schema_ok db1
    /\ table_of db1 "galamsay_sites" galamsay_sites_columns
         (rows_in db "galamsay_sites")
    /\ table_of db1 "analysis_log" analysis_log_columns
         (rows_in db "analysis_log")
    /\ table_of db1 "invalid_records" invalid_records_columns
         (rows_in db "invalid_records").
Proof.
  intros db db1 (Hs & Hl & Hi) H.
  pose proof (init_database_same_rows db) as Hrows.
  rewrite H in Hrows. cbn [snd] in Hrows.
  rewrite init_database_run in H.
  assert (Hok : schema_ok db1).
  { repeat split.
    - apply (run_schema_table_ok _ _ init_statements db db1); auto.
      unfold init_statements. repeat constructor; simpl; discriminate.
    - apply (run_schema_table_ok _ _ init_statements db db1); auto.
      unfold init_statements. repeat constructor; simpl; discriminate.
    - apply (run_schema_table_ok _ _ init_statements db db1); auto.
      unfold init_statements. repeat constructor; simpl; discriminate. }
  split; [exact Hok|]. destruct Hok as (Hs1 & Hl1 & Hi1).
  pose proof (run_schema_done _ _ _ init_statements_tables_first H) as Hdone.
  unfold init_statements in Hdone.
  inversion Hdone as [|? ? Hd1 Hdone2]; subst.
  inversion Hdone2 as [|? ? Hd2 Hdone3]; subst.
  inversion Hdone3 as [|? ? Hd3 _]; subst.
  simpl in Hd1, Hd2, Hd3. unfold table_of.
  repeat split.
  - destruct (find_table db1 "galamsay_sites") as [t|] eqn:E;
      [|contradiction].
    exists t. repeat split; [now apply Hs1|].
    rewrite <- (same_rows_rows_in db db1 "galamsay_sites" Hrows).
    unfold rows_in. now rewrite E.
  - destruct (find_table db1 "analysis_log") as [t|] eqn:E;
      [|contradiction].
    exists t. repeat split; [now apply Hl1|].
    rewrite <- (same_rows_rows_in db db1 "analysis_log" Hrows).
    unfold rows_in. now rewrite E.
  - destruct (find_table db1 "invalid_records") as [t|] eqn:E;
      [|contradiction].
    exists t. repeat split; [now apply Hi1|].
    rewrite <- (same_rows_rows_in db db1 "invalid_records" Hrows).
    unfold rows_in. now rewrite E.
Qed.

(** *** The rows that a save adds *)

Definition site_row (id : Z) (v : ValidRecord) (batch_id timestamp : string)
  : dict sqlval :=
  [ ("id", SqlInt id);
    ("city", SqlText (city v));
    ("region", SqlText (region v));
    ("num_sites", SqlInt (num_sites v));
    ("created_at", SqlText timestamp);
    ("batch_id", SqlText batch_id) ].

Definition invalid_row (id : Z) (i : InvalidRecord)
    (batch_id timestamp : string) : dict sqlval :=
  [ ("id", SqlInt id);
    ("batch_id", SqlText batch_id);
    ("row_number", SqlInt (inv_row i));
    ("city", data_get (inv_data i) "City");
    ("region", data_get (inv_data i) "Region");
    ("num_sites_raw", data_get (inv_data i) "Number_of_Galamsay_Sites");
    ("reason", SqlText (inv_reason i));
    ("created_at", SqlText timestamp) ].

Lemma new_site_row :
  forall t v batch_id timestamp,
    tbl_columns t = galamsay_sites_columns ->
    new_row t (combine site_columns (site_values batch_id v)) timestamp
    = site_row (tbl_sequence t + 1) v batch_id timestamp.
Proof.
  intros t v batch_id timestamp H. unfold new_row. rewrite H. reflexivity.
Qed.

Lemma new_invalid_row :
  forall t i batch_id timestamp,
    tbl_columns t = invalid_records_columns ->
    new_row t (combine invalid_columns (invalid_values batch_id i)) timestamp
    = invalid_row (tbl_sequence t + 1) i batch_id timestamp.
Proof.
  intros t i batch_id timestamp H. unfold new_row. rewrite H. reflexivity.
Qed.

(** Statements on one table add their rows to it, in their order. *)
Lemma run_inserts_rows :
  forall (A : Type) timestamp tbl columns (stmt : A -> insert_stmt)
         (row : Z -> A -> dict sqlval),
    (forall x, ins_table (stmt x) = tbl) ->
    (forall x t,
        tbl_columns t = columns ->
        new_row t (combine (ins_columns (stmt x)) (ins_values (stmt x)))
          timestamp
        = row (tbl_sequence t + 1) x) ->
    forall l d d' rows_,
      table_of d tbl columns rows_ ->
      run_inserts timestamp (map stmt l) d = Ok d' ->
      exists new,
        table_of d' tbl columns (rows_ ++ new)%list
        /\ Forall2 (fun x r => exists id, r = row id x) l new.
Proof.
  intros A timestamp tbl columns stmt row Htbl Hrow.
  induction l as [|x l IH]; intros d d' rows_ Ht H; simpl in H.
  - injection H as <-. exists []. rewrite app_nil_r. split; [exact Ht|].
    constructor.
  - destruct (run_insert timestamp (stmt x) d) as [d1|e] eqn:E;
      cbn [bind] in H; [|discriminate].
    unfold run_insert in E.
    destruct (bind_parameters (ins_values (stmt x))) as [[]|e];
      cbn [bind] in E; [|discriminate].
    destruct (insert_into_ok _ _ _ _ _ _ E) as (t & Et & _ & _ & Hfind).
    destruct Ht as (t0 & Et0 & Hc & Hr). rewrite Htbl in Et.
    rewrite Et0 in Et. injection Et as <-.
    specialize (Hfind tbl). rewrite Htbl, same_name_refl in Hfind.
    rewrite (Hrow x t0 Hc) in Hfind.
    destruct (IH d1 d' (rows_ ++ [row (tbl_sequence t0 + 1) x])%list)
      as (new & Ht' & Hnew).
    + eexists. split; [exact Hfind|]. split; [exact Hc|].
      cbn [tbl_rows]. now rewrite Hr.
    + exact H.
    + exists (row (tbl_sequence t0 + 1) x :: new). split.
      * now rewrite <- app_assoc in Ht'.
      * constructor; [now exists (tbl_sequence t0 + 1) | exact Hnew].
Qed.

Lemma table_of_untouched :
  forall timestamp l d d' name columns rows_,
    (forall s, In s l -> targets name s = false) ->
    run_inserts timestamp l d = Ok d' ->
    table_of d name columns rows_ -> table_of d' name columns rows_.
Proof.
  intros timestamp l d d' name columns rows_ Hl H (t & Et & Hc & Hr).
  exists t. split; [|split; assumption].
  rewrite <- Et. eapply run_inserts_untouched; eassumption.
Qed.

(** What a save that returns has done: in a store with the tables of
    [init_database], each of the three tables has its rows of before,
    then the rows of the batch in the order of the batch. *)
Lemma save_rows :
  forall res now timestamp db db' batch_id,
    schema_ok db ->
    save_analysis_to_database res now timestamp db = (Ok batch_id, db') ->
    batch_id = generate_batch_id now
    /\ (exists new,
           table_of db' "galamsay_sites" galamsay_sites_columns
             (rows_in db "galamsay_sites" ++ new)%list
           /\ Forall2 (fun v r => exists id,
                           r = site_row id v batch_id timestamp)
                (valid_data res) new)
    /\ (exists id,
           table_of db' "analysis_log" analysis_log_columns
             (rows_in db "analysis_log"
              ++ [log_row id res batch_id timestamp])%list)
    /\ (exists new,
           table_of db' "invalid_records" invalid_records_columns
             (rows_in db "invalid_records" ++ new)%list
           /\ Forall2 (fun i r => exists id,
                           r = invalid_row id i batch_id timestamp)
                (invalid_records res) new).
Proof.
  intros res now timestamp db db' batch_id Hdb Hsave.
  rewrite save_analysis_statements in Hsave.
  destruct (init_database db) as [[[]|e] db1] eqn:Einit; [|discriminate].
  destruct (init_database_tables db db1 Hdb Einit) as (_ & Ts & Tl & Ti).
  destruct (run_inserts timestamp
              (save_statements res (generate_batch_id now)) db1)
    as [d|e] eqn:Erun; [|discriminate].
  injection Hsave as <- <-. split; [reflexivity|].
  set (batch_id := generate_batch_id now) in *.
  unfold save_statements in Erun. rewrite run_inserts_app in Erun.
  destruct (run_inserts timestamp (map (site_stmt batch_id) (valid_data res))
              db1) as [d1|e] eqn:E1; cbn [bind] in Erun; [|discriminate].
  cbn [run_inserts] in Erun.
  destruct (run_insert timestamp (log_stmt res batch_id) d1) as [d2|e] eqn:E2;
    cbn [bind] in Erun; [|discriminate].
  assert (Hsites : forall s, In s (map (site_stmt batch_id) (valid_data res))
                             -> forall name,
                                same_name "galamsay_sites" name = false ->
                                targets name s = false).
  { intros s Hs name Hn. apply in_map_iff in Hs.
    now destruct Hs as (v & <- & _). }
  assert (Hinv : forall s, In s (map (invalid_stmt batch_id)
                                   (invalid_records res))
                           -> forall name,
                              same_name "invalid_records" name = false ->
                              targets name s = false).
  { intros s Hs name Hn. apply in_map_iff in Hs.
    now destruct Hs as (v & <- & _). }
  (* the sites *)
  destruct (run_inserts_rows _ timestamp "galamsay_sites"
              galamsay_sites_columns (site_stmt batch_id)
              (fun id v => site_row id v batch_id timestamp)
              (fun _ => eq_refl)
              (fun v t H => new_site_row t v batch_id timestamp H)
              _ _ _ _ Ts E1) as (new_s & Ts1 & Hnew_s).
  (* the log *)
  assert (Tl1 : table_of d1 "analysis_log" analysis_log_columns
                  (rows_in db "analysis_log")).
  { eapply table_of_untouched; [|exact E1|exact Tl].
    intros s Hs. now apply (Hsites s Hs). }
  assert (E2' : run_inserts timestamp (map (fun _ : unit =>
                                              log_stmt res batch_id) [tt]) d1
                = Ok d2) by (simpl; now rewrite E2).
  destruct (run_inserts_rows _ timestamp "analysis_log"
              analysis_log_columns (fun _ : unit => log_stmt res batch_id)
              (fun id _ => log_row id res batch_id timestamp)
              (fun _ => eq_refl)
              (fun _ t H => new_log_row t res batch_id timestamp H)
              _ _ _ _ Tl1 E2') as (new_l & Tl2 & Hnew_l).
  inversion Hnew_l as [|? r ? ? [id Hr] Hnil]; subst.
  inversion Hnil; subst.
  (* the invalid records *)
  assert (Ti2 : table_of d2 "invalid_records" invalid_records_columns
                  (rows_in db "invalid_records")).
  { eapply (table_of_untouched timestamp [log_stmt res batch_id] d1);
      [| simpl; now rewrite E2 |].
    - intros s [<- | []]. reflexivity.
    - eapply table_of_untouched; [|exact E1|exact Ti].
      intros s Hs. now apply (Hsites s Hs). }
  destruct (run_inserts_rows _ timestamp "invalid_records"
              invalid_records_columns (invalid_stmt batch_id)
              (fun id i => invalid_row id i batch_id timestamp)
              (fun _ => eq_refl)
              (fun i t H => new_invalid_row t i batch_id timestamp H)
              _ _ _ _ Ti2 Erun) as (new_i & Ti3 & Hnew_i).
  split; [|split].
  - exists new_s. split; [|exact Hnew_s].
    eapply table_of_untouched; [|exact Erun|].
    { intros s Hs. now apply (Hinv s Hs). }
    eapply (table_of_untouched timestamp [log_stmt res batch_id] d1);
      [| simpl; now rewrite E2 | exact Ts1].
    intros s [<- | []]. reflexivity.
  - exists id.
    eapply table_of_untouched; [|exact Erun|exact Tl2].
    intros s Hs. now apply (Hinv s Hs).
  - exists new_i. split; [exact Ti3 | exact Hnew_i].
Qed.

Lemma table_of_ok :
  forall db name columns rows_,
    table_of db name columns rows_ -> table_ok name columns db.
Proof.
  intros db name columns rows_ (t & Et & Hc & _) t' Et'.
  rewrite Et in Et'. now injection Et' as <-.
Qed.

Lemma table_of_rows :
  forall db name columns rows_,
    table_of db name columns rows_ -> rows_in db name = rows_.
Proof.
  intros db name columns rows_ (t & Et & _ & Hr). unfold rows_in.
  now rewrite Et.
Qed.

Lemma run_schema_keeps_table_ok :
  forall name columns l db,
    Forall (respects name columns) l -> table_ok name columns db ->
    table_ok name columns (snd (run_schema l db)).
Proof.
  intros name columns. induction l as [|s l IH]; intros db Hl Hdb; simpl;
    [exact Hdb|].
  inversion Hl as [|? ? Hs Hl']; subst.
  destruct (run_stmt s db) as [d1|e] eqn:E; [|exact Hdb].
  apply (IH d1 Hl'). eapply run_stmt_table_ok; eassumption.
Qed.

Lemma init_database_schema_ok :
  forall db, schema_ok db -> schema_ok (snd (init_database db)).
Proof.
  intros db (Hs & Hl & Hi). rewrite init_database_run.
  repeat split; apply run_schema_keeps_table_ok; auto;
    unfold init_statements; repeat constructor; simpl; discriminate.
Qed.

(** The batch id of a row. *)
Definition batch_of (row : dict sqlval) : sqlval := cell_of row "batch_id".

Lemma sqlval_eqb_text :
  forall v s, sqlval_eqb v (SqlText s) = true <-> v = SqlText s.
Proof.
  intros [|n|t] s; simpl; split; try discriminate.
  - intros H. apply String.eqb_eq in H. now subst.
  - intros H. injection H as ->. apply String.eqb_refl.
Qed.

(** A save that returns has found no row of the log with its batch id:
    the column is [UNIQUE]. *)
Lemma save_fresh :
  forall res now timestamp db db' batch_id,
    schema_ok db ->
    save_analysis_to_database res now timestamp db = (Ok batch_id, db') ->
    ~ In (SqlText batch_id) (map batch_of (rows_in db "analysis_log")).
Proof.
  intros res now timestamp db db' batch_id Hdb Hsave.
  rewrite save_analysis_statements in Hsave.
  destruct (init_database db) as [[[]|e] db1] eqn:Einit; [|discriminate].
  destruct (init_database_tables db db1 Hdb Einit)
    as (_ & _ & (t1 & Et1 & Hcols & Hrows) & _).
  destruct (run_inserts timestamp
              (save_statements res (generate_batch_id now)) db1)
    as [d|e] eqn:Erun; [|discriminate].
  injection Hsave as <- <-.
  set (batch_id := generate_batch_id now) in *.
  unfold save_statements in Erun. rewrite run_inserts_app in Erun.
  destruct (run_inserts timestamp (map (site_stmt batch_id) (valid_data res))
              db1) as [d1|e] eqn:E1; cbn [bind] in Erun; [|discriminate].
  cbn [run_inserts] in Erun.
  destruct (run_insert timestamp (log_stmt res batch_id) d1) as [d2|e] eqn:E2;
    cbn [bind] in Erun; [|discriminate].
  assert (Ft1 : find_table d1 "analysis_log" = Some t1).
  { rewrite <- Et1. eapply run_inserts_untouched; [|exact E1].
    intros s Hs. apply in_map_iff in Hs. now destruct Hs as (v & <- & _). }
  unfold run_insert in E2.
  destruct (bind_parameters (ins_values (log_stmt res batch_id))) as [[]|e];
    cbn [bind] in E2; [|discriminate].
  cbn [log_stmt ins_table ins_columns ins_values] in E2.
  pose proof (insert_into_unique _ _ _ _ _ _ _ E2 Ft1) as Huniq.
  rewrite (new_log_row _ _ _ _ Hcols) in Huniq.
  unfold violates_unique in Huniq. rewrite Hcols in Huniq.
  pose proof (existsb_false_In _ _ _
                {| col_name := "batch_id"; col_type := "TEXT";
                   col_not_null := true; col_unique := true;
                   col_autoincrement := false;
                   col_current_timestamp := false |}
                Huniq) as Hb.
  cbn [col_unique col_name andb] in Hb.
  assert (Hin : In {| col_name := "batch_id"; col_type := "TEXT";
                      col_not_null := true; col_unique := true;
                      col_autoincrement := false;
                      col_current_timestamp := false |}
                  analysis_log_columns) by (simpl; tauto).
  specialize (Hb Hin). rewrite Hrows in Hb.
  intros Hold. apply in_map_iff in Hold. destruct Hold as (old & Ho & Hold).
  pose proof (existsb_false_In _ _ _ old Hb Hold) as Hneq.
  cbv beta in Hneq. unfold batch_of in Ho. rewrite Ho in Hneq.
  change (cell_of (log_row (tbl_sequence t1 + 1) res batch_id timestamp)
            "batch_id") with (SqlText batch_id) in Hneq.
  simpl in Hneq. now rewrite String.eqb_refl in Hneq.
Qed.

(** A save that raises leaves the rows of the store as they were. *)
Lemma save_raises_rows :
  forall res now timestamp db db' e,
    save_analysis_to_database res now timestamp db = (Raise e, db') ->
    db' = snd (init_database db).
Proof.
  intros res now timestamp db db' e H.
  rewrite save_analysis_statements in H.
  destruct (init_database db) as [[[]|e1] db1]; [|now injection H as _ <-].
  destruct (run_inserts timestamp _ db1); [discriminate|].
  now injection H as _ <-.
Qed.

(** ** The invariant of the store

    The tables are those of [init_database]; no two rows of the log have
    one batch id; and every row of the two other tables carries the batch
    id of a row of the log. *)
Definition logged (db : database) (b : sqlval) : Prop :=
  In b (map batch_of (rows_in db "analysis_log")).

Definition store_ok (db : database) : Prop :=
  schema_ok db
  /\ NoDup (map batch_of (rows_in db "analysis_log"))
  /\ (forall r, In r (rows_in db "galamsay_sites") -> logged db (batch_of r))
  /\ (forall r, In r (rows_in db "invalid_records") -> logged db (batch_of r)).

Lemma store_ok_same_rows :
  forall db d,
    (forall name, rows_in d name = rows_in db name) ->
    schema_ok d -> store_ok db -> store_ok d.
Proof.
  intros db d Hrows Hd (_ & Hnd & Hs & Hi). unfold store_ok, logged.
  rewrite !Hrows. auto.
Qed.

Lemma init_database_store_ok :
  forall db, store_ok db -> store_ok (snd (init_database db)).
Proof.
  intros db Hdb. apply (store_ok_same_rows db); [| |exact Hdb].
  - intros name. apply same_rows_rows_in, init_database_same_rows.
  - apply init_database_schema_ok, Hdb.
Qed.

Lemma batch_of_rows :
  forall (A : Type) (row : Z -> A -> dict sqlval) (b : sqlval) l new,
    (forall id x, batch_of (row id x) = b) ->
    Forall2 (fun x r => exists id, r = row id x) l new ->
    forall r, In r new -> batch_of r = b.
Proof.
  intros A row b l new Hb H. induction H as [|x r l new [id ->] _ IH];
    intros r' Hin; [contradiction|].
  destruct Hin as [<- | Hin]; [apply Hb | now apply IH].
Qed.

Lemma store_ok_empty : store_ok empty_database.
Proof.
  repeat split; try (intros t H; discriminate); try constructor;
    intros r [].
Qed.

(** The invariant holds in a fresh store and after every call of
    [init_database] and of [save_analysis_to_database], whether the call
    returns or raises. *)
Theorem store_invariant :
  store_ok empty_database
  /\ (forall db, store_ok db -> store_ok (snd (init_database db)))
  /\ (forall res now timestamp db,
         store_ok db ->
         store_ok (snd (save_analysis_to_database res now timestamp db))).
Proof.
  split; [exact store_ok_empty|]. split; [exact init_database_store_ok|].
  - intros res now timestamp db Hdb.
    destruct (save_analysis_to_database res now timestamp db)
      as [[batch_id|e] db'] eqn:E; cbn [snd].
    + destruct Hdb as (Hschema & Hnd & Hs & Hi).
      pose proof (save_fresh _ _ _ _ _ _ Hschema E) as Hfresh.
      destruct (save_rows _ _ _ _ _ _ Hschema E)
        as (_ & (new_s & Ts & Hnew_s) & (id & Tl) & (new_i & Ti & Hnew_i)).
      unfold store_ok, logged.
      rewrite (table_of_rows _ _ _ _ Ts), (table_of_rows _ _ _ _ Tl),
        (table_of_rows _ _ _ _ Ti).
      rewrite map_app. cbn [map].
      change (batch_of (log_row id res batch_id timestamp))
        with (SqlText batch_id).
      repeat split.
      * exact (table_of_ok _ _ _ _ Ts).
      * exact (table_of_ok _ _ _ _ Tl).
      * exact (table_of_ok _ _ _ _ Ti).
      * apply NoDup_app_remove_l with (l := []). simpl.
        apply Permutation_NoDup
          with (l := SqlText batch_id
                     :: map batch_of (rows_in db "analysis_log")).
        -- apply Permutation_cons_append.
        -- now constructor.
      * intros r Hr. apply in_or_app. apply in_app_or in Hr.
        destruct Hr as [Hr | Hr]; [left; now apply Hs | right; left].
        symmetry.
        apply (batch_of_rows _
                 (fun id v => site_row id v batch_id timestamp)
                 (SqlText batch_id) _ _ (fun _ _ => eq_refl) Hnew_s r Hr).
      * intros r Hr. apply in_or_app. apply in_app_or in Hr.
        destruct Hr as [Hr | Hr]; [left; now apply Hi | right; left].
        symmetry.
        apply (batch_of_rows _
                 (fun id i => invalid_row id i batch_id timestamp)
                 (SqlText batch_id) _ _ (fun _ _ => eq_refl) Hnew_i r Hr).
    + rewrite (save_raises_rows _ _ _ _ _ _ E).
      now apply init_database_store_ok.
Qed.

Lemma store_invariant_witness :
  store_ok
    (snd (save_analysis_to_database sample_results noon "2025-12-03 12:00:00"
            (snd (init_database empty_database)))).
Proof.
  destruct store_invariant as (Hempty & Hinit & Hsave).
  apply Hsave, Hinit, Hempty.
Defined.

(** ** [get_database_stats] after a save *)

Lemma count_rows_table :
  forall db name columns rows_,
    table_of db name columns rows_ -> count_rows name db = Ok (len rows_).
Proof.
  intros db name columns rows_ (t & Et & _ & Hr). unfold count_rows.
  now rewrite Et, Hr.
Qed.

Definition column_values (column : string) (rows_ : list (dict sqlval))
  : list sqlval :=
  filter (fun v => negb (is_null v))
    (map (fun row => cell_of row column) rows_).

Lemma count_distinct_table :
  forall db name columns rows_ column,
    table_of db name columns rows_ ->
    existsb (fun c => same_name (col_name c) column) columns = true ->
    count_distinct name column db
    = Ok (len (distinct_values (column_values column rows_))).
Proof.
  intros db name columns rows_ column (t & Et & Hc & Hr) Hcol.
  unfold count_distinct, has_column. now rewrite Et, Hc, Hcol, Hr.
Qed.

Lemma add_value_text :
  forall seen k,
    add_value (map SqlText seen) (SqlText k) = map SqlText (add_key seen k).
Proof.
  intros seen k. unfold add_value, add_key, mem.
  assert (H : existsb (sqlval_eqb (SqlText k)) (map SqlText seen)
              = existsb (String.eqb k) seen).
  { induction seen as [|x seen IH]; [reflexivity|]. simpl. now rewrite IH. }
  rewrite H. destruct (existsb (String.eqb k) seen); [reflexivity|].
  now rewrite map_app.
Qed.

Lemma distinct_values_text :
  forall l, distinct_values (map SqlText l) = map SqlText (fold_left add_key l []).
Proof.
  intros l. unfold distinct_values.
  change (@nil sqlval) with (map SqlText []). generalize (@nil string).
  induction l as [|k l IH]; intros seen; [reflexivity|]. simpl.
  now rewrite add_value_text, IH.
Qed.

Lemma distinct_values_length :
  forall l, (List.length (distinct_values l) <= List.length l)%nat.
Proof.
  intros l. unfold distinct_values.
  assert (H : forall seen,
             (List.length (fold_left add_value l seen)
              <= List.length seen + List.length l)%nat).
  { induction l as [|v l IH]; intros seen; simpl; [lia|].
    specialize (IH (add_value seen v)). unfold add_value in *.
    destruct (existsb (sqlval_eqb v) seen); [lia|].
    rewrite length_app in IH. simpl in IH. lia. }
  apply (H []).
Qed.

Lemma column_values_text :
  forall (A : Type) (row : Z -> A -> dict sqlval) (f : A -> string) column
         l new,
    (forall id x, cell_of (row id x) column = SqlText (f x)) ->
    Forall2 (fun x r => exists id, r = row id x) l new ->
    column_values column new = map SqlText (map f l).
Proof.
  intros A row f column l new Hcell H. unfold column_values.
  induction H as [|x r l new [id ->] _ IH]; [reflexivity|].
  cbn [map]. rewrite Hcell. cbn [filter is_null negb]. now rewrite IH.
Qed.

Lemma Forall2_len :
  forall (A B : Type) (R : A -> B -> Prop) l l',
    Forall2 R l l' -> len l' = len l.
Proof.
  intros A B R l l' H. unfold len. f_equal. symmetry.
  eapply Forall2_length. exact H.
Qed.

Lemma len_app : forall (A : Type) (l l' : list A), len (l ++ l') = len l + len l'.
Proof. intros A l l'. unfold len. rewrite length_app. lia. Qed.

Lemma get_database_stats_tables :
  forall db sites logs invalid,
    table_of db "galamsay_sites" galamsay_sites_columns sites ->
    table_of db "analysis_log" analysis_log_columns logs ->
    table_of db "invalid_records" invalid_records_columns invalid ->
    get_database_stats db
    = (Ok {| total_site_records := len sites;
             total_analysis_logs := len logs;
             stats_invalid_records := len invalid;
             unique_regions :=
               len (distinct_values (column_values "region" sites));
             unique_cities :=
               len (distinct_values (column_values "city" sites)) |},
       db).
Proof.
  intros db sites logs invalid Ts Tl Ti.
  unfold get_database_stats, with_db_connection, and_then, execute_query,
    ret, current.
  cbn [pending committed].
  rewrite (count_rows_table _ _ _ _ Ts), (count_rows_table _ _ _ _ Tl),
    (count_rows_table _ _ _ _ Ti).
  rewrite (count_distinct_table _ _ _ _ "region" Ts eq_refl).
  rewrite (count_distinct_table _ _ _ _ "city" Ts eq_refl).
  reflexivity.
Qed.

(** In a store with the tables of [init_database], after a save that
    returned, [get_database_stats] returns: the three totals have grown by
    the number of valid records, by one, and by the number of invalid
    records; the numbers of regions and of cities are at most the number
    of site rows; and in a store that had no site rows they are the
    numbers of different regions and of different cities of the batch. *)
Theorem stats_after_save :
  forall (res : AnalysisResults) (now : datetime) (timestamp : string)
         (db db' : database) (batch_id : string),
    schema_ok db ->
    save_analysis_to_database res now timestamp db = (Ok batch_id, db') ->
    exists stats,
      get_database_stats db' = (Ok stats, db')
      /\ total_site_records stats
         = len (rows_in db "galamsay_sites") + len (valid_data res)
      /\ total_analysis_logs stats = len (rows_in db "analysis_log") + 1
      /\ stats_invalid_records stats
         = len (rows_in db "invalid_records") + len (invalid_records res)
      /\ unique_regions stats <= total_site_records stats
      /\ unique_cities stats <= total_site_records stats
      /\ (rows_in db "galamsay_sites" = [] ->
          unique_regions stats = len (regions_in_order (valid_data res))
          /\ unique_cities stats
             = len (fold_left add_key (map city (valid_data res)) [])).
Proof.
  intros res now timestamp db db' batch_id Hdb Hsave.
  destruct (save_rows _ _ _ _ _ _ Hdb Hsave)
    as (_ & (new_s & Ts & Hnew_s) & (id & Tl) & (new_i & Ti & Hnew_i)).
  eexists. split; [apply (get_database_stats_tables _ _ _ _ Ts Tl Ti)|].
  cbn [total_site_records total_analysis_logs stats_invalid_records
         unique_regions unique_cities].
  rewrite !len_app, (Forall2_len _ _ _ _ _ Hnew_s),
    (Forall2_len _ _ _ _ _ Hnew_i).
  assert (Hle : forall column (rows_ : list (dict sqlval)),
             len (distinct_values (column_values column rows_))
             <= len rows_).
  { intros column rows_. unfold len, column_values.
    pose proof (distinct_values_length
                  (filter (fun v => negb (is_null v))
                     (map (fun row => cell_of row column) rows_))) as H1.
    pose proof (filter_length_le (fun v => negb (is_null v))
                  (map (fun row => cell_of row column) rows_)) as H2.
    rewrite length_map in H2. lia. }
  repeat split; try reflexivity.
  - rewrite <- (Forall2_len _ _ _ _ _ Hnew_s), <- len_app. apply Hle.
  - rewrite <- (Forall2_len _ _ _ _ _ Hnew_s), <- len_app. apply Hle.
  - rewrite H. cbn [app].
    rewrite (column_values_text _
               (fun id v => site_row id v batch_id timestamp) region
               "region" _ _ (fun _ _ => eq_refl) Hnew_s).
    rewrite distinct_values_text. unfold len, regions_in_order.
    now rewrite length_map.
  - rewrite H. cbn [app].
    rewrite (column_values_text _
               (fun id v => site_row id v batch_id timestamp) city
               "city" _ _ (fun _ _ => eq_refl) Hnew_s).
    rewrite distinct_values_text. unfold len. now rewrite length_map.
Qed.

Lemma stats_after_save_witness :
  exists db' stats,
    save_analysis_to_database sample_results noon "2025-12-03 12:00:00"
      empty_database
    = (Ok "20251203_120000_000042", db')
    /\ get_database_stats db' = (Ok stats, db')
    /\ total_site_records stats = 2
    /\ total_analysis_logs stats = 1
    /\ stats_invalid_records stats = 1
    /\ unique_regions stats = 1.
Proof.
  destruct (save_analysis_to_database sample_results noon
              "2025-12-03 12:00:00" empty_database) as [r db'] eqn:E.
  assert (Hr : r = Ok "20251203_120000_000042")
    by (apply (f_equal fst) in E; vm_compute in E; now symmetry).
  subst r.
  assert (Hdb : schema_ok empty_database)
    by (repeat split; intros t Ht; discriminate).
  destruct (stats_after_save sample_results noon "2025-12-03 12:00:00"
              empty_database db' "20251203_120000_000042" Hdb E)
    as (stats & Hstats & Hs & Hl & Hi & _ & _ & Hu).
  exists db', stats. split; [reflexivity|]. split; [exact Hstats|].
  destruct (Hu eq_refl) as [Hregions _].
  rewrite Hs, Hl, Hi, Hregions. repeat split; reflexivity.
Defined.

(** ** Reading a batch back by its id *)

Lemma select_table :
  forall sort columns tbl where_ order_by db cols rows_,
    table_of db tbl cols rows_ ->
    find (fun n => negb (existsb (fun c => same_name (col_name c) n) cols))
      ((match columns with Some l => l | None => [] end)
       ++ (match where_ with Some (c, _) => [c] | None => [] end)
       ++ map fst order_by)%list = None ->
    exists t,
      tbl_columns t = cols
      /\ select sort columns tbl where_ order_by db
         = Ok (map (project t columns)
                 (let found :=
                    match where_ with
                    | Some (c, v) =>
                        filter (fun row => sqlval_eqb (cell_of row c) v) rows_
                    | None => rows_
                    end in
                  match order_by with
                  | [] => found
                  | _ => sort order_by found
                  end)).
Proof.
  intros sort columns tbl where_ order_by db cols rows_ (t & Et & Hc & Hr) H.
  exists t. split; [exact Hc|]. unfold select, has_column.
  now rewrite Et, Hc, H, Hr.
Qed.








(** *** [get_invalid_records] *)






(** *** [get_all_sites] *)






(** ** The latest analysis *)

Lemma parse_rows_all :
  forall rows_ results,
    Forall (fun row => exists e, log_entry row = Ok e) rows_ ->
    exists entries,
      parse_rows rows_ results = Ok (results ++ entries)%list
      /\ List.length entries = List.length rows_.
Proof.
  induction rows_ as [|row rows_ IH]; intros results H; simpl.
  - exists []. now rewrite app_nil_r.
  - inversion H as [|? ? [e He] Hrest]; subst. rewrite He. simpl.
    destruct (IH (results ++ [e])%list Hrest) as (entries & Hrun & Hlen).
    exists (e :: entries). rewrite Hrun, <- app_assoc. simpl.
    split; [reflexivity | now rewrite Hlen].
Qed.

(** The logs of a store whose log table ends with a row that is newer
    than the other rows: the entry of this row comes first. *)
Lemma latest_in_table :
  forall (sort : sorter) db (old : list (dict sqlval)) row entry,
    sorts sort ->
    table_of db "analysis_log" analysis_log_columns (old ++ [row])%list ->
    Forall (fun r =>
              sqlval_compare (cell_of r "analysis_timestamp")
                (cell_of row "analysis_timestamp") = Lt
              /\ exists e, log_entry r = Ok e)
      old ->
    log_entry row = Ok entry ->
    exists older,
      get_all_analysis_logs sort db = (Ok (entry :: older), db)
      /\ List.length older = List.length old.
Proof.
  intros sort db old new entry Hsort Tl Hold He.
  set (terms := [ ("analysis_timestamp", Desc) ] : list order_term).
  destruct (select_table sort None "analysis_log" None terms db _ _ Tl
              eq_refl) as (t & Hc & Hsel).
  cbv zeta in Hsel. cbn [terms project] in Hsel. rewrite map_id in Hsel.
  fold terms in Hsel.
  destruct (Hsort terms (old ++ [new])%list) as [Hp Hsorted].
  assert (Hnew : Forall (fun y => order_compare terms new y = Lt) old).
  { eapply Forall_impl; [|exact Hold]. intros r [Hlt _].
    unfold terms. cbn [order_compare].
    rewrite sqlval_compare_antisym, Hlt. reflexivity. }
  assert (Hp' : Permutation (sort terms (old ++ [new])%list) (new :: old)).
  { rewrite Hp. apply Permutation_sym, Permutation_cons_append. }
  destruct (strict_first terms new old _ Hnew Hp' Hsorted)
    as (rest & Hfirst & Hrest).
  assert (Hparse : Forall (fun r => exists e, log_entry r = Ok e) rest).
  { eapply Permutation_Forall; [apply Permutation_sym, Hrest|].
    eapply Forall_impl; [|exact Hold]. now intros r [_ Hr]. }
  destruct (parse_rows_all rest [entry] Hparse) as (older & Hrun & Hlen).
  exists older. split.
  - unfold get_all_analysis_logs, with_db_connection, and_then,
      execute_query, lift, current.
    cbn [pending committed]. fold terms. rewrite Hsel, Hfirst.
    cbn [parse_rows]. rewrite He. cbn [bind app]. now rewrite Hrun.
  - rewrite Hlen. now apply Permutation_length.
Qed.



(** ** A batch id is used once *)

(** In a store with the tables of [init_database], a save whose batch id
    is in the log already raises and leaves every table with the rows it
    had; so after a save that returned, a second save at the same reading
    of the clock raises, whatever it was to save, and adds nothing. *)
Theorem batch_id_used_once :
  (forall res now timestamp db,
      schema_ok db ->
      logged db (SqlText (generate_batch_id now)) ->
      exists e db',
        save_analysis_to_database res now timestamp db = (Raise e, db')
        /\ forall name, rows_in db' name = rows_in db name)
  /\ (forall res res2 now timestamp timestamp2 db db' batch_id,
         schema_ok db ->
         save_analysis_to_database res now timestamp db = (Ok batch_id, db') ->
         exists e db'',
           save_analysis_to_database res2 now timestamp2 db'
           = (Raise e, db'')
           /\ forall name, rows_in db'' name = rows_in db' name).
Proof.
  assert (Hfirst : forall res now timestamp db,
             schema_ok db ->
             logged db (SqlText (generate_batch_id now)) ->
             exists e db',
               save_analysis_to_database res now timestamp db = (Raise e, db')
               /\ forall name, rows_in db' name = rows_in db name).
  { intros res now timestamp db Hdb Hlogged.
    destruct (save_analysis_to_database res now timestamp db)
      as [[batch_id|e] db'] eqn:E.
    - exfalso.
      destruct (save_rows _ _ _ _ _ _ Hdb E) as (Hid & _).
      apply (save_fresh _ _ _ _ _ _ Hdb E). now rewrite Hid.
    - exists e, db'. split; [reflexivity|]. intros name.
      rewrite (save_raises_rows _ _ _ _ _ _ E).
      apply same_rows_rows_in, init_database_same_rows. }
  split; [exact Hfirst|].
  intros res res2 now timestamp timestamp2 db db' batch_id Hdb Hsave.
  destruct (save_rows _ _ _ _ _ _ Hdb Hsave)
    as (Hid & (new_s & Ts & _) & (id & Tl) & (new_i & Ti & _)).
  apply Hfirst.
  - repeat split; eapply table_of_ok; eassumption.
  - unfold logged. rewrite (table_of_rows _ _ _ _ Tl), map_app.
    apply in_or_app. right. left. now rewrite <- Hid.
Qed.

Lemma batch_id_used_once_witness :
  exists db' e db'',
    save_analysis_to_database sample_results noon "2025-12-03 12:00:00"
      empty_database
    = (Ok "20251203_120000_000042", db')
    /\ save_analysis_to_database sample_results noon "2025-12-03 12:00:01"
         db'
       = (Raise e, db'')
    /\ rows_in db'' "galamsay_sites" = rows_in db' "galamsay_sites".
Proof.
  destruct (save_analysis_to_database sample_results noon
              "2025-12-03 12:00:00" empty_database) as [r db'] eqn:E.
  assert (Hr : r = Ok "20251203_120000_000042")
    by (apply (f_equal fst) in E; vm_compute in E; now symmetry).
  subst r.
  assert (Hdb : schema_ok empty_database)
    by (repeat split; intros t Ht; discriminate).
  destruct (proj2 batch_id_used_once sample_results sample_results noon
              "2025-12-03 12:00:00" "2025-12-03 12:00:01" empty_database
              db' "20251203_120000_000042" Hdb E) as (e & db'' & H2 & Hrows).
  exists db', e, db''. split; [reflexivity|]. split; [exact H2|].
  apply Hrows.
Defined.

(** ** [get_sites_by_region] after a save *)





(** ** The fields of a result of [run_full_analysis] agree *)

(** In a result of [run_full_analysis]: the region summary begins with the
    region with the highest sites and its total; the totals of the summary
    add up to [total_sites] and its city counts to [total_valid_records];
    the averages have one key for each entry of the summary and no key
    twice, and the average of an entry is the average under the key of its
    region. *)
Theorem run_full_analysis_fields_agree :
  forall (fs : filesystem) (filepath : string) (th : Z)
         (res : AnalysisResults),
    run_full_analysis fs filepath th = Ok res ->
    (exists s rest,
        region_summary res = s :: rest
        /\ rs_region s = hr_region (region_with_highest_sites res)
        /\ rs_total_sites s = hr_total_sites (region_with_highest_sites res))
    /\ sum_list (map rs_total_sites (region_summary res)) = total_sites res
    /\ sum_list (map rs_city_count (region_summary res))
       = total_valid_records res
    /\ NoDup (keys (average_sites_per_region res))
    /\ Permutation (map rs_region (region_summary res))
         (keys (average_sites_per_region res))
    /\ Forall (fun s => dict_get (average_sites_per_region res) (rs_region s)
                        = Some (rs_average_sites s))
         (region_summary res).
Proof.
  intros fs filepath th res H.
  destruct (run_full_analysis_inv _ _ _ _ H)
    as (invalid & highest & avg & summary & Hload & Hh & _ & Ha & Hs & Hres).
  destruct (load_data_ok _ _ _ _ Hload) as [Hok Hne].
  pose proof (record_ok_counts _ Hok) as Hc.
  assert (Esum : region_summary res = summary) by (rewrite Hres; reflexivity).
  assert (Eavg : average_sites_per_region res = avg)
    by (rewrite Hres; reflexivity).
  assert (Ehr : hr_region (region_with_highest_sites res) = fst highest)
    by (rewrite Hres; reflexivity).
  assert (Eht : hr_total_sites (region_with_highest_sites res) = snd highest)
    by (rewrite Hres; reflexivity).
  assert (Etot : total_sites res = get_total_sites (valid_data res))
    by (rewrite Hres at 1; reflexivity).
  assert (Elen : total_valid_records res = len (valid_data res))
    by (rewrite Hres at 1; reflexivity).
  rewrite Esum, Eavg, Ehr, Eht, Etot, Elen.
  destruct (highest_in_entries _ Hne Hc) as (entries & e & Hrun & Hmax & Hh').
  destruct (entries_sums _ Hc) as (entries2 & Hrun2 & Hsum & Hcount).
  destruct (entries_with_averages _ Hc)
    as (entries3 & avg3 & Hrun3 & Ha3 & Hk & Hak & Hent).
  rewrite Hrun in Hrun2, Hrun3. injection Hrun2 as <-. injection Hrun3 as <-.
  rewrite Ha in Ha3. injection Ha3 as <-.
  rewrite Hh in Hh'. injection Hh' as ->. cbn [fst snd].
  rewrite get_region_summary_loop, Hrun in Hs. simpl in Hs.
  injection Hs as <-.
  pose proof (sorted_reverse_perm rs_total_sites entries) as Hperm.
  rewrite <- hd_sorted_reverse in Hmax.
  repeat split.
  - destruct (sorted_reverse rs_total_sites entries) as [|s rest];
      [discriminate|].
    injection Hmax as ->. exists e, rest. repeat split.
  - now rewrite (sum_list_perm _ _ (Permutation_map rs_total_sites Hperm)).
  - now rewrite (sum_list_perm _ _ (Permutation_map rs_city_count Hperm)).
  - rewrite Hak. apply NoDup_regions_in_order.
  - rewrite Hak, <- Hk. now apply Permutation_map.
  - eapply Permutation_Forall; [apply Permutation_sym, Hperm|].
    eapply Forall_impl; [|exact Hent]. intros x Hx. apply Hx.
Qed.

Lemma run_full_analysis_fields_agree_witness :
  exists res s rest,
    run_full_analysis (one_file mixed_file) "galamsay_data.csv" 10 = Ok res
    /\ region_summary res = s :: rest
    /\ rs_region s = "Ashanti"
    /\ hr_region (region_with_highest_sites res) = "Ashanti"
    /\ sum_list (map rs_total_sites (region_summary res)) = 77.
Proof.
  destruct (run_full_analysis (one_file mixed_file) "galamsay_data.csv" 10)
    as [res|e] eqn:E; [|vm_compute in E; discriminate].
  destruct (run_full_analysis_fields_agree _ _ _ _ E)
    as ((s & rest & Hs & Hr & _) & Hsum & _).
  exists res, s, rest. split; [reflexivity|]. split; [exact Hs|].
  rewrite Hr, Hsum. vm_compute in E. injection E as <-.
  repeat split; reflexivity.
Defined.

(** ** [init_database] and the data of the store *)

Lemma run_stmt_keeps_index :
  forall s db d name i,
    run_stmt s db = Ok d ->
    find_index db name = Some i -> find_index d name = Some i.
Proof.
  intros [n c | n tbl c] db d name i; simpl.
  - unfold create_table_if_not_exists.
    destruct (find_table db n); [now intros H; injection H as <-|].
    destruct (find_index db n); [discriminate|].
    now intros H; injection H as <-.
  - unfold create_index_if_not_exists.
    destruct (find_table db tbl) as [t|]; [|discriminate].
    destruct (find_table db n); [discriminate|].
    destruct (find_index db n); [now intros H; injection H as <-|].
    destruct (has_column t c); [|discriminate].
    intros H Hi. injection H as <-. unfold find_index in *. simpl.
    rewrite find_app_some; [exact Hi | now rewrite Hi].
Qed.

Lemma run_schema_keeps_index :
  forall l db name i,
    find_index db name = Some i ->
    find_index (snd (run_schema l db)) name = Some i.
Proof.
  induction l as [|s l IH]; intros db name i H; simpl; [exact H|].
  destruct (run_stmt s db) as [d|e] eqn:E; [|exact H].
  apply IH. eapply run_stmt_keeps_index; eassumption.
Qed.

Lemma run_insert_keeps_done :
  forall timestamp s db d st,
    run_insert timestamp s db = Ok d -> done st db -> done st d.
Proof.
  intros timestamp s db d st H Hdone. unfold run_insert in H.
  destruct (bind_parameters (ins_values s)) as [[]|e]; cbn [bind] in H;
    [|discriminate].
  destruct (insert_into_ok _ _ _ _ _ _ H) as (t & Et & _ & Hidx & Hfind).
  assert (Hsome : forall n, find_table db n <> None -> find_table d n <> None).
  { intros n Hn. rewrite Hfind.
    destruct (same_name (ins_table s) n); [discriminate | exact Hn]. }
  assert (Hnone : forall n, find_table db n = None -> find_table d n = None).
  { intros n Hn. rewrite Hfind.
    destruct (same_name (ins_table s) n) eqn:E; [|exact Hn].
    rewrite (find_table_same db _ _ E) in Et. congruence. }
  destruct st as [n c | n tbl c]; simpl in *.
  - now apply Hsome.
  - destruct Hdone as (Ht & Hn & Hi). repeat split; auto.
    unfold find_index in *. now rewrite Hidx.
Qed.

Lemma run_inserts_keep_done :
  forall timestamp l db d st,
    run_inserts timestamp l db = Ok d -> done st db -> done st d.
Proof.
  intros timestamp. induction l as [|s l IH]; intros db d st H Hdone;
    simpl in H.
  - now injection H as <-.
  - destruct (run_insert timestamp s db) as [d1|e] eqn:E; cbn [bind] in H;
      [|discriminate].
    apply (IH d1 d st H). eapply run_insert_keeps_done; eassumption.
Qed.

(** [init_database] loses nothing: every table that the store had is left
    as it was, with its columns and its rows, every table that is new has
    no rows, and every index that the store had is left as it was, whether
    the call returns or raises.  After a save that returned, a call of
    [init_database] returns and leaves the store as it is. *)
Theorem init_database_keeps_data :
  (forall db,
      same_rows db (snd (init_database db))
      /\ forall name i,
           find_index db name = Some i ->
           find_index (snd (init_database db)) name = Some i)
  /\ (forall res now timestamp db db' batch_id,
         save_analysis_to_database res now timestamp db = (Ok batch_id, db') ->
         init_database db' = (Ok tt, db')).
Proof.
  split.
  - intros db. split; [apply init_database_same_rows|].
    intros name i H. rewrite init_database_run.
    now apply run_schema_keeps_index.
  - intros res now timestamp db db' batch_id H.
    rewrite save_analysis_statements in H.
    destruct (init_database db) as [[[]|e] db1] eqn:Einit; [|discriminate].
    destruct (run_inserts timestamp _ db1) as [d|e] eqn:Erun; [|discriminate].
    injection H as _ <-.
    rewrite init_database_run in Einit |- *.
    pose proof (run_schema_done _ _ _ init_statements_tables_first Einit)
      as Hdone.
    assert (Hdone' : Forall (fun s => done s d) init_statements).
    { eapply Forall_impl; [|exact Hdone]. intros st Hst.
      eapply run_inserts_keep_done; eassumption. }
    pose proof (run_schema_skip init_statements [] d Hdone') as Hskip.
    now rewrite app_nil_r in Hskip.
Qed.

Lemma init_database_keeps_data_witness :
  exists db',
    save_analysis_to_database sample_results noon "2025-12-03 12:00:00"
      empty_database
    = (Ok "20251203_120000_000042", db')
    /\ init_database db' = (Ok tt, db')
    /\ List.length (rows_in db' "galamsay_sites") = 2%nat.
Proof.
  destruct (save_analysis_to_database sample_results noon
              "2025-12-03 12:00:00" empty_database) as [r db'] eqn:E.
  assert (Hr : r = Ok "20251203_120000_000042")
    by (apply (f_equal fst) in E; vm_compute in E; now symmetry).
  subst r. exists db'. split; [reflexivity|]. split.
  - exact (proj2 init_database_keeps_data sample_results noon
             "2025-12-03 12:00:00" empty_database db'
             "20251203_120000_000042" E).
  - apply (f_equal snd) in E. cbn [snd] in E. rewrite <- E. reflexivity.
Defined.

(** ** [generate_batch_id] *)

Lemma of_uint_acc_lower :
  forall l acc,
    Zpos acc * 10 ^ Z.of_nat (Decimal.nb_digits l)
    <= Zpos (Pos.of_uint_acc l acc).
Proof.
  induction l as [|l IH|l IH|l IH|l IH|l IH|l IH|l IH|l IH|l IH|l IH];
    intros acc; cbn [Pos.of_uint_acc Decimal.nb_digits];
    [rewrite Z.pow_0_r; lia | ..];
    rewrite Nat2Z.inj_succ, Z.pow_succ_r by lia;
    (eapply Z.le_trans; [|apply IH]);
    rewrite ?Pos2Z.inj_add, Pos2Z.inj_mul;
    pose proof (Z.pow_nonneg 10 (Z.of_nat (Decimal.nb_digits l))
                  ltac:(lia));
    nia.
Qed.

(** A positive number below [10^w] has at most [w] digits. *)
Lemma to_uint_digits :
  forall p w,
    Zpos p < 10 ^ Z.of_nat w -> (Decimal.nb_digits (Pos.to_uint p) <= w)%nat.
Proof.
  intros p w H.
  pose proof (DecimalPos.Unsigned.of_to p) as Hof.
  pose proof (to_uint_no_leading_zero p) as Hz.
  pose proof (DecimalPos.Unsigned.to_uint_nonnil p) as Hn.
  destruct (Pos.to_uint p) as [|u|u|u|u|u|u|u|u|u|u];
    [contradiction | exfalso; now apply (Hz u) | ..];
    cbn [Pos.of_uint Decimal.nb_digits] in *;
    injection Hof as Hof;
    match type of Hof with
    | Pos.of_uint_acc _ ?k = _ =>
        pose proof (of_uint_acc_lower u k) as Hlow
    end;
    rewrite Hof in Hlow;
    assert (Hpow : 10 ^ Z.of_nat (Decimal.nb_digits u) < 10 ^ Z.of_nat w)
      by (pose proof (Z.pow_pos_nonneg 10 (Z.of_nat (Decimal.nb_digits u))
                        ltac:(lia) ltac:(lia)); nia);
    apply Z.pow_lt_mono_r_iff in Hpow; lia.
Qed.

Lemma string_of_uint_length :
  forall u,
    String.length (NilEmpty.string_of_uint u) = Decimal.nb_digits u.
Proof. induction u; simpl; auto. Qed.

Lemma py_str_length :
  forall n w,
    0 <= n < 10 ^ Z.of_nat w -> (1 <= w)%nat ->
    (String.length (py_str n) <= w)%nat.
Proof.
  intros [|p|p] w [H0 H1] Hw; [exact Hw | | lia].
  rewrite py_str_pos, string_of_uint_length. now apply to_uint_digits.
Qed.

Lemma zeros_length : forall k, String.length (zeros k) = k.
Proof. induction k; simpl; auto. Qed.

Lemma padded_length :
  forall n w,
    0 <= n < 10 ^ Z.of_nat w -> (1 <= w)%nat -> String.length (padded w n) = w.
Proof.
  intros n w Hn Hw. unfold padded.
  pose proof (py_str_length n w Hn Hw) as Hl.
  rewrite length_append, zeros_length. lia.
Qed.

Lemma zeros_value :
  forall k s u,
    NilEmpty.uint_of_string s = Some u ->
    exists u',
      NilEmpty.uint_of_string (zeros k ++ s) = Some u'
      /\ Z.of_uint u' = Z.of_uint u.
Proof.
  induction k as [|k IH]; intros s u H; simpl.
  - now exists u.
  - destruct (IH s u H) as (u' & Hu' & Hv). rewrite Hu'.
    exists (Decimal.D0 u'). split; [reflexivity | exact Hv].
Qed.

(** A padded number reads as the number. *)
Lemma padded_value :
  forall n w, 0 <= n -> digits_value (padded w n) = n.
Proof.
  intros n w Hn. unfold padded.
  assert (Hs : exists u, NilEmpty.uint_of_string (py_str n) = Some u
                         /\ Z.of_uint u = n /\ py_str n <> "").
  { destruct n as [|p|p]; [| |lia].
    - exists (Decimal.D0 Decimal.Nil). repeat split. discriminate.
    - rewrite py_str_pos. exists (Pos.to_uint p). split; [|split].
      + apply NilEmpty.usu.
      + unfold Z.of_uint. now rewrite DecimalPos.Unsigned.of_to.
      + pose proof (DecimalPos.Unsigned.to_uint_nonnil p) as Hnil.
        destruct (Pos.to_uint p); [contradiction | discriminate ..]. }
  destruct Hs as (u & Hu & Hv & Hne).
  destruct (zeros_value (w - String.length (py_str n)) _ _ Hu)
    as (u' & Hu' & Hv').
  unfold digits_value, NilZero.uint_of_string.
  destruct (zeros (w - String.length (py_str n)) ++ py_str n) eqn:E.
  - exfalso. apply (f_equal String.length) in E.
    rewrite length_append in E. simpl in E.
    destruct (py_str n); [contradiction | simpl in E; lia].
  - rewrite Hu'. congruence.
Qed.

Lemma append_inj :
  forall a a' b b' : string,
    String.length a = String.length a' ->
    a ++ b = a' ++ b' -> a = a' /\ b = b'.
Proof.
  induction a as [|x a IH]; intros [|y a'] b b' Hl H; simpl in *;
    try discriminate.
  - now split.
  - injection H as -> H. destruct (IH a' b b') as [-> ->]; [lia | exact H|].
    now split.
Qed.

(** The readings of the clock whose text has the widths of the format: the
    years of four digits and the ranges of the other fields. *)
Definition clock_ok (now : datetime) : Prop :=
  1000 <= year now <= 9999
  /\ 1 <= month now <= 12
  /\ 1 <= day now <= 31
  /\ 0 <= hour now <= 23
  /\ 0 <= minute now <= 59
  /\ 0 <= second now <= 59
  /\ 0 <= microsecond now <= 999999.

(** A batch id has 22 characters, and two readings of the clock give one
    batch id only when they are the same reading, to the microsecond. *)
Theorem batch_id_of_clock :
  forall a b : datetime,
    clock_ok a -> clock_ok b ->
    String.length (generate_batch_id a) = 22%nat
    /\ (generate_batch_id a = generate_batch_id b -> a = b).
Proof.
  intros a b (Hy & Hmo & Hd & Hh & Hmi & Hs & Hu)
    (Hy' & Hmo' & Hd' & Hh' & Hmi' & Hs' & Hu').
  assert (L4 : forall n, 0 <= n <= 9999 -> String.length (padded 4 n) = 4%nat)
    by (intros n Hn; apply padded_length; [simpl; lia | lia]).
  assert (L2 : forall n, 0 <= n <= 99 -> String.length (padded 2 n) = 2%nat)
    by (intros n Hn; apply padded_length; [simpl; lia | lia]).
  assert (L6 : forall n, 0 <= n <= 999999 ->
                         String.length (padded 6 n) = 6%nat)
    by (intros n Hn; apply padded_length; [simpl; lia | lia]).
  assert (V : forall w n m, 0 <= n -> 0 <= m ->
                            padded w n = padded w m -> n = m).
  { intros w n m Hn Hm E.
    rewrite <- (padded_value n w Hn), <- (padded_value m w Hm).
    now rewrite E. }
  unfold generate_batch_id. split.
  - rewrite !length_append, L4, !L2, L6 by lia. reflexivity.
  - intros E.
    apply append_inj in E; [|rewrite !L4; lia]. destruct E as [Ey E].
    apply append_inj in E; [|rewrite !L2; lia]. destruct E as [Emo E].
    apply append_inj in E; [|rewrite !L2; lia]. destruct E as [Ed E].
    apply append_inj in E; [|reflexivity]. destruct E as [_ E].
    apply append_inj in E; [|rewrite !L2; lia]. destruct E as [Eh E].
    apply append_inj in E; [|rewrite !L2; lia]. destruct E as [Emi E].
    apply append_inj in E; [|rewrite !L2; lia]. destruct E as [Es E].
    apply append_inj in E; [|reflexivity]. destruct E as [_ Eu].
    apply V in Ey, Emo, Ed, Eh, Emi, Es, Eu; try lia.
    destruct a, b. simpl in *. now subst.
Qed.

Definition one_microsecond_later : datetime :=
  {| year := 2025; month := 12; day := 3; hour := 12; minute := 0;
     second := 0; microsecond := 43 |}.

Lemma batch_id_of_clock_witness :
  String.length (generate_batch_id noon) = 22%nat
  /\ generate_batch_id noon <> generate_batch_id one_microsecond_later.
Proof.
  assert (Ha : clock_ok noon) by (unfold clock_ok; simpl; lia).
  assert (Hb : clock_ok one_microsecond_later)
    by (unfold clock_ok; simpl; lia).
  destruct (batch_id_of_clock noon one_microsecond_later Ha Hb) as [Hl Hinj].
  split; [exact Hl|]. intros E. specialize (Hinj E). discriminate.
Defined.

(** * Properties of the API of [app.py] *)

(** ** Which exceptions the store raises *)

Definition db_error (e : exn) : Prop :=
  match e with
  | OperationalError _ | IntegrityError _ | OverflowError _ => True
  | _ => False
  end.

Lemma run_stmt_raises :
  forall s db e, run_stmt s db = Raise e -> db_error e.
Proof.
  intros [n c | n tbl c] db e; simpl.
  - unfold create_table_if_not_exists.
    destruct (find_table db n); [discriminate|].
    destruct (find_index db n); intros H; [|discriminate].
    now injection H as <-.
  - unfold create_index_if_not_exists.
    destruct (find_table db tbl) as [t|];
      [|intros H; now injection H as <-].
    destruct (find_table db n); [intros H; now injection H as <-|].
    destruct (find_index db n); [discriminate|].
    destruct (has_column t c); [discriminate|].
    intros H; now injection H as <-.
Qed.

Lemma init_database_raises :
  forall db e d, init_database db = (Raise e, d) -> db_error e.
Proof.
  intros db e d. rewrite init_database_run. generalize init_statements.
  intros l. revert db. induction l as [|s l IH]; intros db H; simpl in H;
    [discriminate|].
  destruct (run_stmt s db) as [d1|e1] eqn:E; [now apply (IH d1)|].
  injection H as <- _. eapply run_stmt_raises; exact E.
Qed.

Lemma run_inserts_raises :
  forall timestamp l db e,
    run_inserts timestamp l db = Raise e -> db_error e.
Proof.
  intros timestamp. induction l as [|s l IH]; intros db e H; simpl in H;
    [discriminate|].
  destruct (run_insert timestamp s db) as [d|e1] eqn:E; cbn [bind] in H;
    [now apply (IH d)|].
  injection H as <-. unfold run_insert, bind_parameters in E.
  destruct (forallb bindable (ins_values s)); cbn [bind] in E;
    [|now injection E as <-].
  unfold insert_into in E.
  destruct (find_table db (ins_table s)) as [t|];
    [|now injection E as <-].
  repeat match type of E with
         | (if ?b then _ else _) = _ =>
             destruct b; [now injection E as <-|]
         end.
  discriminate.
Qed.

Lemma save_raises :
  forall res now timestamp db e d,
    save_analysis_to_database res now timestamp db = (Raise e, d) ->
    db_error e.
Proof.
  intros res now timestamp db e d H. rewrite save_analysis_statements in H.
  destruct (init_database db) as [[[]|e1] db1] eqn:Ei.
  - destruct (run_inserts timestamp _ db1) as [d1|e1] eqn:Er;
      [discriminate|].
    injection H as <- _. eapply run_inserts_raises; exact Er.
  - injection H as <- _. eapply init_database_raises; exact Ei.
Qed.





(** ** [POST /api/analyze] *)

Lemma save_then_init :
  forall res now timestamp db db' batch_id,
    save_analysis_to_database res now timestamp db = (Ok batch_id, db') ->
    init_database db' = (Ok tt, db').
Proof.
  intros res now timestamp db db' batch_id H.
  rewrite save_analysis_statements in H.
  destruct (init_database db) as [[[]|e] db1] eqn:Einit; [|discriminate].
  destruct (run_inserts timestamp _ db1) as [d|e] eqn:Erun; [|discriminate].
  injection H as _ <-.
  rewrite init_database_run in Einit |- *.
  pose proof (run_schema_done _ _ _ init_statements_tables_first Einit)
    as Hdone.
  assert (Hdone' : Forall (fun s => done s d) init_statements).
  { eapply Forall_impl; [|exact Hdone]. intros st Hst.
    eapply run_inserts_keep_done; eassumption. }
  pose proof (run_schema_skip init_statements [] d Hdone') as Hskip.
  now rewrite app_nil_r in Hskip.
Qed.

(** The five ways of a request to analyse. *)
Inductive analyze_outcome (fs : filesystem) (data_file : string)
    (th : Z) (now : datetime) (timestamp : string) (db : database)
    (r : response) (db' : database) : Prop :=
| refused :
    th < 0 -> r = invalid_threshold -> db' = db ->
    analyze_outcome fs data_file th now timestamp db r db'
| init_failed : forall e,
    0 <= th -> init_database db = (Raise e, db') -> status r = 500 ->
    analyze_outcome fs data_file th now timestamp db r db'
| analysis_failed : forall e,
    0 <= th -> init_database db = (Ok tt, db') ->
    run_full_analysis fs data_file th = Raise e ->
    status r = match e with
               | FileNotFoundError _ => 404
               | ValueError _ => 400
               | _ => 500
               end ->
    analyze_outcome fs data_file th now timestamp db r db'
| save_failed : forall db1 res e,
    0 <= th -> init_database db = (Ok tt, db1) ->
    run_full_analysis fs data_file th = Ok res ->
    save_analysis_to_database res now timestamp db1 = (Raise e, db') ->
    status r = 500 ->
    analyze_outcome fs data_file th now timestamp db r db'
| saved : forall db1 res batch_id,
    0 <= th -> init_database db = (Ok tt, db1) ->
    run_full_analysis fs data_file th = Ok res ->
    save_analysis_to_database res now timestamp db1 = (Ok batch_id, db') ->
    status r = 201 ->
    dict_item (match body r with PDict d => d | _ => [] end) "batch_id"
    = Ok (PStr batch_id) ->
    analyze_outcome fs data_file th now timestamp db r db'.

Lemma run_analysis_outcome :
  forall fs data_file args now timestamp db,
    analyze_outcome fs data_file (args_get_int args "threshold" 10) now
      timestamp db
      (fst (run_analysis fs data_file args now timestamp db))
      (snd (run_analysis fs data_file args now timestamp db)).
Proof.
  intros fs data_file args now timestamp db.
  unfold run_analysis, handle_errors, step_bind, step_ret, pure_step.
  set (th := args_get_int args "threshold" 10).
  destruct (th <? 0) eqn:Eth.
  { apply Z.ltb_lt in Eth. now apply refused. }
  apply Z.ltb_ge in Eth.
  destruct (init_database db) as [[[]|e0] db1] eqn:Ei.
  2:{ apply (init_failed _ _ _ _ _ _ _ _ e0); [exact Eth | | ].
      - now destruct e0.
      - pose proof (init_database_raises _ _ _ Ei) as He.
        now destruct e0. }
  destruct (run_full_analysis fs data_file th) as [res|e1] eqn:Er.
  2:{ apply (analysis_failed _ _ _ _ _ _ _ _ e1); [exact Eth | | exact Er |].
      - now destruct e1.
      - now destruct e1. }
  destruct (save_analysis_to_database res now timestamp db1)
    as [[batch_id|e2] db2] eqn:Es.
  - now apply (saved _ _ _ _ _ _ _ _ db1 res batch_id).
  - apply (save_failed _ _ _ _ _ _ _ _ db1 res e2); try assumption.
    + now destruct e2.
    + pose proof (save_raises _ _ _ _ _ _ Es) as He. now destruct e2.
Qed.



(** ** The requests that read *)

(** An action that leaves the connection as it found it. *)
Definition reads {A : Type} (m : action A) : Prop :=
  forall c, snd (m c) = c.

Lemma reads_ret : forall (A : Type) (a : A), reads (ret a).
Proof. intros A a c. reflexivity. Qed.

Lemma reads_lift : forall (A : Type) (r : result A), reads (lift r).
Proof. intros A r c. reflexivity. Qed.

Lemma reads_query :
  forall (A : Type) (q : database -> result A), reads (execute_query q).
Proof. intros A q c. reflexivity. Qed.

Lemma reads_and_then :
  forall (A B : Type) (m : action A) (k : A -> action B),
    reads m -> (forall a, reads (k a)) -> reads (and_then m k).
Proof.
  intros A B m k Hm Hk c. unfold and_then.
  specialize (Hm c). destruct (m c) as [[a|e] c']; cbn [snd] in Hm; subst c'.
  - apply Hk.
  - reflexivity.
Qed.

Lemma with_db_connection_reads :
  forall (A : Type) (m : action A) db,
    reads m -> snd (with_db_connection m db) = db.
Proof.
  intros A m db Hm. unfold with_db_connection.
  specialize (Hm {| committed := db; pending := None |}).
  destruct (m _) as [r c]. cbn [snd] in *. now subst c.
Qed.

(** A step that leaves the store as it found it. *)
Definition keeps {A : Type} (g : step A) : Prop :=
  forall db, snd (g db) = db.

Lemma keeps_ret : forall (A : Type) (a : A), keeps (step_ret a).
Proof. intros A a db. reflexivity. Qed.

Lemma keeps_pure : forall (A : Type) (r : result A), keeps (pure_step r).
Proof. intros A r db. reflexivity. Qed.

Lemma keeps_bind :
  forall (A B : Type) (m : step A) (k : A -> step B),
    keeps m -> (forall a, keeps (k a)) -> keeps (step_bind m k).
Proof.
  intros A B m k Hm Hk db. unfold step_bind.
  specialize (Hm db). destruct (m db) as [[a|e] db']; cbn [snd] in Hm;
    subst db'.
  - apply Hk.
  - reflexivity.
Qed.

Lemma get_all_analysis_logs_keeps :
  forall sort, keeps (get_all_analysis_logs sort).
Proof.
  intros sort db. apply with_db_connection_reads.
  apply reads_and_then; [apply reads_query|]. intros a. apply reads_lift.
Qed.

Lemma get_latest_analysis_keeps :
  forall sort, keeps (get_latest_analysis sort).
Proof.
  intros sort db. unfold get_latest_analysis.
  pose proof (get_all_analysis_logs_keeps sort db) as H.
  destruct (get_all_analysis_logs sort db) as [[logs|e] db']; exact H.
Qed.

Lemma get_analysis_by_batch_id_keeps :
  forall batch_id, keeps (get_analysis_by_batch_id batch_id).
Proof.
  intros batch_id db. apply with_db_connection_reads.
  apply reads_and_then; [apply reads_query|]. intros [|row rows_].
  - apply reads_ret.
  - destruct (log_entry row) as [entry|e]; intros c; reflexivity.
Qed.

Lemma get_sites_by_region_keeps :
  forall sort region, keeps (get_sites_by_region sort region).
Proof.
  intros sort region db. apply with_db_connection_reads.
  apply reads_and_then; [apply reads_query|]. intros a. apply reads_ret.
Qed.

Lemma get_all_sites_keeps :
  forall sort batch_id, keeps (get_all_sites sort batch_id).
Proof.
  intros sort batch_id db. apply with_db_connection_reads.
  apply reads_and_then; [apply reads_query|]. intros a. apply reads_ret.
Qed.

Lemma get_invalid_records_keeps :
  forall sort batch_id, keeps (get_invalid_records sort batch_id).
Proof.
  intros sort batch_id db. apply with_db_connection_reads.
  apply reads_and_then; [apply reads_query|]. intros a. apply reads_ret.
Qed.

Lemma get_database_stats_keeps : keeps get_database_stats.
Proof.
  intros db. apply with_db_connection_reads.
  repeat (apply reads_and_then; [apply reads_query|]; intros ?).
  apply reads_ret.
Qed.

Lemma handle_errors_store :
  forall (f : step response) db, snd (handle_errors f db) = snd (f db).
Proof.
  intros f db. unfold handle_errors.
  destruct (f db) as [[r|e] db']; [reflexivity|]. now destruct e.
Qed.

(** A request is safe when it changes no row of a table and, made again,
    has the same answer and leaves the same store. *)
Definition safe_request (h : database -> response * database) : Prop :=
  forall db,
    (forall name, rows_in (snd (h db)) name = rows_in db name)
    /\ h (snd (h db)) = h db.

Lemma safe_after_init :
  forall g : step response,
    keeps g ->
    safe_request (handle_errors (step_bind init_database (fun _ => g))).
Proof.
  intros g Hg db.
  assert (Hs : snd (handle_errors (step_bind init_database (fun _ => g)) db)
               = snd (init_database db)).
  { rewrite handle_errors_store. unfold step_bind.
    destruct (init_database db) as [[u|e] db1]; [apply Hg | reflexivity]. }
  rewrite Hs. split.
  - intros name. apply same_rows_rows_in, init_database_same_rows.
  - unfold handle_errors, step_bind. now rewrite init_database_again.
Qed.

Lemma safe_without_store :
  forall g : step response, keeps g -> safe_request (handle_errors g).
Proof.
  intros g Hg db.
  assert (Hs : snd (handle_errors g db) = db)
    by (rewrite handle_errors_store; apply Hg).
  rewrite Hs. split; reflexivity.
Qed.

(** The entry of the log that a request answers with, or the answer of the
    live calculation: both read. *)
Lemma keeps_found :
  forall (o : option (dict pyval)) (none : step response)
         (some : dict pyval -> step response),
    keeps none -> (forall entry, keeps (some entry)) ->
    keeps (match found_entry o with
           | None => none
           | Some entry => some entry
           end).
Proof.
  intros o none some Hn Hs. destruct (found_entry o); [apply Hs | exact Hn].
Qed.

Ltac keeps_steps :=
  repeat first
    [ apply keeps_ret
    | apply keeps_pure
    | apply get_all_analysis_logs_keeps
    | apply get_latest_analysis_keeps
    | apply get_analysis_by_batch_id_keeps
    | apply get_sites_by_region_keeps
    | apply get_all_sites_keeps
    | apply get_invalid_records_keeps
    | apply get_database_stats_keeps
    | (apply keeps_found; [|intros ?])
    | (apply keeps_bind; [|intros ?])
    | progress cbv zeta ].

(** Every request that is served with [GET] is safe: it changes no row of
    a table (it may create the tables that are missing), and the same
    request made again has the same answer and leaves the same store. *)
Theorem get_requests_safe :
  forall (sort : sorter) (fs : filesystem) (data_file : string)
         (args : request_args) (batch_id region : string),
    safe_request (get_latest sort)
    /\ safe_request (get_logs sort args)
    /\ safe_request (get_analysis batch_id)
    /\ safe_request (get_sites sort args)
    /\ safe_request (get_region_sites sort region)
    /\ safe_request get_stats
    /\ safe_request (get_total sort fs data_file)
    /\ safe_request (get_highest_region sort fs data_file)
    /\ safe_request (get_cities_threshold fs data_file args)
    /\ safe_request (get_averages sort fs data_file)
    /\ safe_request (get_invalid sort args).
Proof.
  intros sort fs data_file args batch_id region.
  repeat match goal with |- _ /\ _ => split end.
  - unfold get_latest. apply safe_after_init. keeps_steps.
  - unfold get_logs. apply safe_after_init. cbv zeta. keeps_steps.
  - unfold get_analysis. apply safe_after_init. keeps_steps.
  - unfold get_sites. apply safe_after_init. cbv zeta. keeps_steps.
  - unfold get_region_sites. apply safe_after_init.
    apply keeps_bind; [apply get_sites_by_region_keeps|].
    intros [|site sites]; apply keeps_ret.
  - unfold get_stats. apply safe_after_init. keeps_steps.
  - unfold get_total. apply safe_after_init. keeps_steps.
  - unfold get_highest_region. apply safe_after_init. keeps_steps.
  - unfold get_cities_threshold. apply safe_without_store. cbv zeta.
    destruct (args_get_int args "threshold" 10 <? 0); keeps_steps.
  - unfold get_averages. apply safe_after_init. keeps_steps.
  - unfold get_invalid. apply safe_after_init. cbv zeta. keeps_steps.
Qed.

(** ** An analysis that was saved is what the requests answer with *)

Lemma run_full_analysis_keys :
  forall fs filepath th res,
    run_full_analysis fs filepath th = Ok res ->
    NoDup (keys (average_sites_per_region res)).
Proof.
  intros fs filepath th res H.
  destruct (run_full_analysis_inv _ _ _ _ H)
    as (invalid & highest & avg & summary & Hload & _ & _ & Ha & _ & Hres).
  destruct (load_data_ok _ _ _ _ Hload) as [Hok _].
  destruct (averages_of_regions _ (record_ok_counts _ Hok))
    as (averages & Ha' & Hk & _).
  rewrite Ha in Ha'. injection Ha' as <-.
  assert (E : average_sites_per_region res = avg)
    by (rewrite Hres; reflexivity).
  rewrite E, Hk. apply NoDup_regions_in_order.
Qed.

(** The row of a batch in a log table that has the batch once. *)
Lemma batch_in_table :
  forall db (old : list (dict sqlval)) row batch_id entry,
    table_of db "analysis_log" analysis_log_columns (old ++ [row])%list ->
    ~ In (SqlText batch_id) (map batch_of old) ->
    batch_of row = SqlText batch_id ->
    log_entry row = Ok entry ->
    get_analysis_by_batch_id batch_id db = (Ok (Some entry), db).
Proof.
  intros db old row batch_id entry (t & Ft & Hc & Hr) Hfresh Hb He.
  unfold get_analysis_by_batch_id, with_db_connection, and_then,
    execute_query, current.
  cbn [pending committed].
  unfold select_where. rewrite Ft. unfold has_column. rewrite Hc.
  change (existsb (fun c => same_name (col_name c) "batch_id")
            analysis_log_columns) with true.
  cbn iota. rewrite Hr, filter_app, filter_none.
  - cbn [app filter]. fold (batch_of row). rewrite Hb.
    cbn [sqlval_eqb]. rewrite String.eqb_refl, He. reflexivity.
  - intros r Hin.
    destruct (sqlval_eqb (cell_of r "batch_id") (SqlText batch_id)) eqn:E;
      [|reflexivity].
    apply sqlval_eqb_text in E. exfalso. apply Hfresh.
    rewrite <- E. apply in_map_iff. exists r. now split.
Qed.

(** When the request to analyse has answered 201, the requests that read
    answer with the analysis it saved: the request for the batch id of the
    answer and the request for the latest analysis answer 200 with the
    entry of this batch, and the requests for the total, for the highest
    region and for the averages answer from the database, with the values
    of this analysis and its batch id.  This holds in a store whose tables
    are those of [init_database] and whose earlier logs are older and can
    be read, for an analysis whose floats read back from their JSON
    text. *)
Theorem analyze_then_read :
  forall (sort : sorter) (fs : filesystem) (data_file : string)
         (args : request_args) (now : datetime) (timestamp : string)
         (db : database) (res : AnalysisResults),
    sorts sort ->
    schema_ok db ->
    Forall (fun row =>
              sqlval_compare (cell_of row "analysis_timestamp")
                (SqlText timestamp) = Lt
              /\ exists e, log_entry row = Ok e)
      (rows_in db "analysis_log") ->
    run_full_analysis fs data_file (args_get_int args "threshold" 10)
    = Ok res ->
    json_safe res = true ->
    let r := fst (run_analysis fs data_file args now timestamp db) in
    let db' := snd (run_analysis fs data_file args now timestamp db) in
    status r = 201 ->
    exists batch_id id,
      dict_item (match body r with PDict d => d | _ => [] end) "batch_id"
      = Ok (PStr batch_id)
      /\ fst (get_analysis batch_id db')
         = jsonify (PDict (saved_entry id res batch_id timestamp))
      /\ fst (get_latest sort db')
         = jsonify (PDict (saved_entry id res batch_id timestamp))
      /\ fst (get_total sort fs data_file db')
         = jsonify (PDict [ ("total_sites", PInt (total_sites res));
                            ("source", PStr "database");
                            ("batch_id", PStr batch_id) ])
      /\ fst (get_highest_region sort fs data_file db')
         = jsonify
             (PDict [ ("region",
                       PStr (hr_region (region_with_highest_sites res)));
                      ("total_sites",
                       PInt (hr_total_sites (region_with_highest_sites res)));
                      ("source", PStr "database");
                      ("batch_id", PStr batch_id) ])
      /\ fst (get_averages sort fs data_file db')
         = jsonify
             (PDict [ ("averages",
                       averages_value (average_sites_per_region res));
                      ("source", PStr "database");
                      ("batch_id", PStr batch_id) ]).
Proof.
  intros sort fs data_file args now timestamp db res Hsort Hschema Hold Hres
    Hsafe r db' H201.
  pose proof (run_analysis_outcome fs data_file args now timestamp db) as Ho.
  fold r db' in Ho.
  destruct Ho as [Hth Hr Hdb | e Hth Hi Hs | e Hth Hi He Hs
                  | db1 res' e Hth Hi Hres' Hsave Hs
                  | db1 res' batch_id Hth Hi Hres' Hsave Hs Hb].
  - rewrite Hr in H201. discriminate.
  - rewrite Hs in H201. discriminate.
  - rewrite Hres in He. discriminate.
  - rewrite Hs in H201. discriminate.
  - rewrite Hres in Hres'. injection Hres' as <-.
    (* the store in which the batch is saved *)
    assert (Hschema1 : schema_ok db1).
    { pose proof (init_database_schema_ok db Hschema) as H.
      now rewrite Hi in H. }
    assert (Hrows : rows_in db1 "analysis_log" = rows_in db "analysis_log").
    { pose proof (init_database_same_rows db) as H. rewrite Hi in H.
      now apply same_rows_rows_in. }
    destruct (save_rows _ _ _ _ _ _ Hschema1 Hsave)
      as (_ & _ & (id & Tl) & _).
    pose proof (save_fresh _ _ _ _ _ _ Hschema1 Hsave) as Hfresh.
    pose proof (save_then_init _ _ _ _ _ _ Hsave) as Hinit.
    rewrite Hrows in Tl, Hfresh.
    set (new := log_row id res batch_id timestamp) in *.
    set (entry := saved_entry id res batch_id timestamp).
    assert (He : log_entry new = Ok entry).
    { apply log_entry_row; [|exact Hsafe].
      eapply run_full_analysis_keys; exact Hres. }
    (* the two reads of the log *)
    assert (Hget : get_analysis_by_batch_id batch_id db'
                   = (Ok (Some entry), db')).
    { eapply batch_in_table; [exact Tl | exact Hfresh | reflexivity
                             | exact He]. }
    assert (Hlatest : get_latest_analysis sort db' = (Ok (Some entry), db')).
    { destruct (latest_in_table sort db' _ new entry Hsort Tl Hold He)
        as (older & Hall & _).
      unfold get_latest_analysis. now rewrite Hall. }
    exists batch_id, id. split; [exact Hb|].
    unfold get_analysis, get_latest, get_total, get_highest_region,
      get_averages, handle_errors, step_bind, step_ret, pure_step.
    rewrite Hinit, Hget, Hlatest. repeat split.
Qed.

Lemma analyze_then_read_witness :
  exists res batch_id id,
    run_full_analysis (one_file mixed_file) "galamsay_data.csv" 10 = Ok res
    /\ fst (get_analysis batch_id
              (snd (run_analysis (one_file mixed_file) "galamsay_data.csv" []
                      noon "2025-12-03 12:00:00" empty_database)))
       = jsonify (PDict (saved_entry id res batch_id "2025-12-03 12:00:00"))
    /\ fst (get_total rowid_sorter (one_file mixed_file) "galamsay_data.csv"
              (snd (run_analysis (one_file mixed_file) "galamsay_data.csv" []
                      noon "2025-12-03 12:00:00" empty_database)))
       = jsonify (PDict [ ("total_sites", PInt (total_sites res));
                          ("source", PStr "database");
                          ("batch_id", PStr batch_id) ]).
Proof.
  destruct (run_full_analysis (one_file mixed_file) "galamsay_data.csv" 10)
    as [res|e] eqn:E; [|vm_compute in E; discriminate].
  assert (Hdb : schema_ok empty_database)
    by (repeat split; intros t Ht; discriminate).
  assert (Hsafe : json_safe res = true)
    by (vm_compute in E; injection E as <-; vm_compute; reflexivity).
  assert (H201 : status (fst (run_analysis (one_file mixed_file)
                                "galamsay_data.csv" [] noon
                                "2025-12-03 12:00:00" empty_database)) = 201)
    by (vm_compute; reflexivity).
  destruct (analyze_then_read rowid_sorter (one_file mixed_file)
              "galamsay_data.csv" [] noon "2025-12-03 12:00:00"
              empty_database res rowid_sorter_sorts Hdb (Forall_nil _) E
              Hsafe H201)
    as (batch_id & id & _ & Hget & _ & Htotal & _).
  exists res, batch_id, id. split; [reflexivity|]. split; assumption.
Defined.

(** ** The statistics of a store without a log *)

Lemma no_logs :
  forall (sort : sorter) db,
    sorts sort ->
    table_of db "analysis_log" analysis_log_columns [] ->
    get_all_analysis_logs sort db = (Ok [], db).
Proof.
  intros sort db Hsort Tl.
  set (terms := [ ("analysis_timestamp", Desc) ] : list order_term).
  destruct (select_table sort None "analysis_log" None terms db _ _ Tl
              eq_refl) as (t & _ & Hsel).
  cbv zeta in Hsel. cbn [terms project] in Hsel. rewrite map_id in Hsel.
  fold terms in Hsel.
  destruct (Hsort terms []) as [Hp _].
  apply Permutation_sym, Permutation_nil in Hp. rewrite Hp in Hsel.
  unfold get_all_analysis_logs, with_db_connection, and_then, execute_query,
    lift, current.
  cbn [pending committed]. fold terms. now rewrite Hsel.
Qed.

(** The status with which [handle_errors] answers an exception. *)
Definition status_of (e : exn) : Z :=
  match e with
  | FileNotFoundError _ => 404
  | ValueError _ => 400
  | _ => 500
  end.

Lemma handle_errors_status :
  forall (f : step response) db e d,
    f db = (Raise e, d) ->
    status (fst (handle_errors f db)) = status_of e.
Proof.
  intros f db e d H. unfold handle_errors. rewrite H. now destruct e.
Qed.

(** In a store without a log, the requests for the total, for the highest
    region and for the averages calculate from the data file.  When the
    file can be analysed, they answer with the values that its analysis has,
    and name the live calculation as their source; when the file cannot be
    loaded, they answer 404 for a file that is missing, 400 for a
    [ValueError] and 500 otherwise. *)
Theorem statistics_without_log :
  forall (sort : sorter) (fs : filesystem) (data_file : string)
         (db : database),
    sorts sort ->
    schema_ok db ->
    fst (init_database db) = Ok tt ->
    rows_in db "analysis_log" = [] ->
    (forall th res,
        run_full_analysis fs data_file th = Ok res ->
        fst (get_total sort fs data_file db)
        = jsonify (PDict [ ("total_sites", PInt (total_sites res));
                           ("source", PStr "live_calculation") ])
        /\ fst (get_highest_region sort fs data_file db)
           = jsonify
               (PDict [ ("region",
                         PStr (hr_region (region_with_highest_sites res)));
                        ("total_sites",
                         PInt (hr_total_sites
                                 (region_with_highest_sites res)));
                        ("source", PStr "live_calculation") ])
        /\ fst (get_averages sort fs data_file db)
           = jsonify
               (PDict [ ("averages",
                         averages_value (average_sites_per_region res));
                        ("source", PStr "live_calculation") ]))
    /\ (forall e,
           load_data fs data_file = Raise e ->
           status (fst (get_total sort fs data_file db)) = status_of e
           /\ status (fst (get_highest_region sort fs data_file db))
              = status_of e
           /\ status (fst (get_averages sort fs data_file db)) = status_of e).
Proof.
  intros sort fs data_file db Hsort Hschema Hinit Hnone.
  destruct (init_database db) as [[[]|e0] db1] eqn:Ei; [|discriminate].
  destruct (init_database_tables db db1 Hschema Ei) as (_ & _ & Tl & _).
  rewrite Hnone in Tl.
  assert (Hlatest : get_latest_analysis sort db1 = (Ok None, db1)).
  { unfold get_latest_analysis. now rewrite (no_logs sort db1 Hsort Tl). }
  unfold get_total, get_highest_region, get_averages, handle_errors,
    step_bind, step_ret, pure_step.
  rewrite Ei, Hlatest. cbn [found_entry]. split.
  - intros th res Hres.
    destruct (run_full_analysis_inv _ _ _ _ Hres)
      as (invalid & highest & avg & summary & Hload & Hh & _ & Ha & _ & E).
    assert (Etot : total_sites res = get_total_sites (valid_data res))
      by (rewrite E at 1; reflexivity).
    assert (Ehr : region_with_highest_sites res
                  = {| hr_region := fst highest;
                       hr_total_sites := snd highest |})
      by (rewrite E at 1; reflexivity).
    assert (Eavg : average_sites_per_region res = avg)
      by (rewrite E at 1; reflexivity).
    rewrite Hload. cbn [fst]. rewrite Hh, Ha, Etot, Ehr, Eavg.
    repeat split.
  - intros e He. rewrite He. destruct e; repeat split.
Qed.

Lemma statistics_without_log_witness :
  exists res,
    run_full_analysis (one_file mixed_file) "galamsay_data.csv" 10 = Ok res
    /\ fst (get_total rowid_sorter (one_file mixed_file) "galamsay_data.csv"
              empty_database)
       = jsonify (PDict [ ("total_sites", PInt (total_sites res));
                          ("source", PStr "live_calculation") ])
    /\ status (fst (get_averages rowid_sorter (fun _ => None)
                      "galamsay_data.csv" empty_database))
       = 404.
Proof.
  destruct (run_full_analysis (one_file mixed_file) "galamsay_data.csv" 10)
    as [res|e] eqn:E; [|vm_compute in E; discriminate].
  assert (Hdb : schema_ok empty_database)
    by (repeat split; intros t Ht; discriminate).
  exists res. split; [reflexivity|]. split.
  - apply (proj1 (statistics_without_log rowid_sorter (one_file mixed_file)
                    "galamsay_data.csv" empty_database rowid_sorter_sorts
                    Hdb eq_refl eq_refl) 10 res E).
  - apply (proj2 (statistics_without_log rowid_sorter (fun _ => None)
                    "galamsay_data.csv" empty_database rowid_sorter_sorts
                    Hdb eq_refl eq_refl)
             (FileNotFoundError "Data file not found: galamsay_data.csv")
             eq_refl).
Defined.

(** ** What the store does not have is not found *)

Lemma dict_set_nonempty :
  forall (V : Type) (d : dict V) k v, dict_set d k v <> [].
Proof.
  intros V [|[k' v'] d] k v; simpl; [discriminate|].
  destruct (String.eqb k' k); discriminate.
Qed.

Lemma parse_json_field_returns :
  forall d key key_json d',
    parse_json_field d key key_json = Ok d' -> d' <> [].
Proof.
  intros d key key_json d' H. unfold parse_json_field in H.
  destruct (dict_pop d key_json) as [[v rest]|e]; cbn [bind fst snd] in H;
    [|discriminate].
  destruct (loads_value v) as [w|e]; cbn [bind] in H; [|discriminate].
  injection H as <-. apply dict_set_nonempty.
Qed.

Lemma parse_json_field_raises :
  forall d key key_json e,
    parse_json_field d key key_json = Raise e -> status_of e <> 404.
Proof.
  intros d key key_json e H. unfold parse_json_field, dict_pop in H.
  destruct (dict_get d key_json) as [v|]; cbn [bind fst snd] in H;
    [|injection H as <-; discriminate].
  destruct (loads_value v) as [w|e1] eqn:El; cbn [bind] in H; [discriminate|].
  injection H as <-. unfold loads_value in El.
  destruct v; try (injection El as <-; discriminate).
  unfold json_loads in El.
  destruct (parse_value _ _) as [[w rest]|];
    [|injection El as <-; discriminate].
  destruct (skip_ws rest); [discriminate|]. injection El as <-. discriminate.
Qed.

Lemma log_entry_returns :
  forall row entry, log_entry row = Ok entry -> entry <> [].
Proof.
  intros row entry H. unfold log_entry in H.
  destruct (parse_json_field _ "average_per_region" _) as [r1|e];
    cbn [bind] in H; [|discriminate].
  destruct (parse_json_field r1 "region_summary" _) as [r2|e];
    cbn [bind] in H; [|discriminate].
  eapply parse_json_field_returns; exact H.
Qed.

Lemma log_entry_raises :
  forall row e, log_entry row = Raise e -> status_of e <> 404.
Proof.
  intros row e H. unfold log_entry in H.
  destruct (parse_json_field _ "average_per_region" _) as [r1|e1] eqn:E1;
    cbn [bind] in H;
    [|injection H as <-; eapply parse_json_field_raises; exact E1].
  destruct (parse_json_field r1 "region_summary" _) as [r2|e2] eqn:E2;
    cbn [bind] in H;
    [|injection H as <-; eapply parse_json_field_raises; exact E2].
  eapply parse_json_field_raises; exact H.
Qed.

Lemma parse_rows_returns :
  forall rows_ results l,
    parse_rows rows_ results = Ok l ->
    exists entries,
      l = (results ++ entries)%list
      /\ List.length entries = List.length rows_
      /\ Forall (fun e => e <> []) entries.
Proof.
  induction rows_ as [|row rows_ IH]; intros results l H; simpl in H.
  - injection H as <-. exists []. rewrite app_nil_r. now repeat split.
  - destruct (log_entry row) as [entry|e] eqn:E; cbn [bind] in H;
      [|discriminate].
    destruct (IH _ _ H) as (entries & -> & Hlen & Hall).
    exists (entry :: entries). rewrite <- app_assoc. simpl.
    repeat split; [now rewrite Hlen|]. constructor; [|exact Hall].
    eapply log_entry_returns; exact E.
Qed.

Lemma parse_rows_raises :
  forall rows_ results e,
    parse_rows rows_ results = Raise e -> status_of e <> 404.
Proof.
  induction rows_ as [|row rows_ IH]; intros results e H; simpl in H;
    [discriminate|].
  destruct (log_entry row) as [entry|e1] eqn:E; cbn [bind] in H.
  - eapply IH; exact H.
  - injection H as <-. eapply log_entry_raises; exact E.
Qed.

(** The three reads on the tables of the store. *)
Lemma logs_of_table :
  forall (sort : sorter) db rows_,
    table_of db "analysis_log" analysis_log_columns rows_ ->
    get_all_analysis_logs sort db
    = (parse_rows (sort [ ("analysis_timestamp", Desc) ] rows_) [], db).
Proof.
  intros sort db rows_ Tl.
  destruct (select_table sort None "analysis_log" None
              [ ("analysis_timestamp", Desc) ] db _ _ Tl eq_refl)
    as (t & _ & Hsel).
  cbv zeta in Hsel. cbn [project] in Hsel. rewrite map_id in Hsel.
  unfold get_all_analysis_logs, with_db_connection, and_then, execute_query,
    lift, current.
  cbn [pending committed]. now rewrite Hsel.
Qed.

Lemma batch_of_table :
  forall db rows_ batch_id,
    table_of db "analysis_log" analysis_log_columns rows_ ->
    get_analysis_by_batch_id batch_id db
    = (match filter (fun row => sqlval_eqb (batch_of row) (SqlText batch_id))
               rows_ with
       | [] => Ok None
       | row :: _ =>
           match log_entry row with
           | Ok entry => Ok (Some entry)
           | Raise e => Raise e
           end
       end, db).
Proof.
  intros db rows_ batch_id (t & Ft & Hc & Hr).
  unfold get_analysis_by_batch_id, with_db_connection, and_then,
    execute_query, current.
  cbn [pending committed].
  unfold select_where. rewrite Ft. unfold has_column. rewrite Hc.
  change (existsb (fun c => same_name (col_name c) "batch_id")
            analysis_log_columns) with true.
  cbn iota. rewrite Hr. unfold batch_of.
  destruct (filter _ rows_) as [|row rest]; [reflexivity|].
  now destruct (log_entry row).
Qed.

Lemma region_of_table :
  forall (sort : sorter) db rows_ region,
    sorts sort ->
    table_of db "galamsay_sites" galamsay_sites_columns rows_ ->
    exists sites,
      get_sites_by_region sort region db = (Ok sites, db)
      /\ List.length sites
         = List.length
             (filter (fun row => sqlval_eqb (cell_of row "region")
                                   (SqlText region)) rows_).
Proof.
  intros sort db rows_ region Hsort Ts.
  destruct (select_table sort (Some site_query_columns) "galamsay_sites"
              (Some ("region", SqlText region)) [ ("num_sites", Desc) ]
              db _ _ Ts eq_refl) as (t & _ & Hsel).
  cbv zeta in Hsel.
  eexists. split.
  - unfold get_sites_by_region, with_db_connection, and_then, execute_query,
      ret, current.
    cbn [pending committed]. rewrite Hsel. reflexivity.
  - rewrite !length_map. apply Permutation_length, Hsort.
Qed.

(** In a store whose tables are those of [init_database]: the request for
    a batch id answers 404 exactly when no row of the log has this batch
    id; the request for the latest analysis answers 404 exactly when the
    log has no row; and the request for the sites of a region answers 404
    exactly when no row of the sites has this region. *)
Theorem not_found_answers :
  forall (sort : sorter) (db : database) (batch_id region : string),
    sorts sort ->
    schema_ok db ->
    fst (init_database db) = Ok tt ->
    (status (fst (get_analysis batch_id db)) = 404
     <-> ~ logged db (SqlText batch_id))
    /\ (status (fst (get_latest sort db)) = 404
        <-> rows_in db "analysis_log" = [])
    /\ (status (fst (get_region_sites sort region db)) = 404
        <-> forall row, In row (rows_in db "galamsay_sites") ->
                        cell_of row "region" <> SqlText region).
Proof.
  intros sort db batch_id region Hsort Hschema Hinit.
  destruct (init_database db) as [[[]|e0] db1] eqn:Ei; [|discriminate].
  destruct (init_database_tables db db1 Hschema Ei) as (_ & Ts & Tl & _).
  unfold get_analysis, get_latest, get_region_sites, handle_errors,
    step_bind, step_ret.
  rewrite Ei. split; [|split].
  - (* the batch id *)
    rewrite (batch_of_table db1 _ batch_id Tl). unfold logged.
    set (f := fun row => sqlval_eqb (batch_of row) (SqlText batch_id)).
    destruct (filter f (rows_in db "analysis_log")) as [|row rest] eqn:Ef.
    + cbn [found_entry status jsonify_with]. split; [intros _|reflexivity].
      intros Hin. apply in_map_iff in Hin. destruct Hin as (r & Hr & Hin).
      assert (Hf : In r (filter f (rows_in db "analysis_log"))).
      { apply filter_In. split; [exact Hin|]. unfold f.
        now apply sqlval_eqb_text. }
      rewrite Ef in Hf. contradiction.
    + assert (Hrow : In row (filter f (rows_in db "analysis_log")))
        by (rewrite Ef; now left).
      apply filter_In in Hrow. destruct Hrow as [Hin Hb].
      apply sqlval_eqb_text in Hb.
      assert (Hl : In (SqlText batch_id)
                     (map batch_of (rows_in db "analysis_log"))).
      { apply in_map_iff. exists row. now split. }
      split; [|intros Hn; contradiction].
      intros H404. exfalso.
      destruct (log_entry row) as [entry|e] eqn:E.
      * pose proof (log_entry_returns _ _ E) as Hne.
        destruct entry; [contradiction|]. discriminate.
      * pose proof (log_entry_raises _ _ E) as Hne.
        destruct e; try discriminate. now apply Hne.
  - (* the latest analysis *)
    unfold get_latest_analysis. rewrite (logs_of_table sort db1 _ Tl).
    destruct (Hsort [ ("analysis_timestamp", Desc) ]
                (rows_in db "analysis_log")) as [Hp _].
    destruct (rows_in db "analysis_log") as [|row0 rows0] eqn:Er.
    + apply Permutation_sym, Permutation_nil in Hp. rewrite Hp.
      cbn. split; reflexivity.
    + split; [|discriminate]. intros H404. exfalso.
      destruct (parse_rows _ []) as [logs|e] eqn:E.
      * destruct (parse_rows_returns _ _ _ E) as (entries & -> & Hlen & Hne).
        rewrite (Permutation_length Hp) in Hlen. cbn [app] in H404.
        destruct entries as [|entry entries]; [discriminate|].
        inversion Hne as [|? ? Hentry _]; subst.
        destruct entry; [contradiction|]. discriminate.
      * pose proof (parse_rows_raises _ _ _ E) as Hne.
        destruct e; try discriminate. now apply Hne.
  - (* the sites of a region *)
    destruct (region_of_table sort db1 _ region Hsort Ts)
      as (sites & Hget & Hlen).
    rewrite Hget.
    set (f := fun row => sqlval_eqb (cell_of row "region") (SqlText region))
      in *.
    split.
    + intros H404 row Hin Hr.
      assert (Hf : In row (filter f (rows_in db "galamsay_sites"))).
      { apply filter_In. split; [exact Hin|]. unfold f.
        now apply sqlval_eqb_text. }
      destruct sites as [|site sites]; [|discriminate].
      destruct (filter f (rows_in db "galamsay_sites")); [contradiction|].
      discriminate.
    + intros Hno.
      assert (Hf : filter f (rows_in db "galamsay_sites") = []).
      { apply filter_none. intros row Hin.
        destruct (f row) eqn:E; [|reflexivity].
        apply sqlval_eqb_text in E. now apply Hno in E. }
      rewrite Hf in Hlen. destruct sites; [reflexivity | discriminate].
Qed.

Lemma not_found_answers_witness :
  status (fst (get_analysis "20251203_120000_000042" empty_database)) = 404
  /\ status (fst (get_latest rowid_sorter empty_database)) = 404.
Proof.
  assert (Hdb : schema_ok empty_database)
    by (repeat split; intros t Ht; discriminate).
  destruct (not_found_answers rowid_sorter empty_database
              "20251203_120000_000042" "Ashanti" rowid_sorter_sorts Hdb
              eq_refl) as (Hb & Hl & _).
  split.
  - apply Hb. intros H. exact H.
  - apply Hl. reflexivity.
Defined.

(** ** The limit of the lists, and the cities above a threshold *)








(** ** The requests that count the rows of the store *)





